(** * import_webflow: moving a Webflow export into a Django app

    A shallow embedding of [src/import_webflow.py].  The script moves the
    static files and the html pages of an unpacked export into a Django app
    and rewrites every page with BeautifulSoup.

    - [Py]: the Python values and built-ins the script relies on
      (exceptions, [str.startswith], [str.split], [list.insert]).
    - [Re]: [re.sub] for the one pattern of the script.
    - [Soup]: the parse tree and the BeautifulSoup calls the script makes.
    - [Fs]: the directory tree and the [os] calls the script makes.
    - [Importer]: the class [WebflowImporter] and the phases of the script. *)

From Stdlib Require Import ZArith Lia Ascii String.
From stdpp Require Import base option list strings gmap.

Set Warnings "-register-all,-clear-no-such-hyp".
Set Default Proof Using "Type".

(* ===================================================================== *)
(** * Python values and built-ins *)
(* ===================================================================== *)

Module Py.

(** The exceptions that the calls of the script can raise. *)
Inductive exn :=
  | AttributeError
  | IndexError
  | KeyError
  | FileNotFoundError
  | NotADirectoryError
  | IsADirectoryError
  | FileExistsError
  | OSError
  | ReError.

#[global] Instance exn_eq_dec : EqDecision exn.
Proof. solve_decision. Defined.

(** A computation either returns a value or raises. *)
Inductive result (A : Type) :=
  | Ok (a : A)
  | Raise (e : exn).
Arguments Ok {A} a.
Arguments Raise {A} e.

#[global] Instance result_ret : MRet result := @Ok.
#[global] Instance result_bind : MBind result := fun A B f r =>
  match r with
  | Ok a => f a
  | Raise e => Raise e
  end.
#[global] Instance result_fmap : FMap result := fun A B f r =>
  match r with
  | Ok a => Ok (f a)
  | Raise e => Raise e
  end.

Definition is_ok {A} (r : result A) : bool :=
  match r with Ok _ => true | Raise _ => false end.

(** [str(x)] inside an f-string, for a value that is a string or [None]. *)
Definition str (o : option string) : string :=
  match o with
  | Some s => s
  | None => "None"
  end.

(** Truth value of a string or [None], as tested by [x and ...]. *)
Definition truthy (o : option string) : bool :=
  match o with
  | Some s => negb (String.eqb s "")
  | None => false
  end.

(** [x.startswith(p)]: an attribute error when [x] is [None]. *)
Definition startswith (x : option string) (p : string) : result bool :=
  match x with
  | Some s => Ok (String.prefix p s)
  | None => Raise AttributeError
  end.

(** [s.split(sep)] for a separator of one character. *)
Fixpoint split_chr (sep : ascii) (s : string) : list string :=
  match s with
  | EmptyString => [""]
  | String c s' =>
      if Ascii.eqb c sep then "" :: split_chr sep s'
      else match split_chr sep s' with
           | h :: t => String c h :: t
           | [] => [String c ""]
           end
  end.

(** [x.split(" ")]: an attribute error when [x] is [None]. *)
Definition split_space (x : option string) : result (list string) :=
  match x with
  | Some s => Ok (split_chr " " s)
  | None => Raise AttributeError
  end.

(** [l[i]] with Python's negative indices; [None] stands for the index
    error. *)
Definition index {A} (l : list A) (i : Z) : option A :=
  let n := Z.of_nat (length l) in
  let j := if (i <? 0)%Z then (i + n)%Z else i in
  if (j <? 0)%Z then None else l !! Z.to_nat j.

(** [l.insert(i, x)]: a negative index counts from the end, and an index
    out of range is clipped to the nearest end. *)
Definition list_insert {A} (i : Z) (x : A) (l : list A) : list A :=
  let n := Z.of_nat (length l) in
  let j := if (i <? 0)%Z then Z.max 0 (i + n) else Z.min i n in
  take (Z.to_nat j) l ++ x :: drop (Z.to_nat j) l.

End Py.

(* ===================================================================== *)
(** * [re.sub] for the srcset pattern *)
(* ===================================================================== *)

Module Re.

(** The longest prefix of [s] without a space: what [[^ ]+] consumes. *)
Fixpoint nonspace_run (s : string) : string :=
  match s with
  | EmptyString => ""
  | String c s' => if Ascii.eqb c " " then "" else String c (nonspace_run s')
  end.

(** A match of [images/([^ ]+)] that starts at the head of [s]: the text
    of group 1, when there is one. *)
Definition match_here (s : string) : option string :=
  if String.prefix "images/" s then
    let g := nonspace_run (String.substring 7 (String.length s - 7) s) in
    if String.eqb g "" then None else Some g
  else None.

(** ** The replacement template

    The f-string pastes the app name into the replacement template, and
    [re.sub] reads the template before it looks for a match: a backslash
    starts an escape.  What follows is [re._parser.parse_template] for a
    pattern with one group and no named group, on characters with codes
    up to 255. *)

Definition code (c : ascii) : nat := nat_of_ascii c.
Definition between (lo hi : nat) (c : ascii) : bool :=
  (lo <=? code c)%nat && (code c <=? hi)%nat.
Definition is_digit : ascii → bool := between 48 57.
Definition is_octal : ascii → bool := between 48 55.
Definition is_ascii_letter (c : ascii) : bool :=
  between 65 90 c || between 97 122 c.
Definition digit (c : ascii) : nat := code c - 48.
Definition chr (n : nat) : string := String (ascii_of_nat n) "".

(** [name.isidentifier()] *)
Definition id_start (c : ascii) : bool :=
  is_ascii_letter c || Ascii.eqb c "_"
  || (code c =? 170)%nat || (code c =? 181)%nat || (code c =? 186)%nat
  || between 192 214 c || between 216 246 c || between 248 255 c.
Definition id_continue (c : ascii) : bool :=
  id_start c || is_digit c || (code c =? 183)%nat.
Definition isidentifier (s : string) : bool :=
  match s with
  | EmptyString => false
  | String c s' => id_start c && forallb id_continue (list_ascii_of_string s')
  end.

(** [int(name)] as far as the template needs it: 0, 1, or 2 for any
    larger value; [None] stands for the value error.  [int] takes white
    space around the number, a sign, and single underscores between
    digits. *)
Definition is_space (c : ascii) : bool :=
  between 9 13 c || (code c =? 32)%nat || (code c =? 133)%nat
  || (code c =? 160)%nat.
Fixpoint lstrip (l : list ascii) : list ascii :=
  match l with
  | c :: l' => if is_space c then lstrip l' else l
  | [] => []
  end.
Definition strip (l : list ascii) : list ascii := rev (lstrip (rev (lstrip l))).
Fixpoint digits (after_digit : bool) (l : list ascii) : option (list nat) :=
  match l with
  | [] => if after_digit then Some [] else None
  | c :: l' =>
      if is_digit c then (digit c ::.) <$> digits true l'
      else if Ascii.eqb c "_" && after_digit then
        match l' with
        | d :: _ => if is_digit d then digits false l' else None
        | [] => None
        end
      else None
  end.
Definition small (ds : list nat) : nat :=
  foldl (λ n d, Nat.min 2 (10 * n + d))%nat 0%nat ds.
Definition int_small (name : string) : option nat :=
  match strip (list_ascii_of_string name) with
  | c :: l =>
      if Ascii.eqb c "+" then small <$> digits false l
      else if Ascii.eqb c "-" then
        ds ← digits false l; if (small ds =? 0)%nat then Some 0%nat else None
      else small <$> digits false (c :: l)
  | [] => None
  end.

(** A template is read into literal text and references to groups. *)
Inductive part :=
  | Lit (s : string)
  | Group (n : nat).

(** The group that [\g<name>] stands for: an identifier is looked up
    among the named groups, of which there is none; anything else is
    read as a number, and the pattern has group 0, the whole match, and
    group 1.  (A number written with a sign, with spaces or with
    underscores is accepted by Python up to 3.11, with a warning.) *)
Definition group_of_name (name : string) : Py.result nat :=
  if isidentifier name then Py.Raise Py.IndexError
  else match int_small name with
       | Some n => if (n <=? 1)%nat then Py.Ok n else Py.Raise Py.ReError
       | None => Py.Raise Py.ReError
       end.

(** The template is read token by token, a backslash and the character
    after it being one token.  [name] holds the text read so far of a
    group name that is open. *)
Fixpoint template (name : option string) (s : string)
  : Py.result (list part) :=
  match name with
  | Some acc =>
      match s with
      | EmptyString => Py.Raise Py.ReError
      | String c r =>
          if Ascii.eqb c ">" then
            if String.eqb acc "" then Py.Raise Py.ReError
            else n ← group_of_name acc;
                 ps ← template None r;
                 Py.Ok (Group n :: ps)
          else if Ascii.eqb c "\" then
            match r with
            | EmptyString => Py.Raise Py.ReError
            | String c' r' =>
                template (Some (acc +:+ String c (String c' ""))) r'
            end
          else template (Some (acc +:+ String c "")) r
      end
  | None =>
      match s with
      | EmptyString => Py.Ok []
      | String c r =>
          if negb (Ascii.eqb c "\") then
            ps ← template None r; Py.Ok (Lit (String c "") :: ps)
          else
            match r with
            | EmptyString => Py.Raise Py.ReError
            | String c1 r1 =>
                if Ascii.eqb c1 "g" then
                  match r1 with
                  | String c2 r2 =>
                      if Ascii.eqb c2 "<" then template (Some "") r2
                      else Py.Raise Py.ReError
                  | EmptyString => Py.Raise Py.ReError
                  end
                else if Ascii.eqb c1 "0" then
                  match r1 with
                  | String c2 r2 =>
                      if is_octal c2 then
                        match r2 with
                        | String c3 r3 =>
                            if is_octal c3 then
                              ps ← template None r3;
                              Py.Ok (Lit (chr ((8 * digit c2 + digit c3) mod 256))
                                     :: ps)
                            else ps ← template None r2;
                                 Py.Ok (Lit (chr (digit c2)) :: ps)
                        | EmptyString => Py.Ok [Lit (chr (digit c2))]
                        end
                      else ps ← template None r1; Py.Ok (Lit (chr 0) :: ps)
                  | EmptyString => Py.Ok [Lit (chr 0)]
                  end
                else if is_digit c1 then
                  match r1 with
                  | String c2 r2 =>
                      if is_digit c2 then
                        match r2 with
                        | String c3 r3 =>
                            if is_octal c1 && is_octal c2 && is_octal c3 then
                              if (255 <? 64 * digit c1 + 8 * digit c2 + digit c3)%nat
                              then Py.Raise Py.ReError
                              else ps ← template None r3;
                                   Py.Ok (Lit (chr (64 * digit c1 + 8 * digit c2
                                                    + digit c3)) :: ps)
                            else Py.Raise Py.ReError
                        | EmptyString => Py.Raise Py.ReError
                        end
                      else if (digit c1 =? 1)%nat
                           then ps ← template None r1; Py.Ok (Group 1 :: ps)
                           else Py.Raise Py.ReError
                  | EmptyString =>
                      if (digit c1 =? 1)%nat then Py.Ok [Group 1]
                      else Py.Raise Py.ReError
                  end
                else
                  match (if Ascii.eqb c1 "a" then Some 7
                         else if Ascii.eqb c1 "b" then Some 8
                         else if Ascii.eqb c1 "f" then Some 12
                         else if Ascii.eqb c1 "n" then Some 10
                         else if Ascii.eqb c1 "r" then Some 13
                         else if Ascii.eqb c1 "t" then Some 9
                         else if Ascii.eqb c1 "v" then Some 11
                         else if Ascii.eqb c1 "\" then Some 92
                         else None)%nat with
                  | Some n => ps ← template None r1; Py.Ok (Lit (chr n) :: ps)
                  | None =>
                      if is_ascii_letter c1 then Py.Raise Py.ReError
                      else ps ← template None r1;
                           Py.Ok (Lit (String c (String c1 "")) :: ps)
                  end
            end
      end
  end.

(** The text that replaces a match whose text is [g0] and whose group 1
    is [g1]. *)
Fixpoint fill (ps : list part) (g0 g1 : string) : string :=
  match ps with
  | [] => ""
  | Lit s :: ps' => s +:+ fill ps' g0 g1
  | Group 0 :: ps' => g0 +:+ fill ps' g0 g1
  | Group _ :: ps' => g1 +:+ fill ps' g0 g1
  end.

(** [rf"{{% static '{target_app}/images/\g<1>' %}}"] *)
Definition template_text (target_app : string) : string :=
  "{% static '" +:+ target_app +:+ "/images/\g<1>' %}".

(** What the template expands to for a match whose group 1 is [g] when
    the app name has no backslash. *)
Definition expand (target_app g : string) : string :=
  "{% static '" +:+ target_app +:+ "/images/" +:+ g +:+ "' %}".

(** The scan of [re.sub]: matches are taken leftmost first and do not
    overlap, and each is replaced by [e] of its group 1.  [skip] counts
    the characters of the last match that are still to be passed over. *)
Fixpoint scan (e : string → string) (skip : nat) (s : string) : string :=
  match s with
  | EmptyString => ""
  | String c s' =>
      match skip with
      | S k => scan e k s'
      | O =>
          match match_here s with
          | Some g => e g +:+ scan e (6 + String.length g) s'
          | None => String c (scan e 0 s')
          end
      end
  end.

(** [re.sub(r"images/([^ ]+)", rf"{{% static '{target_app}/images/\g<1>' %}}", s)] *)
Definition sub_images (target_app s : string) : Py.result string :=
  ps ← template None (template_text target_app);
  Py.Ok (scan (λ g, fill ps ("images/" +:+ g) g) 0 s).

(** An app name that [re.sub] reads literally inside the template. *)
Fixpoint no_backslash (s : string) : bool :=
  match s with
  | EmptyString => true
  | String c s' => negb (Ascii.eqb c "\") && no_backslash s'
  end.

End Re.

(* ===================================================================== *)
(** * The parse tree and the BeautifulSoup calls *)
(* ===================================================================== *)

Module Soup.
Import Py.

(** The attributes of a tag, in the order the tag carries them. *)
Abbreviation attrs := (list (string * string)).

(** A node of the tree: a string, or a tag with its name, attributes and
    [contents].  A document (the [BeautifulSoup] object) is the list of
    its top-level nodes. *)
Inductive node :=
  | Text (s : string)
  | Tag (name : string) (a : attrs) (contents : list node).

Abbreviation soup := (list node).

(** [tag.get(key)] *)
Fixpoint get (key : string) (a : attrs) : option string :=
  match a with
  | [] => None
  | (k, v) :: a' => if String.eqb k key then Some v else get key a'
  end.

(** [tag[key] = value]: an attribute that is there keeps its place, a
    new one goes last. *)
Fixpoint set (key value : string) (a : attrs) : attrs :=
  match a with
  | [] => [(key, value)]
  | (k, v) :: a' =>
      if String.eqb k key then (k, value) :: a' else (k, v) :: set key value a'
  end.

(** [tag.insert(position, new_child)] on the [contents] of the tag.
    BeautifulSoup clips the position to the length, reads the sibling
    before the position unless the position is 0, and then calls
    [contents.insert]. *)
Definition insert (position : Z) (new_child : node) (contents : list node)
  : result (list node) :=
  let position := Z.min position (Z.of_nat (length contents)) in
  if (position =? 0)%Z then Ok (new_child :: contents)
  else match index contents (position - 1) with
       | Some _ => Ok (list_insert position new_child contents)
       | None => Raise IndexError
       end.

(** [tag.append(new_child)] *)
Definition append (new_child : node) (contents : list node) : list node :=
  contents ++ [new_child].

(** What the body of a [for tag in soup.find_all(...)] loop does to the
    tag it visits: from the name, attributes and contents of the tag to
    its new attributes and contents. *)
Definition body := string → attrs → list node → result (attrs * list node).

(** A loop body that only writes attributes. *)
Definition on_attrs (f : attrs → result attrs) : body :=
  fun _ a cs => a' ← f a; Ok (a', cs).

(** [for tag in soup.find_all(...): body]: the tags that match are those
    of the tree as it is when the loop starts, and the body runs once on
    each.  The bodies of the script read the tag's own name and attributes
    and insert strings into its own contents; they neither add nor remove
    tags.  The loop is therefore a map over the tree; the body is applied
    to a tag once the tags below it are done, which gives the same tree
    and the same exception as the order of the loop, since a body looks at
    nothing below the tag but the length of its contents and all bodies of
    one loop raise the same exception. *)
Fixpoint for_each (sel : string → attrs → bool) (f : body) (n : node)
  : result node :=
  match n with
  | Text s => Ok (Text s)
  | Tag nm a cs =>
      cs' ← mapM (for_each sel f) cs;
      if sel nm a then '(a', cs'') ← f nm a cs'; Ok (Tag nm a' cs'')
      else Ok (Tag nm a cs')
  end.

Definition for_each_in (sel : string → attrs → bool) (f : body) (d : soup)
  : result soup :=
  mapM (for_each sel f) d.

(** The tags below the nodes of [d] that match, in document order:
    [soup.find_all(...)]. *)
Fixpoint find_all_node (sel : string → attrs → bool) (n : node) : list node :=
  match n with
  | Text _ => []
  | Tag nm a cs =>
      (if sel nm a then [n] else []) ++ flat_map (find_all_node sel) cs
  end.

Definition find_all (sel : string → attrs → bool) (d : soup) : list node :=
  flat_map (find_all_node sel) d.

(** [soup.find(name)]: the first match in document order, or [None]. *)
Definition find (sel : string → attrs → bool) (d : soup) : option node :=
  head (find_all sel d).

(** Selectors. *)
Definition named (nm : string) : string → attrs → bool :=
  fun n _ => String.eqb n nm.

(** A call on the contents of the first tag that matches, made through
    the reference [soup.find] returned.  [None]: no tag matches. *)
Definition first_in {A} (f : A → option (result A))
  : list A → option (result (list A)) :=
  fix go l :=
    match l with
    | [] => None
    | x :: l' =>
        match f x with
        | Some r => Some (x' ← r; Ok (x' :: l'))
        | None =>
            match go l' with
            | Some r => Some (l'' ← r; Ok (x :: l''))
            | None => None
            end
        end
    end.

Fixpoint on_first (sel : string → attrs → bool)
    (g : list node → result (list node)) (n : node) : option (result node) :=
  match n with
  | Text _ => None
  | Tag nm a cs =>
      if sel nm a then Some (cs' ← g cs; Ok (Tag nm a cs'))
      else match first_in (on_first sel g) cs with
           | Some r => Some (cs' ← r; Ok (Tag nm a cs'))
           | None => None
           end
  end.

(** [x = soup.find(...); x.<call>]: an attribute error when [find]
    returned [None]. *)
Definition with_first (sel : string → attrs → bool)
    (g : list node → result (list node)) (d : soup) : result soup :=
  match first_in (on_first sel g) d with
  | Some r => r
  | None => Raise AttributeError
  end.

End Soup.

(* ===================================================================== *)
(** * The markup rewriter: [WebflowImporter.update_html] on a parse tree *)
(* ===================================================================== *)

Module Rewriter.
Import Py Soup.

(** The script that [update_html] appends to the body. *)
Definition make_forms_async : string := "
    // Add native form submission support for Webflow forms. This makes all forms asynchronous.
    async function submitForm(event, formElement) {
        /*
        We use this function to make static html forms submit data asynchronously.
        */
        event.preventDefault();

        const formData = new FormData(formElement);
        const response = await fetch(formElement.action, { method: formElement.method, body: formData });

        if (response.ok) {
            formElement.style.display = 'none';
            const formDoneElement = formElement.parentElement.querySelector('.w-form-done');
            if (formDoneElement) {
                formDoneElement.style.display = 'block';
            }
        } else {
            const formFailElement = formElement.parentElement.querySelector('.w-form-fail');
            if (formFailElement) {
                formFailElement.style.display = 'block';
            }
        }
    }

    const forms = document.querySelectorAll('form');
    forms.forEach(form => form.addEventListener('submit', event => submitForm(event, form)));
".

(** [f"{{% static '{target_app}/{value}' %}}"] *)
Definition static_ref (target_app : string) (value : option string) : string :=
  "{% static '" +:+ target_app +:+ "/" +:+ str value +:+ "' %}".

(** Body of the loop over [soup.find_all('link')]. *)
Definition update_link (target_app : string) (tag : attrs) : result attrs :=
  b ← startswith (get "href" tag) "css";
  let tag := if b : bool then set "href" (static_ref target_app (get "href" tag)) tag
             else tag in
  b ← startswith (get "href" tag) "images";
  Ok (if b : bool then set "href" (static_ref target_app (get "href" tag)) tag
      else tag).

(** Body of the loop over [soup.find_all('img')]. *)
Definition update_img (target_app : string) (tag : attrs) : result attrs :=
  b ← startswith (get "src" tag) "images";
  let tag := if b : bool then set "src" (static_ref target_app (get "src" tag)) tag
             else tag in
  if String.prefix "images" (default "" (get "srcset" tag))
  then new_srcset ← Re.sub_images target_app (default "" (get "srcset" tag));
       Ok (set "srcset" new_srcset tag)
  else Ok tag.

(** Body of the loop over [soup.find_all('script')]. *)
Definition update_script (target_app : string) (tag : attrs) : result attrs :=
  let src := get "src" tag in
  b ← (if truthy src then startswith src "js" else Ok false);
  Ok (if b : bool then set "src" (static_ref target_app (get "src" tag)) tag
      else tag).

(** [soup.find_all('div', {'data-animation-type': 'lottie'})] *)
Definition is_lottie (nm : string) (a : attrs) : bool :=
  String.eqb nm "div" &&
  match get "data-animation-type" a with
  | Some v => String.eqb v "lottie"
  | None => false
  end.

(** Body of the loop over the lottie containers. *)
Definition update_lottie (target_app : string) (tag : attrs) : result attrs :=
  let data_src := get "data-src" tag in
  b ← (if truthy data_src then startswith data_src "documents" else Ok false);
  Ok (if b : bool
      then set "data-src" (static_ref target_app (get "data-src" tag)) tag
      else tag).

(** [soup.find_all(['div', 'img', 'li', 'ul'], {'data-for': True})] *)
Definition has_data_for (nm : string) (a : attrs) : bool :=
  (String.eqb nm "div" || String.eqb nm "img" || String.eqb nm "li"
   || String.eqb nm "ul")
  && bool_decide (is_Some (get "data-for" a)).

Definition for_open (for_loop_data : string) : string :=
  "{% for " +:+ for_loop_data +:+ " %}".
Definition endfor : string := "{% endfor %}".
Definition variable (for_loop_data : string) : string :=
  "{{ " +:+ for_loop_data +:+ " }}".

(** Body of the loop over the tags with a [data-for] attribute. *)
Definition convert_data_for : body := fun name tag contents =>
  let for_loop_data := get "data-for" tag in
  pieces ← split_space for_loop_data;
  if (1 <? length pieces)%nat then
    let dj_forloop_tag := for_open (str for_loop_data) in
    contents ← insert 0 (Text dj_forloop_tag) contents;
    contents ← insert (-1) (Text endfor) contents;
    Ok (tag, contents)
  else if String.eqb name "img" then
    Ok (set "src" (variable (str for_loop_data)) tag, contents)
  else
    let dj_variable := variable (str for_loop_data) in
    contents ← insert 0 (Text dj_variable) contents;
    Ok (tag, contents).

Definition static_template_tag : string := "{% load static %}".
Definition csrf_tag : string := "{% csrf_token %}".

(** Body of the loop over [soup.find_all('form')]. *)
Definition add_csrf : body := fun _ tag contents =>
  contents ← insert 0 (Text csrf_tag) contents;
  Ok (tag, contents).

(** [script_tag = soup.new_tag('script'); script_tag.append(make_forms_async)] *)
Definition script_tag : node := Tag "script" [] (append (Text make_forms_async) []).

(** The passes of [update_html], one definition per loop or statement
    group of the source. *)
Definition links_pass (target_app : string) : soup → result soup :=
  for_each_in (named "link") (on_attrs (update_link target_app)).
Definition imgs_pass (target_app : string) : soup → result soup :=
  for_each_in (named "img") (on_attrs (update_img target_app)).
Definition scripts_pass (target_app : string) : soup → result soup :=
  for_each_in (named "script") (on_attrs (update_script target_app)).
Definition lottie_pass (target_app : string) : soup → result soup :=
  for_each_in is_lottie (on_attrs (update_lottie target_app)).
Definition data_for_pass : soup → result soup :=
  for_each_in has_data_for convert_data_for.
Definition load_static_pass : soup → result soup :=
  with_first (named "html") (insert 0 (Text static_template_tag)).
Definition csrf_pass : soup → result soup :=
  for_each_in (named "form") add_csrf.
Definition async_pass : soup → result soup :=
  with_first (named "body") (fun contents => Ok (append script_tag contents)).

(** [update_html] between reading the file and writing it back. *)
Definition rewrite (target_app : string) (d : soup) : result soup :=
  d ← links_pass target_app d;
  d ← imgs_pass target_app d;
  d ← scripts_pass target_app d;
  d ← lottie_pass target_app d;
  d ← data_for_pass d;
  d ← load_static_pass d;
  d ← csrf_pass d;
  async_pass d.

End Rewriter.


(* ===================================================================== *)
(** * The directory tree and the [os] calls *)
(* ===================================================================== *)

Module Fs.
Import Py Soup.

(** A path is the list of its components, read from the directory the
    script is run in; the components are names of entries, not [.] or
    [..]. *)
Abbreviation path := (list string).

(** The components of a path written with slashes, as the system walks
    them: an empty component (a doubled or trailing slash) and [.] lead
    nowhere else and do not count. *)
Definition parse (s : string) : path :=
  filter (λ c, c ≠ "" ∧ c ≠ ".") (split_chr "/" s).

(** A path that the tree can hold: it is not empty, it is read from the
    directory the script runs in, not from the root, and it has no
    component [..]. *)
Definition plain (s : string) : bool :=
  negb (String.eqb s "") && negb (String.prefix "/" s)
  && forallb (λ c, negb (String.eqb c "..")) (split_chr "/" s).

(** A file is kept as the tree that [html.parser] reads from it; a
    directory maps names to entries.  The tree is one file system below
    the directory the script runs in, with files and directories only:
    no links, no permissions, nothing else at work on it. *)
Inductive entry :=
  | File (doc : soup)
  | Dir (es : gmap string entry).

(** The entry at a path, if any. *)
Fixpoint lookup (p : path) (e : entry) : option entry :=
  match p with
  | [] => Some e
  | n :: p' =>
      match e with
      | Dir m => m !! n ≫= lookup p'
      | File _ => None
      end
  end.

(** The same with the error the system reports. *)
Fixpoint stat (p : path) (e : entry) : result entry :=
  match p with
  | [] => Ok e
  | n :: p' =>
      match e with
      | Dir m =>
          match m !! n with
          | Some c => stat p' c
          | None => Raise FileNotFoundError
          end
      | File _ => Raise NotADirectoryError
      end
  end.

(** Rewrite the slot of the last component of [p] in its directory:
    [f] gets what is there and says what is there afterwards.  Nothing
    happens when the directory that holds the slot is missing. *)
Fixpoint palter (f : option entry → option entry) (p : path) (e : entry)
  : entry :=
  match p with
  | [] => e
  | n :: p' =>
      match e with
      | Dir m =>
          match p' with
          | [] => Dir (partial_alter f n m)
          | _ :: _ => Dir (alter (palter f p') n m)
          end
      | File _ => e
      end
  end.

Definition remove (p : path) : entry → entry := palter (λ _, None) p.
Definition put (p : path) (x : entry) : entry → entry := palter (λ _, Some x) p.

(** The path of the directory that holds [p]. *)
Definition parent (p : path) : path := removelast p.

(** Two paths part ways: neither lies on the other. *)
Fixpoint diverge (p q : path) : bool :=
  match p, q with
  | a :: p', b :: q' => if String.eqb a b then diverge p' q' else true
  | _, _ => false
  end.

(** [os.makedirs(p, exist_ok=True)] *)
Fixpoint makedirs (p : path) (e : entry) : result entry :=
  match p with
  | [] =>
      match e with
      | Dir _ => Ok e
      | File _ => Raise FileExistsError
      end
  | n :: p' =>
      match e with
      | Dir m =>
          c ← makedirs p' (default (Dir ∅) (m !! n));
          Ok (Dir (<[n := c]> m))
      | File _ => Raise NotADirectoryError
      end
  end.

(** The names in a directory. *)
Definition names (m : gmap string entry) : list string := (map_to_list m).*1.

(** [os.listdir(p)] *)
Definition listdir (p : path) (e : entry) : result (list string) :=
  x ← stat p e;
  match x with
  | Dir m => Ok (names m)
  | File _ => Raise NotADirectoryError
  end.

(** [os.rename(src, dst)] with the checks of a POSIX system: a file
    replaces a file, a directory replaces an empty directory. *)
Definition rename (src dst : path) (e : entry) : result entry :=
  x ← stat src e;
  if decide (src = dst) then Ok e
  else if decide (src `prefix_of` dst) then Raise OSError
  else
    d ← stat (parent dst) e;
    match d with
    | File _ => Raise NotADirectoryError
    | Dir _ =>
        match lookup dst e, x with
        | Some (Dir m), Dir _ =>
            if decide (m = ∅) then Ok (put dst x (remove src e))
            else Raise OSError
        | Some (Dir _), File _ => Raise IsADirectoryError
        | Some (File _), Dir _ => Raise NotADirectoryError
        | _, _ => Ok (put dst x (remove src e))
        end
    end.

(** [with open(p, 'r') as f: BeautifulSoup(f, 'html.parser')] *)
Definition read (p : path) (e : entry) : result soup :=
  x ← stat p e;
  match x with
  | File d => Ok d
  | Dir _ => Raise IsADirectoryError
  end.

(** [with open(p, 'w') as f: f.write(text)], for a text that
    [html.parser] reads as the tree [d]. *)
Definition write (p : path) (d : soup) (e : entry) : result entry :=
  x ← stat (parent p) e;
  match x with
  | File _ => Raise NotADirectoryError
  | Dir _ =>
      match lookup p e with
      | Some (Dir _) => Raise IsADirectoryError
      | _ => Ok (put p (File d) e)
      end
  end.

End Fs.

(* ===================================================================== *)
(** * [WebflowImporter] and the phases of the script *)
(* ===================================================================== *)

Module Importer.
Import Py Soup Fs.

(** The fields of a [WebflowImporter]. *)
Record importer := {
  html_paths : list path;
  static_files : gmap string (list string);
}.

(** What a run acts on: the directory tree, the importer object and the
    lines written to standard output by the two movers.  (The progress
    lines of [update_html] repeat values computed here and are left
    out.) *)
Record world := {
  fs : entry;
  self : importer;
  stdout : list string;
}.

(** [WebflowImporter()] *)
Definition init : importer := {|
  html_paths := [];
  static_files := {[ "js" := []; "css" := []; "images" := []; "documents" := [] ]};
|}.

(** A statement: it changes the world and returns or raises.  When it
    raises, the world is the one reached at that point. *)
Definition M (A : Type) : Type := world → world * result A.

#[global] Instance M_ret : MRet M := λ A a w, (w, Ok a).
#[global] Instance M_bind : MBind M := λ A B k m w,
  match m w with
  | (w', Ok a) => k a w'
  | (w', Raise e) => (w', Raise e)
  end.

(** A call of [os] that changes the tree. *)
Definition on_fs (f : entry → result entry) : M unit := λ w,
  match f (fs w) with
  | Ok e => ({| fs := e; self := self w; stdout := stdout w |}, Ok ())
  | Raise x => (w, Raise x)
  end.

(** A call that reads the tree. *)
Definition of_fs {A} (f : entry → result A) : M A := λ w, (w, f (fs w)).

(** [sys.stdout.write(line)] *)
Definition print (line : string) : M unit := λ w,
  ({| fs := fs w; self := self w; stdout := stdout w ++ [line] |}, Ok ()).

(** [self.static_files[key].append(file)]: a key error when the key is
    not one of the dictionary. *)
Definition record_static (key file : string) : M unit := λ w,
  match static_files (self w) !! key with
  | Some l =>
      ({| fs := fs w;
          self := {| html_paths := html_paths (self w);
                     static_files := <[key := l ++ [file]]> (static_files (self w)) |};
          stdout := stdout w |}, Ok ())
  | None => (w, Raise KeyError)
  end.

(** [self.html_paths.append(p)] *)
Definition record_html (p : path) : M unit := λ w,
  ({| fs := fs w;
      self := {| html_paths := html_paths (self w) ++ [p];
                 static_files := static_files (self w) |};
      stdout := stdout w |}, Ok ()).

(** [try: body except FileNotFoundError: handler] *)
Definition try_except_FileNotFoundError {A} (body handler : M A) : M A := λ w,
  match body w with
  | (w', Raise FileNotFoundError) => handler w'
  | r => r
  end.

(** [for x in l: body x] *)
Fixpoint for_ {A} (l : list A) (body : A → M unit) : M unit :=
  match l with
  | [] => mret ()
  | x :: l' => body x ≫= λ _, for_ l' body
  end.

(** [f"{target_app}/static/{target_app}/{static_file_type}/"] *)
Definition dest_static_dir (target_app static_file_type : string) : string :=
  target_app +:+ "/static/" +:+ target_app +:+ "/" +:+ static_file_type +:+ "/".

(** [work_dir / static_file_type] *)
Definition source_static_dir (work_dir : path) (static_file_type : string)
  : path :=
  work_dir ++ parse static_file_type.

(** [os.path.join(dir, file)] for a name returned by [os.listdir].  In
    the lines that are printed the joined path is the text of the
    directory, which ends with a slash in the script, and the name. *)
Definition join (dir : path) (file : string) : path := dir ++ [file].

Definition newline : string := String (ascii_of_nat 10) "".

(** [f'+ Moved {static_file_type} ({file} to {file_dest})\n'] *)
Definition moved_notice (static_file_type file file_dest : string) : string :=
  "+ Moved " +:+ static_file_type +:+ " (" +:+ file +:+ " to " +:+ file_dest
  +:+ ")" +:+ newline.

(** [f'No {static_file_type} files found. Continuing.\n'] *)
Definition skipped_notice (static_file_type : string) : string :=
  "No " +:+ static_file_type +:+ " files found. Continuing." +:+ newline.

(** The body of the loop of [move_static_file]. *)
Definition move_one (static_file_type : string) (source : path) (dest : string)
    (file : string) : M unit :=
  let file_src := join source file in
  let file_dest := join (parse dest) file in
  on_fs (rename file_src file_dest) ≫= λ _,
  print (moved_notice static_file_type file (dest +:+ file)) ≫= λ _,
  record_static static_file_type file.

Definition move_static_file (work_dir : path) (target_app : string)
    (static_file_type : string) : M unit :=
  let dest := dest_static_dir target_app static_file_type in
  on_fs (makedirs (parse dest)) ≫= λ _,
  let source := source_static_dir work_dir static_file_type in
  try_except_FileNotFoundError
    (files ← of_fs (listdir source);
     for_ files (move_one static_file_type source dest))
    (print (skipped_notice static_file_type)).

(** [file.endswith('.html')] *)
Definition endswith_html (file : string) : bool :=
  let n := String.length file in
  (5 <=? n)%nat && String.eqb (String.substring (n - 5) 5 file) ".html".

Definition move_html_files (work_dir : path) (target_app : string) : M unit :=
  let dest := target_app +:+ "/templates/" in
  on_fs (makedirs (parse dest)) ≫= λ _,
  files ← of_fs (listdir work_dir);
  for_ files (λ file,
    if endswith_html file then
      let file_src := join work_dir file in
      let file_dest := join (parse dest) file in
      on_fs (rename file_src file_dest) ≫= λ _,
      print (moved_notice "html" file (dest +:+ file)) ≫= λ _,
      record_html file_dest
    else mret ()).

Section Rewriting.

(** [update_html] does not write the text it read with the changes made:
    it writes [soup.prettify(formatter=HTMLFormatter(indent=4))], which
    puts every node on a line of its own, indented.  [reread d] is the
    tree that [html.parser] reads from the text written for the tree
    [d]; nothing is assumed of it. *)
Variable reread : soup → soup.

(** [update_html(html_path, target_app)]: read, rewrite, write back. *)
Definition update_html (html_path : path) (target_app : string) : M unit :=
  d ← of_fs (read html_path);
  d' ← of_fs (λ _, Rewriter.rewrite target_app d);
  on_fs (write html_path (reread d')).

Definition update_htmls (target_app : string) : M unit := λ w,
  for_ (html_paths (self w)) (λ html_path, update_html html_path target_app) w.

(** The phases of the script between unpacking the archive and trashing
    the working folder. *)
Definition run (working_folder : path) (target_app : string) : M unit :=
  move_static_file working_folder target_app "js" ≫= λ _,
  move_static_file working_folder target_app "css" ≫= λ _,
  move_static_file working_folder target_app "images" ≫= λ _,
  move_static_file working_folder target_app "documents" ≫= λ _,
  move_html_files working_folder target_app ≫= λ _,
  update_htmls target_app.

End Rewriting.

End Importer.


(* ===================================================================== *)
(** * Notions used to state the properties *)
(* ===================================================================== *)

Module Spec.
Import Py Soup.

(** All tags below a node, the node first, in document order. *)
Fixpoint tags_node (n : node) : list node :=
  match n with
  | Text _ => []
  | Tag _ _ cs => n :: flat_map tags_node cs
  end.

(** All tags of a document, in document order. *)
Definition tags (d : soup) : list node := flat_map tags_node d.

(** What a list of children shows of its strings: the text of a string,
    nothing of a tag. *)
Definition text_of (n : node) : option string :=
  match n with
  | Text s => Some s
  | Tag _ _ _ => None
  end.
Definition shape (cs : list node) : list (option string) := map text_of cs.

(** A selector applied to a node. *)
Definition matches (sel : string → attrs → bool) (n : node) : bool :=
  match n with
  | Text _ => false
  | Tag nm a _ => sel nm a
  end.

(** A property of the name, attributes and child strings of every tag
    of a document. *)
Definition holds (Q : string → attrs → list (option string) → Prop) (n : node)
  : Prop :=
  match n with
  | Text _ => True
  | Tag nm a cs => Q nm a (shape cs)
  end.
Definition All (Q : string → attrs → list (option string) → Prop) (d : soup)
  : Prop :=
  Forall (holds Q) (tags d).

(** What one loop does to one tag: its children are done first
    ([cs0]), then the body runs on the tag if it matches. *)
Definition step (sel : string → attrs → bool) (f : body) (t t' : node) : Prop :=
  ∃ nm a cs cs0 a' cs',
    t = Tag nm a cs ∧ t' = Tag nm a' cs' ∧
    mapM (for_each sel f) cs = Ok cs0 ∧
    (if sel nm a then f nm a cs0 = Ok (a', cs') else (a', cs') = (a, cs0)).

(** A loop body that adds no tag to the contents and removes none. *)
Definition adds_strings_only (f : body) : Prop :=
  ∀ nm a cs a' cs', f nm a cs = Ok (a', cs') → tags cs' = tags cs.

(** One call on the contents of the first tag that matches: the tag is
    reached through tags that do not match, past siblings without a
    match. *)
Inductive edit_first (sel : string → attrs → bool)
    (g : list node → result (list node)) : node → node → Prop :=
  | edit_here nm a cs cs' :
      sel nm a = true → g cs = Ok cs' →
      edit_first sel g (Tag nm a cs) (Tag nm a cs')
  | edit_below nm a l1 c c' l2 :
      sel nm a = false →
      filter (matches sel) (tags l1) = [] →
      edit_first sel g c c' →
      edit_first sel g (Tag nm a (l1 ++ c :: l2)) (Tag nm a (l1 ++ c' :: l2)).

(** How a tag can differ after [edit_first]: not at all, by the call on
    its own contents, or by the edit of one of its children. *)
Definition edited (sel : string → attrs → bool)
    (g : list node → result (list node)) (t t' : node) : Prop :=
  ∃ nm a cs cs', t = Tag nm a cs ∧ t' = Tag nm a cs' ∧
    (cs' = cs
     ∨ (sel nm a = true ∧ g cs = Ok cs')
     ∨ (∃ l1 c c' l2, cs = l1 ++ c :: l2 ∧ cs' = l1 ++ c' :: l2 ∧
          edit_first sel g c c')).

(** The character [c] occurs in [s]. *)
Fixpoint contains_chr (c : ascii) (s : string) : bool :=
  match s with
  | EmptyString => false
  | String c' s' => Ascii.eqb c' c || contains_chr c s'
  end.

(** A srcset value cut into pieces: the paths that follow [images/], and
    the text around them. *)
Inductive piece :=
  | Other (text : string)
  | Image (path : string).

(** The value the pieces come from, and the value with every path put
    into a static reference. *)
Fixpoint source_text (ps : list piece) : string :=
  match ps with
  | [] => ""
  | Other t :: ps' => t +:+ source_text ps'
  | Image g :: ps' => "images/" +:+ g +:+ source_text ps'
  end.
Fixpoint rewritten_text (target_app : string) (ps : list piece) : string :=
  match ps with
  | [] => ""
  | Other t :: ps' => t +:+ rewritten_text target_app ps'
  | Image g :: ps' => Re.expand target_app g +:+ rewritten_text target_app ps'
  end.

(** No [images/<path>] starts inside [t] when [rest] follows it. *)
Fixpoint no_match_in (t rest : string) : bool :=
  match t with
  | EmptyString => true
  | String c t' =>
      negb (bool_decide (is_Some (Re.match_here (t +:+ rest))))
      && no_match_in t' rest
  end.

(** The text after a path: nothing, or something that starts with a
    space. *)
Definition ends_path (rest : string) : bool :=
  match rest with
  | EmptyString => true
  | String c _ => Ascii.eqb c " "
  end.

(** The pieces are cut the way the pattern reads the value: a path is a
    run of characters other than the space, as long as can be, and not
    empty; the other text has no match in it. *)
Fixpoint well_split (ps : list piece) : bool :=
  match ps with
  | [] => true
  | Other t :: ps' => no_match_in t (source_text ps') && well_split ps'
  | Image g :: ps' =>
      negb (String.eqb g "") && negb (contains_chr " " g)
      && ends_path (source_text ps') && well_split ps'
  end.

(** The first html tag starts with [k] static-load directives, the
    first body tag ends with [k] copies of the form script, and every
    form starts with [k] csrf markers. *)
Definition html_loads (k : nat) (d : soup) : Prop :=
  ∃ a cs, find (named "html") d
          = Some (Tag "html" a (repeat (Text Rewriter.static_template_tag) k ++ cs)).
Definition body_scripts (k : nat) (d : soup) : Prop :=
  ∃ a cs, find (named "body") d
          = Some (Tag "body" a (cs ++ repeat Rewriter.script_tag k)).
Definition forms_csrf (k : nat) (d : soup) : Prop :=
  All (λ nm _ sh, nm = "form" →
         ∃ sh', sh = repeat (Some Rewriter.csrf_tag) k ++ sh') d.

(** What the image loop needs of the app name: when the srcset of an img
    begins with images, [re.sub] is called and reads the template. *)
Definition srcset_ready (target_app nm : string) (a : attrs)
    (_ : list (option string)) : Prop :=
  nm = "img" → String.prefix "images" (default "" (get "srcset" a)) = true →
  is_ok (Re.template None (Re.template_text target_app)) = true.

(** What the passes need of a tag to go through: a link has an href, an
    img has a src, and a tag whose data-for value has a space has a
    child. *)
Definition passable (nm : string) (a : attrs) (sh : list (option string))
  : Prop :=
  (nm = "link" → is_Some (get "href" a)) ∧
  (nm = "img" → is_Some (get "src" a)) ∧
  (∀ v, Rewriter.has_data_for nm a = true → get "data-for" a = Some v →
        contains_chr " " v = true → sh ≠ []).

(** A tag keeps its attributes, possibly with new values or with more
    of them, keeps its data-for value, and stays with a child if it has
    one. *)
Definition grows (a : attrs) (sh : list (option string))
    (a' : attrs) (sh' : list (option string)) : Prop :=
  (∀ k, is_Some (get k a) → is_Some (get k a')) ∧
  get "data-for" a' = get "data-for" a ∧
  (sh ≠ [] → sh' ≠ []).

(** A property of tags that growth keeps. *)
Definition closed (Q : string → attrs → list (option string) → Prop) : Prop :=
  ∀ nm a sh a' sh', grows a sh a' sh' → Q nm a sh → Q nm a' sh'.

(** What every loop of [update_html] keeps of a document: the marks on
    the first html and body tags, the closed properties of its tags, and
    the number of its tags. *)
Definition kept (d d' : soup) : Prop :=
  (∀ k, html_loads k d → html_loads k d') ∧
  (∀ k, body_scripts k d → body_scripts k d') ∧
  (∀ Q, closed Q → All Q d → All Q d') ∧
  length (tags d') = length (tags d).

End Spec.

(* ===================================================================== *)
(** * Sample documents and trees *)
(* ===================================================================== *)

Module Examples.
Import Py Soup Fs Importer.

(** A stand-in, for the examples, for the way through [prettify] and
    [html.parser]: every string on a line of its own. *)
Fixpoint reparsed_node (n : node) : node :=
  match n with
  | Text s => Text (newline +:+ s +:+ newline)
  | Tag nm a cs => Tag nm a (map reparsed_node cs)
  end.
Definition reparsed (d : soup) : soup := map reparsed_node d.

(** A page with a stylesheet, an image and a form. *)
Definition page : soup :=
  [Tag "html" []
     [Tag "head" [] [Tag "link" [("href", "css/a.css")] []];
      Tag "body" []
        [Tag "img" [("src", "images/b.png")] [];
         Tag "form" [] [Text "f"]]]].

(** A page with an img that has no src. *)
Definition broken_page : soup :=
  [Tag "html" [] [Tag "body" [] [Tag "img" [("alt", "x")] []]]].

(** An app with three templates that are moved but not yet rewritten. *)
Definition moved_site : world := {|
  fs := Dir {[ "web" := Dir {[ "templates" :=
          Dir {[ "a.html" := File page; "b.html" := File broken_page;
                 "c.html" := File page ]} ]} ]};
  self := {| html_paths := [["web"; "templates"; "a.html"];
                            ["web"; "templates"; "b.html"];
                            ["web"; "templates"; "c.html"]];
             static_files := static_files init |};
  stdout := [];
|}.

(** An unpacked export next to an empty app. *)
Definition unpacked : world := {|
  fs := Dir {[ "web" := Dir ∅;
               "webflow_export" :=
                 Dir {[ "css" := Dir {[ "a.css" := File [] ]};
                        "images" := Dir {[ "b.png" := File [];
                                           "icons" := Dir {[ "i.svg" := File [] ]} ]};
                        "index.html" := File page ]} ]};
  self := init;
  stdout := [];
|}.

(** The same for an app that already has images from an earlier
    import, and an export without images. *)
Definition reimport : world := {|
  fs := Dir {[ "web" := Dir {[ "static" := Dir {[ "web" :=
                 Dir {[ "images" := Dir {[ "old.png" := File [] ]} ]} ]} ]};
               "webflow_export" := Dir {[ "index.html" := File page ]} ]};
  self := init;
  stdout := [];
|}.

(** An app whose [static] is a file, next to an export with a
    stylesheet and without scripts. *)
Definition blocked : world := {|
  fs := Dir {[ "web" := Dir {[ "static" := File [] ]};
               "webflow_export" := Dir {[ "css" := Dir {[ "a.css" := File [] ]};
                                          "index.html" := File page ]} ]};
  self := init;
  stdout := [];
|}.

(** A second import: the app has a directory of icons from the first
    one, and the export comes with icons again. *)
Definition second_import : world := {|
  fs := Dir {[ "web" := Dir {[ "static" := Dir {[ "web" :=
                 Dir {[ "images" :=
                   Dir {[ "icons" := Dir {[ "old.svg" := File [] ]} ]} ]} ]} ]};
               "webflow_export" :=
                 Dir {[ "images" := Dir {[ "icons" := Dir {[ "i.svg" := File [] ]} ]};
                        "index.html" := File page ]} ]};
  self := init;
  stdout := [];
|}.

(** An archive unpacked inside the static directory of an app that is
    itself called [webflow_export]: the working folder is the directory
    [webflow_export/static/webflow_export], whose categories are the
    destinations. *)
Definition unpacked_in_place : world := {|
  fs := Dir {[ "webflow_export" := Dir {[ "static" := Dir {[ "webflow_export" :=
                 Dir {[ "images" := Dir {[ "b.png" := File [] ]};
                        "index.html" := File page ]} ]} ]} ]};
  self := init;
  stdout := [];
|}.

End Examples.

(* ===================================================================== *)
(** * Notions for the whole of [update_html] and for the html mover *)
(* ===================================================================== *)

Module Whole.
Import Py Soup Rewriter.

(** The attributes of a tag after the four loops that write static
    references: each loop acts on the tags it selects, in the order of
    the source. *)
Definition static_attrs (target_app nm : string) (a : attrs) : result attrs :=
  a ← (if named "link" nm a then update_link target_app a else Ok a);
  a ← (if named "img" nm a then update_img target_app a else Ok a);
  a ← (if named "script" nm a then update_script target_app a else Ok a);
  if is_lottie nm a then update_lottie target_app a else Ok a.

(** What the body of the [data-for] loop does to the attributes. *)
Definition data_for_attrs (nm : string) (a : attrs) : attrs :=
  match get "data-for" a with
  | Some v =>
      if Spec.contains_chr " " v then a
      else if String.eqb nm "img" then set "src" (variable v) a
      else a
  | None => a
  end.

(** The attributes of a tag after all passes of [update_html]. *)
Definition attrs_after (target_app nm : string) (a : attrs) : result attrs :=
  a ← static_attrs target_app nm a;
  Ok (if has_data_for nm a then data_for_attrs nm a else a).

(** The attributes that [update_html] writes. *)
Definition written : list string := ["href"; "src"; "srcset"; "data-src"].

(** From [a] to [a'] the attributes are the same, in the same order, and
    those that [update_html] does not write have the same values. *)
Definition only_values (a a' : attrs) : Prop :=
  a'.*1 = a.*1 ∧ ∀ k, k ∉ written → get k a' = get k a.

(** The four loops that put static references into attributes. *)
Definition static_passes (target_app : string) (d : soup) : result soup :=
  d ← links_pass target_app d;
  d ← imgs_pass target_app d;
  d ← scripts_pass target_app d;
  lottie_pass target_app d.

(** A srcset that begins with "images" begins with a path that the
    pattern matches. *)
Definition srcset_begins_with_path (nm : string) (a : attrs)
    (_ : list (option string)) : Prop :=
  nm = "img" →
  ∀ s, get "srcset" a = Some s → String.prefix "images" s = true →
       is_Some (Re.match_here s).

(** A page with every kind of tag that the passes look at. *)
Definition site_page : soup :=
  [Tag "html" [("lang", "en")]
     [Tag "head" []
        [Tag "link" [("rel", "stylesheet"); ("href", "css/a.css")] [];
         Tag "link" [("href", "https://fonts.example/f.css")] [];
         Tag "script" [("src", "js/site.js"); ("defer", "")] []];
      Tag "body" [("class", "page")]
        [Tag "img" [("src", "images/b.png"); ("alt", "b");
                    ("srcset", "images/b.png 1x, images/c.png 2x")] [];
         Tag "img" [("data-for", "item.photo"); ("src", "images/ph.png")] [];
         Tag "div" [("data-animation-type", "lottie");
                    ("data-src", "documents/anim.json")] [];
         Tag "div" [("data-src", "documents/plain.json")] [Text "plain"];
         Tag "ul" [("data-for", "item in items")]
           [Tag "li" [("data-for", "item.name")] []];
         Tag "script" [] [Text "f()"];
         Tag "form" [("action", "/send")] [Tag "input" [("name", "q")] []]]]].

(** The page after [rewrite]. *)
Definition site_page_rewritten : soup :=
  Eval vm_compute in
    match rewrite "web" site_page with
    | Ok d => d
    | Raise _ => []
    end.

(** The page after the four loops that write static references. *)
Definition site_page_static : soup :=
  Eval vm_compute in
    match static_passes "web" site_page with
    | Ok d => d
    | Raise _ => []
    end.

(** [f"{target_app}/templates/"] *)
Definition dest_html_dir (target_app : string) : string :=
  target_app +:+ "/templates/".

(** The body of the loop of [move_html_files]. *)
Definition move_html (work_dir : Fs.path) (dest : string) (file : string)
  : Importer.M unit :=
  if Importer.endswith_html file then
    Importer.on_fs (Fs.rename (Importer.join work_dir file)
                              (Importer.join (Fs.parse dest) file)) ≫= λ _,
    Importer.print (Importer.moved_notice "html" file (dest +:+ file)) ≫= λ _,
    Importer.record_html (Importer.join (Fs.parse dest) file)
  else mret ().

(** The names that [move_html_files] moves, the paths it records for
    them and the lines it prints. *)
Definition html_names (files : list string) : list string :=
  filter (λ file, Importer.endswith_html file = true) files.
Definition html_dests (dest : string) (files : list string) : list Fs.path :=
  (λ file, Importer.join (Fs.parse dest) file) <$> html_names files.
Definition html_notices (dest : string) (files : list string) : list string :=
  (λ file, Importer.moved_notice "html" file (dest +:+ file)) <$> html_names files.

(** What a mover of static files leaves as it is, whatever happens: the
    recorded html paths, the lists of the other categories, the keys of
    the dictionary and the lines already printed. *)
Definition static_frame (ty : string) (w w' : Importer.world) : Prop :=
  Importer.html_paths (Importer.self w') = Importer.html_paths (Importer.self w) ∧
  (∀ ty', ty' ≠ ty →
     Importer.static_files (Importer.self w') !! ty'
     = Importer.static_files (Importer.self w) !! ty') ∧
  dom (Importer.static_files (Importer.self w'))
  = dom (Importer.static_files (Importer.self w)) ∧
  Importer.stdout w `prefix_of` Importer.stdout w'.

(** The categories that the script moves. *)
Definition categories : list string := ["js"; "css"; "images"; "documents"].

(** No file stands on the path [p], as far as the path leads in [e]. *)
Fixpoint no_file_on (p : Fs.path) (e : Fs.entry) : bool :=
  match e with
  | Fs.File _ => false
  | Fs.Dir m =>
      match p with
      | [] => true
      | n :: p' =>
          match m !! n with
          | Some c => no_file_on p' c
          | None => true
          end
      end
  end.

(** What an entry can replace at the place it is renamed to: nothing, a
    file if it is a file, an empty directory if it is a directory. *)
Definition replaceable (x : Fs.entry) (there : option Fs.entry) : bool :=
  match there, x with
  | None, _ => true
  | Some (Fs.File _), Fs.File _ => true
  | Some (Fs.Dir m), Fs.Dir _ => bool_decide (m = ∅)
  | _, _ => false
  end.

(** [sub in s] *)
Fixpoint occurs (sub s : string) : bool :=
  String.prefix sub s
  || match s with
     | EmptyString => false
     | String _ s' => occurs sub s'
     end.


(** An app with two templates that are moved but not yet rewritten,
    next to a stylesheet. *)
Definition templates_site : Importer.world := {|
  Importer.fs := Fs.Dir {[ "web" := Fs.Dir {[
      "templates" := Fs.Dir {[ "index.html" := Fs.File site_page;
                               "about.html" := Fs.File Examples.page ]};
      "static" := Fs.Dir {[ "a.css" := Fs.File [] ]} ]} ]};
  Importer.self := {|
    Importer.html_paths := [["web"; "templates"; "index.html"];
                            ["web"; "templates"; "about.html"]];
    Importer.static_files := Importer.static_files Importer.init |};
  Importer.stdout := [];
|}.

End Whole.

(* ===================================================================== *)
(** * Facts about the tree operations *)
(* ===================================================================== *)

Section SoupFacts.
Import Py Soup Spec.

Lemma node_induction (P : node → Prop) :
  (∀ s, P (Text s)) →
  (∀ nm a cs, Forall P cs → P (Tag nm a cs)) →
  ∀ n, P n.
Proof.
  intros HT HG. fix IH 1. intros [s | nm a cs].
  - apply HT.
  - apply HG. induction cs as [| c cs IHcs]; constructor; [apply IH | apply IHcs].
Qed.

Lemma result_bind_Ok {A B} (r : result A) (k : A → result B) b :
  r ≫= k = Ok b ↔ ∃ a, r = Ok a ∧ k a = Ok b.
Proof.
  destruct r as [a | e]; simpl; split.
  - eauto.
  - intros (? & [= <-] & ?). done.
  - done.
  - intros (? & [=] & _).
Qed.

Lemma mapM_cons {A B} (f : A → result B) x l :
  mapM f (x :: l) = y ← f x; k ← mapM f l; Ok (y :: k).
Proof. reflexivity. Qed.

Lemma mapM_Ok {A B} (f : A → result B) l l' :
  mapM f l = Ok l' ↔ Forall2 (λ x y, f x = Ok y) l l'.
Proof.
  revert l'. induction l as [| x l IH]; intros l'.
  - simpl. split.
    + intros [= <-]. constructor.
    + intros H. inversion H. done.
  - rewrite mapM_cons. split.
    + intros H. apply result_bind_Ok in H as (y & Hy & H).
      apply result_bind_Ok in H as (k & Hk & [= <-]).
      constructor; [done | by apply IH].
    + intros H. inversion H as [| ? y ? k Hy Hk]; subst.
      apply IH in Hk. rewrite Hy; simpl. rewrite Hk. done.
Qed.

Lemma mapM_Raise {A B} (f : A → result B) l e :
  mapM f l = Raise e → ∃ x e', x ∈ l ∧ f x = Raise e'.
Proof.
  induction l as [| x l IH]; [done |].
  rewrite mapM_cons. destruct (f x) as [y | e'] eqn:Hx; simpl.
  - destruct (mapM f l) as [k | e''] eqn:Hl; simpl; [done |].
    intros He. destruct (IH He) as (x' & e3 & ? & ?).
    exists x', e3. split; [by right | done].
  - intros _. exists x, e'. split; [by left | done].
Qed.

Lemma tags_app d1 d2 : tags (d1 ++ d2) = tags d1 ++ tags d2.
Proof. apply flat_map_app. Qed.

Lemma tags_cons_Text s d : tags (Text s :: d) = tags d.
Proof. reflexivity. Qed.

Lemma tags_cons_Tag nm a cs d :
  tags (Tag nm a cs :: d) = Tag nm a cs :: tags cs ++ tags d.
Proof. reflexivity. Qed.

Lemma shape_app l1 l2 : shape (l1 ++ l2) = shape l1 ++ shape l2.
Proof. apply map_app. Qed.

Lemma find_all_tags sel d : find_all sel d = filter (matches sel) (tags d).
Proof.
  unfold find_all, tags.
  induction d as [| n d IH]; [done |].
  simpl. rewrite IH, filter_app. f_equal. clear IH.
  induction n as [s | nm a cs IHcs] using node_induction; [done |].
  simpl. rewrite filter_cons. simpl.
  destruct (sel nm a); simpl; [f_equal |];
    (induction IHcs as [| c cs Hc _ IH]; [done |];
     simpl; rewrite filter_app, Hc, IH; done).
Qed.

Lemma elem_of_tags_node t n : t ∈ tags_node n → ∃ nm a cs, t = Tag nm a cs.
Proof.
  revert t. induction n as [s | nm a cs IHcs] using node_induction; intros t.
  - simpl. by intros ?%elem_of_nil.
  - simpl. intros [-> | Hin]%elem_of_cons; [eauto |].
    apply list_elem_of_In, in_flat_map in Hin as (c & Hc & Hin).
    rewrite Forall_forall in IHcs.
    apply (IHcs c); [by apply list_elem_of_In | by apply list_elem_of_In].
Qed.

Lemma elem_of_tags t d : t ∈ tags d → ∃ nm a cs, t = Tag nm a cs.
Proof.
  intros Hin. apply list_elem_of_In, in_flat_map in Hin as (c & Hc & Hin).
  by apply (elem_of_tags_node t c), list_elem_of_In.
Qed.

(** Children that are done keep their strings in place. *)
Lemma for_each_shape sel f cs cs0 :
  mapM (for_each sel f) cs = Ok cs0 → shape cs0 = shape cs.
Proof.
  rewrite mapM_Ok. induction 1 as [| c c0 cs cs0 Hc _ IH]; [done |].
  simpl. f_equal; [| done].
  destruct c as [s | nm a l]; simpl in Hc.
  - by injection Hc as <-.
  - apply result_bind_Ok in Hc as (l' & _ & Hc).
    destruct (sel nm a).
    + apply result_bind_Ok in Hc as ([a' l''] & _ & [= <-]). done.
    + by injection Hc as <-.
Qed.

Lemma Forall2_flat_map {A B} (R : B → B → Prop) (g : A → list B) l l' :
  Forall2 (λ x y, Forall2 R (g x) (g y)) l l' →
  Forall2 R (flat_map g l) (flat_map g l').
Proof.
  induction 1; simpl; [constructor | by apply Forall2_app].
Qed.

Lemma Forall2_filter {A} (R : A → A → Prop) (p q : A → bool) l l' :
  (∀ x y, R x y → p x = q y) →
  Forall2 R l l' → Forall2 R (filter p l) (filter q l').
Proof.
  intros Hpq. induction 1 as [| x y l l' Hxy _ IH]; [constructor |].
  rewrite !filter_cons. rewrite <- (Hpq x y Hxy).
  destruct (p x); simpl; [by constructor | done].
Qed.

(** The tags of the tree after a loop are, one for one and in document
    order, the tags before it with the body applied. *)
Lemma for_each_tags sel f n n' :
  adds_strings_only f →
  for_each sel f n = Ok n' →
  Forall2 (step sel f) (tags_node n) (tags_node n').
Proof.
  intros Hf. revert n'.
  induction n as [s | nm a cs IHcs] using node_induction; intros n' Hn.
  - injection Hn as <-. constructor.
  - simpl in Hn. apply result_bind_Ok in Hn as (cs0 & Hcs & Hn).
    assert (Forall2 (step sel f) (tags cs) (tags cs0)) as Hbelow.
    { apply Forall2_flat_map. apply mapM_Ok in Hcs.
      clear Hn. induction Hcs as [| c c0 cs cs0 Hc _ IH]; [constructor |].
      inversion IHcs; subst. constructor; [auto | by apply IH]. }
    destruct (sel nm a) eqn:Hsel.
    + apply result_bind_Ok in Hn as ([a' cs'] & Hbody & [= <-]).
      simpl. constructor.
      * exists nm, a, cs, cs0, a', cs'. rewrite Hsel. done.
      * fold (tags cs) (tags cs'). by rewrite (Hf _ _ _ _ _ Hbody).
    + injection Hn as <-. simpl. constructor; [| done].
      exists nm, a, cs, cs0, a, cs0. rewrite Hsel. done.
Qed.

Lemma for_each_in_tags sel f d d' :
  adds_strings_only f →
  for_each_in sel f d = Ok d' →
  Forall2 (step sel f) (tags d) (tags d').
Proof.
  intros Hf Hd. apply Forall2_flat_map. apply mapM_Ok in Hd.
  induction Hd; constructor; [by apply for_each_tags | done].
Qed.

(** Every tag of the document goes through the loop. *)
Lemma for_each_in_elem sel f d d' t :
  adds_strings_only f →
  for_each_in sel f d = Ok d' →
  t ∈ tags d → ∃ t', t' ∈ tags d' ∧ step sel f t t'.
Proof.
  intros Hf Hd Ht. apply (for_each_in_tags _ _ _ _ Hf) in Hd.
  apply list_elem_of_lookup in Ht as [i Hi].
  destruct (Forall2_lookup_l _ _ _ _ _ Hd Hi) as (t' & Hi' & Hstep).
  exists t'. split; [by eapply list_elem_of_lookup_2 | done].
Qed.

(** A loop raises nothing when its body raises nothing on the tags that
    match, whatever tags are below them. *)
Lemma for_each_succeeds sel f n :
  (∀ nm a cs, Tag nm a cs ∈ tags_node n → sel nm a = true →
     ∀ cs0, shape cs0 = shape cs → ∃ r, f nm a cs0 = Ok r) →
  ∃ n', for_each sel f n = Ok n'.
Proof.
  induction n as [s | nm a cs IHcs] using node_induction; intros Hbody.
  - by exists (Text s).
  - assert (∃ cs0, mapM (for_each sel f) cs = Ok cs0) as [cs0 Hcs0].
    { assert (∀ nm' a' cs', Tag nm' a' cs' ∈ tags cs → sel nm' a' = true →
                ∀ cs0, shape cs0 = shape cs' → ∃ r, f nm' a' cs0 = Ok r) as Hsub.
      { intros nm' a' cs' Hin. apply Hbody. simpl. by right. }
      clear Hbody. revert Hsub.
      induction IHcs as [| c cs Hc _ IH]; intros Hsub; [by exists [] |].
      destruct Hc as [c0 Hc0].
      { intros nm' a' cs' Hin. apply Hsub.
        unfold tags. simpl. apply elem_of_app. by left. }
      destruct IH as [cs0 Hcs0].
      { intros nm' a' cs' Hin. apply Hsub.
        unfold tags. simpl. apply elem_of_app. by right. }
      exists (c0 :: cs0). rewrite mapM_cons, Hc0. simpl. by rewrite Hcs0. }
    simpl. rewrite Hcs0. simpl. destruct (sel nm a) eqn:Hsel; [| eauto].
    destruct (Hbody nm a cs) with (cs0 := cs0) as [[a' cs'] Hr].
    + simpl. by left.
    + done.
    + by eapply for_each_shape.
    + rewrite Hr. simpl. eauto.
Qed.

Lemma for_each_in_succeeds sel f d :
  (∀ nm a cs, Tag nm a cs ∈ tags d → sel nm a = true →
     ∀ cs0, shape cs0 = shape cs → ∃ r, f nm a cs0 = Ok r) →
  ∃ d', for_each_in sel f d = Ok d'.
Proof.
  unfold for_each_in. induction d as [| n d IH]; intros Hbody; [by exists [] |].
  destruct (for_each_succeeds sel f n) as [n' Hn].
  { intros nm a cs Hin. apply Hbody. unfold tags. simpl. apply elem_of_app. by left. }
  destruct IH as [d' Hd].
  { intros nm a cs Hin. apply Hbody. unfold tags. simpl. apply elem_of_app. by right. }
  exists (n' :: d'). rewrite mapM_cons, Hn. simpl. by rewrite Hd.
Qed.

Lemma first_in_cons {A} (f : A → option (result A)) x l :
  first_in f (x :: l) =
    match f x with
    | Some r => Some (x' ← r; Ok (x' :: l))
    | None =>
        match first_in f l with
        | Some r => Some (l'' ← r; Ok (x :: l''))
        | None => None
        end
    end.
Proof. reflexivity. Qed.

(** [on_first] finds nothing exactly when no tag matches. *)
Lemma on_first_None sel g n :
  on_first sel g n = None ↔ filter (matches sel) (tags_node n) = [].
Proof.
  induction n as [s | nm a cs IHcs] using node_induction; [done |].
  simpl. rewrite filter_cons. simpl. destruct (sel nm a); simpl; [done |].
  fold (tags cs).
  assert (first_in (on_first sel g) cs = None
          ↔ filter (matches sel) (tags cs) = []) as Hcs.
  { induction IHcs as [| c cs Hc _ IH]; [done |].
    rewrite first_in_cons. unfold tags. simpl. fold (tags cs).
    rewrite filter_app, app_nil. rewrite <- Hc, <- IH.
    destruct (on_first sel g c); [naive_solver |].
    destruct (first_in (on_first sel g) cs); naive_solver. }
  rewrite <- Hcs. destruct (first_in (on_first sel g) cs); naive_solver.
Qed.

Lemma first_in_on_first_None sel g d :
  first_in (on_first sel g) d = None ↔ filter (matches sel) (tags d) = [].
Proof.
  induction d as [| c d IH]; [done |].
  rewrite first_in_cons. unfold tags. simpl. fold (tags d).
  rewrite filter_app, app_nil. rewrite <- (on_first_None sel g c), <- IH.
  destruct (on_first sel g c); [naive_solver |].
  destruct (first_in (on_first sel g) d); naive_solver.
Qed.

(** What a list looks like around the node that [first_in] changes. *)
Lemma first_in_Some_Ok sel g d d' :
  Forall (λ c, ∀ c', on_first sel g c = Some (Ok c') → edit_first sel g c c') d →
  first_in (on_first sel g) d = Some (Ok d') →
  ∃ l1 c c' l2, d = l1 ++ c :: l2 ∧ d' = l1 ++ c' :: l2 ∧
    filter (matches sel) (tags l1) = [] ∧ edit_first sel g c c'.
Proof.
  intros Hall. revert d'. induction Hall as [| c d Hc _ IH]; intros d'; [done |].
  rewrite first_in_cons. destruct (on_first sel g c) as [r |] eqn:Hon.
  - intros [= Hr]. apply result_bind_Ok in Hr as (c' & -> & [= <-]).
    exists [], c, c', d. auto.
  - destruct (first_in (on_first sel g) d) as [r |]; [| done].
    intros [= Hr]. apply result_bind_Ok in Hr as (d0 & -> & [= <-]).
    destruct (IH d0 eq_refl) as (l1 & x & x' & l2 & -> & -> & Hl1 & Hx).
    exists (c :: l1), x, x', l2. repeat split; [| done].
    unfold tags. simpl. fold (tags l1). rewrite filter_app, Hl1.
    apply on_first_None in Hon. by rewrite Hon.
Qed.

Lemma on_first_Some_Ok sel g n n' :
  on_first sel g n = Some (Ok n') → edit_first sel g n n'.
Proof.
  revert n'. induction n as [s | nm a cs IHcs] using node_induction;
    intros n'; [done |].
  simpl. destruct (sel nm a) eqn:Hsel.
  - intros [= Hr]. apply result_bind_Ok in Hr as (cs' & Hg & [= <-]).
    by constructor.
  - destruct (first_in (on_first sel g) cs) as [r |] eqn:Hfirst; [| done].
    intros [= Hr]. apply result_bind_Ok in Hr as (cs' & -> & [= <-]).
    destruct (first_in_Some_Ok _ _ _ _ IHcs Hfirst)
      as (l1 & c & c' & l2 & -> & -> & Hl1 & Hc).
    by constructor.
Qed.

Lemma with_first_Ok sel g d d' :
  with_first sel g d = Ok d' →
  ∃ l1 c c' l2, d = l1 ++ c :: l2 ∧ d' = l1 ++ c' :: l2 ∧
    filter (matches sel) (tags l1) = [] ∧ edit_first sel g c c'.
Proof.
  unfold with_first.
  destruct (first_in (on_first sel g) d) as [r |] eqn:Hfirst; [| done].
  intros ->. eapply first_in_Some_Ok; [| done].
  apply Forall_forall. intros c _ c'. apply on_first_Some_Ok.
Qed.

(** No tag matches: the call is made on [None]. *)
Lemma with_first_missing sel g d :
  find sel d = None → with_first sel g d = Raise AttributeError.
Proof.
  unfold find, with_first. rewrite find_all_tags. intros Hnone.
  assert (filter (matches sel) (tags d) = []) as Hnil
    by (by destruct (filter (matches sel) (tags d))).
  apply (first_in_on_first_None sel g) in Hnil. by rewrite Hnil.
Qed.

(** A call that cannot fail goes through as soon as some tag matches. *)
Lemma on_first_total sel g n e :
  (∀ cs, ∃ cs', g cs = Ok cs') → on_first sel g n ≠ Some (Raise e).
Proof.
  intros Hg. induction n as [s | nm a cs IHcs] using node_induction; [done |].
  simpl. destruct (sel nm a).
  - destruct (Hg cs) as [cs' ->]. done.
  - assert (first_in (on_first sel g) cs ≠ Some (Raise e)) as Hcs.
    { induction IHcs as [| c cs Hc _ IH]; [done |].
      rewrite first_in_cons. destruct (on_first sel g c) as [[c' | e'] |].
      - done.
      - intros [= <-]. done.
      - destruct (first_in (on_first sel g) cs) as [[l | e'] |]; [done | | done].
        intros [= <-]. done. }
    destruct (first_in (on_first sel g) cs) as [[l | e'] |]; [done | | done].
    intros [= <-]. done.
Qed.

Lemma with_first_succeeds sel g d :
  (∀ cs, ∃ cs', g cs = Ok cs') →
  is_Some (find sel d) → ∃ d', with_first sel g d = Ok d'.
Proof.
  intros Hg [t Ht]. unfold find in Ht. rewrite find_all_tags in Ht.
  unfold with_first.
  destruct (first_in (on_first sel g) d) as [[d' | e] |] eqn:Hfirst.
  - eauto.
  - exfalso. revert Hfirst. clear Ht. induction d as [| c d IH]; [done |].
    rewrite first_in_cons. pose proof (on_first_total sel g c e Hg) as Hc.
    destruct (on_first sel g c) as [[c' | e'] |]; [done | | ].
    + intros [= <-]. done.
    + destruct (first_in (on_first sel g) d) as [[l | e'] |]; [done | | done].
      intros [= <-]. by apply IH.
  - apply first_in_on_first_None in Hfirst. by rewrite Hfirst in Ht.
Qed.

Lemma edit_first_is_tag sel g c c' :
  edit_first sel g c c' → ∃ nm a cs cs', c = Tag nm a cs ∧ c' = Tag nm a cs'.
Proof. destruct 1; eauto 10. Qed.

Lemma edit_first_shape sel g c c' l1 l2 :
  edit_first sel g c c' → shape (l1 ++ c' :: l2) = shape (l1 ++ c :: l2).
Proof.
  intros (nm & a & cs & cs' & -> & ->)%edit_first_is_tag.
  by rewrite !shape_app.
Qed.

Lemma edited_refl sel g l : Forall2 (edited sel g) (tags l) (tags l).
Proof.
  apply Forall2_same_length_lookup_2; [done |].
  intros i x y Hx Hy. assert (x = y) as <- by congruence.
  destruct (elem_of_tags x l) as (nm & a & cs & ->);
    [by eapply list_elem_of_lookup_2 |].
  exists nm, a, cs, cs. auto.
Qed.

Lemma Forall2_edited_filter sel g (p : node → bool) l :
  Forall2 (edited sel g) (filter p (tags l)) (filter p (tags l)).
Proof.
  pose proof (edited_refl sel g l) as H.
  induction (tags l) as [| x t IH]; [constructor |].
  inversion H; subst. rewrite filter_cons.
  destruct (p x); [constructor |]; auto.
Qed.

(** The tags that match another selector, before and after one edit,
    when the call adds and removes none of them. *)
Lemma edit_first_tags sel g sel2 c c' :
  (∀ cs cs', g cs = Ok cs' →
     filter (matches sel2) (tags cs') = filter (matches sel2) (tags cs)) →
  edit_first sel g c c' →
  Forall2 (edited sel g) (filter (matches sel2) (tags_node c))
                         (filter (matches sel2) (tags_node c')).
Proof.
  intros Hg. induction 1 as [nm a cs cs' Hsel Hcall | nm a l1 c c' l2 Hsel Hl1 Hc IH].
  - simpl. rewrite !filter_cons. simpl. fold (tags cs) (tags cs').
    rewrite (Hg _ _ Hcall).
    destruct (sel2 nm a); simpl.
    + constructor; [| apply Forall2_edited_filter].
      exists nm, a, cs, cs'. eauto 10.
    + apply Forall2_edited_filter.
  - simpl. rewrite !filter_cons. simpl.
    fold (tags (l1 ++ c :: l2)) (tags (l1 ++ c' :: l2)).
    rewrite !tags_app. unfold tags at 2 4. simpl.
    fold (tags l2). rewrite !filter_app.
    assert (Forall2 (edited sel g)
              (filter (matches sel2) (tags l1) ++
                 filter (matches sel2) (tags_node c) ++
                 filter (matches sel2) (tags l2))
              (filter (matches sel2) (tags l1) ++
                 filter (matches sel2) (tags_node c') ++
                 filter (matches sel2) (tags l2))) as Hrest.
    { repeat apply Forall2_app; auto using Forall2_edited_filter. }
    case_decide; [constructor |]; [| done | done].
    exists nm, a, (l1 ++ c :: l2), (l1 ++ c' :: l2).
    split; [done |]. split; [done |]. right. right. by exists l1, c, c', l2.
Qed.

Lemma with_first_tags sel g sel2 d d' :
  (∀ cs cs', g cs = Ok cs' →
     filter (matches sel2) (tags cs') = filter (matches sel2) (tags cs)) →
  with_first sel g d = Ok d' →
  Forall2 (edited sel g) (filter (matches sel2) (tags d))
                         (filter (matches sel2) (tags d')).
Proof.
  intros Hg (l1 & c & c' & l2 & -> & -> & _ & Hc)%with_first_Ok.
  rewrite !tags_app. unfold tags at 2 4. simpl. fold (tags l2).
  rewrite !filter_app.
  repeat apply Forall2_app; auto using Forall2_edited_filter.
  by apply edit_first_tags.
Qed.

(** A property of all tags that the call keeps where it is made is kept
    by the edit. *)
Lemma edit_first_All Q sel g c c' :
  (∀ nm a cs cs', sel nm a = true → g cs = Ok cs' →
     Q nm a (shape cs) → Forall (holds Q) (tags cs) →
     Q nm a (shape cs') ∧ Forall (holds Q) (tags cs')) →
  edit_first sel g c c' →
  Forall (holds Q) (tags_node c) → Forall (holds Q) (tags_node c').
Proof.
  intros Hg. induction 1 as [nm a cs cs' Hsel Hcall | nm a l1 c c' l2 Hsel Hl1 Hc IH].
  - simpl. fold (tags cs) (tags cs'). intros [Hq Hbelow]%Forall_cons.
    destruct (Hg _ _ _ _ Hsel Hcall Hq Hbelow). by constructor.
  - simpl. fold (tags (l1 ++ c :: l2)) (tags (l1 ++ c' :: l2)).
    rewrite !tags_app. unfold tags at 2 4. simpl. fold (tags l2).
    intros [Hq Hbelow]%Forall_cons.
    apply Forall_app in Hbelow as [H1 [H2 H3]%Forall_app].
    constructor.
    + simpl. by rewrite (edit_first_shape _ _ _ _ _ _ Hc).
    + repeat (apply Forall_app; split); auto.
Qed.

Lemma with_first_All Q sel g d d' :
  (∀ nm a cs cs', sel nm a = true → g cs = Ok cs' →
     Q nm a (shape cs) → Forall (holds Q) (tags cs) →
     Q nm a (shape cs') ∧ Forall (holds Q) (tags cs')) →
  with_first sel g d = Ok d' → All Q d → All Q d'.
Proof.
  intros Hg (l1 & c & c' & l2 & -> & -> & _ & Hc)%with_first_Ok.
  unfold All. rewrite !tags_app. unfold tags at 2 4. simpl. fold (tags l2).
  intros [H1 [H2 H3]%Forall_app]%Forall_app.
  repeat (apply Forall_app; split); auto.
  by eapply edit_first_All.
Qed.

(** A property of all tags across a loop. *)
Lemma for_each_in_All (Q Q' : string → attrs → list (option string) → Prop)
    sel f d d' :
  adds_strings_only f →
  (∀ nm a cs a' cs', sel nm a = true → f nm a cs = Ok (a', cs') →
     Q nm a (shape cs) → Q' nm a' (shape cs')) →
  (∀ nm a sh, sel nm a = false → Q nm a sh → Q' nm a sh) →
  for_each_in sel f d = Ok d' → All Q d → All Q' d'.
Proof.
  intros Hf Hsel Hnot Hd HQ. apply (for_each_in_tags _ _ _ _ Hf) in Hd.
  unfold All in *. revert HQ.
  induction Hd as [| t t' l l' Hstep _ IH]; [constructor |].
  intros [Ht Hl]%Forall_cons. constructor; [| auto].
  destruct Hstep as (nm & a & cs & cs0 & a' & cs' & -> & -> & Hcs & Hbody).
  simpl in *. rewrite <- (for_each_shape _ _ _ _ Hcs) in Ht.
  destruct (sel nm a) eqn:E.
  - eauto.
  - injection Hbody as -> ->. auto.
Qed.

(** [tag.insert(0, x)] puts [x] first. *)
Lemma insert_0 x cs : insert 0 x cs = Ok (x :: cs).
Proof.
  unfold insert. destruct (Z.min_spec 0 (Z.of_nat (length cs))) as [[_ ->] | [H ->]].
  - done.
  - assert (length cs = 0)%nat as ->%length_zero_iff_nil by lia. done.
Qed.

(** [tag.insert(-1, x)] puts [x] before the last child, and fails on a
    tag with fewer than two children. *)
Lemma insert_minus_1 x l y z :
  insert (-1) x (l ++ [y; z]) = Ok (l ++ [y; x; z]).
Proof.
  unfold insert. rewrite Z.min_l by lia.
  change (-1 =? 0)%Z with false. cbv iota.
  unfold index, list_insert. simpl. rewrite length_app. simpl.
  replace (-1 - 1 + Z.of_nat (length l + 2))%Z with (Z.of_nat (length l)) by lia.
  destruct (Z.ltb_spec (Z.of_nat (length l)) 0) as [? | _]; [lia |].
  rewrite Nat2Z.id.
  replace ((l ++ [y; z]) !! length l) with (Some y)
    by (symmetry; by apply list_lookup_middle).
  replace (Z.to_nat (0 `max` (-1 + Z.of_nat (length l + 2)))) with (length l + 1)%nat by lia.
  replace (l ++ [y; z]) with ((l ++ [y]) ++ [z]) by (by rewrite <- app_assoc).
  rewrite take_app_length', drop_app_length' by (rewrite length_app; simpl; lia).
  by rewrite <- app_assoc.
Qed.

Lemma insert_minus_1_short x y : insert (-1) x [y] = Raise IndexError.
Proof. reflexivity. Qed.

End SoupFacts.

(* ===================================================================== *)
(** * Facts about the loop bodies of [update_html] *)
(* ===================================================================== *)

Section RewriterFacts.
Import Py Soup Spec Rewriter.

Lemma eqb_true s : String.eqb s s = true.
Proof. apply String.eqb_refl. Qed.

Lemma get_set_eq k v a : get k (set k v a) = Some v.
Proof.
  induction a as [| [k' v'] a IH]; simpl.
  - by rewrite eqb_true.
  - destruct (String.eqb k' k) eqn:E; simpl; by rewrite E.
Qed.

Lemma get_set_ne k k' v a : k ≠ k' → get k' (set k v a) = get k' a.
Proof.
  intros Hne. induction a as [| [k0 v0] a IH]; simpl.
  - destruct (String.eqb_spec k k'); done.
  - destruct (String.eqb_spec k0 k) as [-> | Hk0]; simpl.
    + destruct (String.eqb_spec k k'); done.
    + by rewrite IH.
Qed.

(** [split] gives more than one piece exactly when the separator
    occurs. *)
Lemma split_chr_pieces sep s :
  split_chr sep s ≠ [] ∧
  (1 <? length (split_chr sep s))%nat = contains_chr sep s.
Proof.
  induction s as [| c s [Hne IH]]; [done |].
  simpl. destruct (Ascii.eqb c sep); simpl.
  - split; [done |]. destruct (split_chr sep s); done.
  - destruct (split_chr sep s) as [| h t]; done.
Qed.

(** A string that goes into the contents adds no tag. *)
Lemma insert_Text_tags pos s cs cs' :
  insert pos (Text s) cs = Ok cs' → tags cs' = tags cs.
Proof.
  unfold insert. destruct (_ =? 0)%Z; [by intros [= <-] |].
  destruct (index cs _); [| done]. intros [= <-].
  unfold list_insert. rewrite tags_app, tags_cons_Text, <- tags_app.
  by rewrite take_drop.
Qed.

Lemma on_attrs_adds_strings_only f : adds_strings_only (on_attrs f).
Proof.
  intros nm a cs a' cs' H. unfold on_attrs in H.
  apply result_bind_Ok in H as (? & _ & [= _ <-]). done.
Qed.

Lemma convert_data_for_adds_strings_only : adds_strings_only convert_data_for.
Proof.
  intros nm a cs a' cs'. unfold convert_data_for.
  destruct (split_space (get "data-for" a)) as [pieces | e]; [simpl | done].
  destruct (1 <? length pieces)%nat.
  - intros (cs1 & H1 & H)%result_bind_Ok.
    apply result_bind_Ok in H as (cs2 & H2 & [= _ <-]).
    apply insert_Text_tags in H1, H2. congruence.
  - destruct (String.eqb nm "img"); [by intros [= _ <-] |].
    intros (cs1 & H1 & [= _ <-])%result_bind_Ok.
    by apply insert_Text_tags in H1.
Qed.

Lemma add_csrf_adds_strings_only : adds_strings_only add_csrf.
Proof.
  intros nm a cs a' cs'. unfold add_csrf.
  intros (cs1 & H1 & [= _ <-])%result_bind_Ok.
  by apply insert_Text_tags in H1.
Qed.

(** The body of the [data-for] loop, case by case. *)
Lemma convert_data_for_loop nm a cs v :
  get "data-for" a = Some v → contains_chr " " v = true →
  convert_data_for nm a cs =
    (cs' ← insert (-1) (Text endfor) (Text (for_open v) :: cs); Ok (a, cs')).
Proof.
  intros Hv Hsp. unfold convert_data_for. rewrite Hv. simpl.
  destruct (split_chr_pieces " " v) as [_ ->]. rewrite Hsp.
  by rewrite insert_0.
Qed.

Lemma convert_data_for_variable nm a cs v :
  get "data-for" a = Some v → contains_chr " " v = false →
  convert_data_for nm a cs =
    if String.eqb nm "img" then Ok (set "src" (variable v) a, cs)
    else Ok (a, Text (variable v) :: cs).
Proof.
  intros Hv Hsp. unfold convert_data_for. rewrite Hv. simpl.
  destruct (split_chr_pieces " " v) as [_ ->]. rewrite Hsp.
  destruct (String.eqb nm "img"); [done |]. by rewrite insert_0.
Qed.

(** A list with at least one element ends with one. *)
Lemma list_last_split {A} (l : list A) : l ≠ [] → ∃ l' x, l = l' ++ [x].
Proof.
  intros Hne. destruct (decide (l = [])) as [| _]; [done |].
  induction l as [| x l IH] using rev_ind; [done |]. eauto.
Qed.

Lemma convert_data_for_loop_Ok nm a cs v l z :
  get "data-for" a = Some v → contains_chr " " v = true →
  cs = l ++ [z] →
  convert_data_for nm a cs =
    Ok (a, Text (for_open v) :: l ++ [Text endfor; z]).
Proof.
  intros Hv Hsp ->. rewrite (convert_data_for_loop _ _ _ _ Hv Hsp).
  destruct (list_last_split (Text (for_open v) :: l)) as (l' & y & Hl); [done |].
  replace (Text (for_open v) :: l ++ [z]) with (l' ++ [y; z])
    by (rewrite app_comm_cons, Hl, <- app_assoc; done).
  rewrite insert_minus_1. simpl.
  replace (l' ++ [y; Text endfor; z]) with ((l' ++ [y]) ++ [Text endfor; z])
    by (by rewrite <- app_assoc).
  by rewrite <- Hl.
Qed.

Lemma convert_data_for_loop_empty nm a v :
  get "data-for" a = Some v → contains_chr " " v = true →
  convert_data_for nm a [] = Raise IndexError.
Proof.
  intros Hv Hsp. by rewrite (convert_data_for_loop _ _ _ _ Hv Hsp).
Qed.

(** The script and lottie bodies never raise. *)
Lemma update_script_total app a :
  ∃ a', update_script app a = Ok a' ∧ (get "src" a = None → a' = a).
Proof.
  unfold update_script. destruct (get "src" a) as [s |]; simpl.
  - destruct (negb _); simpl; [destruct (String.prefix "js" s) |];
      (eexists; split; [reflexivity | done]).
  - eauto.
Qed.

Lemma update_lottie_total app a :
  ∃ a', update_lottie app a = Ok a' ∧ (get "data-src" a = None → a' = a).
Proof.
  unfold update_lottie. destruct (get "data-src" a) as [s |]; simpl.
  - destruct (negb _); simpl; [destruct (String.prefix "documents" s) |];
      (eexists; split; [reflexivity | done]).
  - eauto.
Qed.

Lemma scripts_pass_total app d : ∃ d', scripts_pass app d = Ok d'.
Proof.
  apply for_each_in_succeeds. intros nm a cs _ _ cs0 _.
  unfold on_attrs. destruct (update_script_total app a) as (a' & -> & _).
  simpl. eauto.
Qed.

Lemma lottie_pass_total app d : ∃ d', lottie_pass app d = Ok d'.
Proof.
  apply for_each_in_succeeds. intros nm a cs _ _ cs0 _.
  unfold on_attrs. destruct (update_lottie_total app a) as (a' & -> & _).
  simpl. eauto.
Qed.

Lemma csrf_pass_total d : ∃ d', csrf_pass d = Ok d'.
Proof.
  apply for_each_in_succeeds. intros nm a cs _ _ cs0 _.
  unfold add_csrf. rewrite insert_0. simpl. eauto.
Qed.

End RewriterFacts.

(* ===================================================================== *)
(** * Facts about the srcset substitution *)
(* ===================================================================== *)

Section ReFacts.
Import Py Soup Spec Re.

Lemma append_cons c (s t : string) : String c s +:+ t = String c (s +:+ t).
Proof. reflexivity. Qed.

Lemma append_empty (t : string) : "" +:+ t = t.
Proof. reflexivity. Qed.

Lemma append_assoc (s1 s2 s3 : string) : (s1 +:+ s2) +:+ s3 = s1 +:+ (s2 +:+ s3).
Proof.
  induction s1 as [| c s1 IH]; [done |]. by rewrite !append_cons, IH.
Qed.

Lemma length_append (s t : string) :
  String.length (s +:+ t) = (String.length s + String.length t)%nat.
Proof.
  induction s as [| c s IH]; [done |]. rewrite append_cons. simpl. by rewrite IH.
Qed.

Lemma prefix_split u s : String.prefix u s = true → ∃ x, s = u +:+ x.
Proof.
  revert s. induction u as [| c u IH]; intros s.
  - by exists s.
  - destruct s as [| c' s]; [done |]. simpl.
    destruct (ascii_dec c c') as [<- |]; [| done].
    intros (x & ->)%IH. by exists x.
Qed.

Lemma substring_all s : String.substring 0 (String.length s) s = s.
Proof. induction s as [| c s IH]; simpl; [done | by rewrite IH]. Qed.

Lemma prefix_append u x : String.prefix u (u +:+ x) = true.
Proof.
  induction u as [| c u IH]; [by destruct x |].
  rewrite append_cons. simpl. by destruct (ascii_dec c c).
Qed.

Lemma substring_append u n x :
  String.substring (String.length u) n (u +:+ x) = String.substring 0 n x.
Proof. induction u as [| c u IH]; [done |]. by rewrite append_cons. Qed.

Lemma match_here_images x :
  match_here ("images/" +:+ x) =
    if String.eqb (nonspace_run x) "" then None else Some (nonspace_run x).
Proof.
  unfold match_here. rewrite prefix_append.
  rewrite length_append.
  replace (String.length "images/" + String.length x - 7)%nat
    with (String.length x) by (simpl; lia).
  change 7%nat with (String.length "images/").
  by rewrite substring_append, substring_all.
Qed.

(** The run stops at the first space. *)
Lemma nonspace_run_split s :
  ∃ rest, s = nonspace_run s +:+ rest ∧ ends_path rest = true ∧
          contains_chr " " (nonspace_run s) = false.
Proof.
  induction s as [| c s (rest & Hs & Hrest & Hrun)]; [by exists "" |].
  simpl. destruct (Ascii.eqb c " ") eqn:Hc.
  - exists (String c s). simpl. by rewrite Hc.
  - exists rest. rewrite ?append_cons. simpl. rewrite Hc, Hrun. by rewrite <- Hs.
Qed.

Lemma nonspace_run_app g rest :
  contains_chr " " g = false → ends_path rest = true →
  nonspace_run (g +:+ rest) = g.
Proof.
  intros Hg Hrest. induction g as [| c g IH]; simpl in *.
  - destruct rest as [| c rest]; [done |]. simpl in *. by rewrite Hrest.
  - apply orb_false_iff in Hg as [Hc Hg]. rewrite ?append_cons. simpl.
    by rewrite Hc, IH.
Qed.

Lemma match_here_Some s g :
  match_here s = Some g →
  ∃ rest, s = "images/" +:+ g +:+ rest ∧ String.eqb g "" = false ∧
          contains_chr " " g = false ∧ ends_path rest = true.
Proof.
  intros Hm. assert (String.prefix "images/" s = true) as (x & ->)%prefix_split.
  { unfold match_here in Hm. by destruct (String.prefix "images/" s). }
  rewrite match_here_images in Hm.
  destruct (String.eqb (nonspace_run x) "") eqn:Hne; [done |].
  injection Hm as <-.
  destruct (nonspace_run_split x) as (rest & Hx & Hrest & Hrun).
  exists rest. by rewrite <- Hx.
Qed.

Lemma scan_skip e u s :
  scan e (String.length u) (u +:+ s) = scan e 0 s.
Proof. induction u as [| c u IH]; simpl; [by destruct s | done]. Qed.

(** Text without a match is copied. *)
Lemma scan_other e t rest :
  no_match_in t rest = true → scan e 0 (t +:+ rest) = t +:+ scan e 0 rest.
Proof.
  induction t as [| c t IH]; [done |].
  intros [Hhere Ht]%andb_true_iff.
  change (String c t +:+ rest) with (String c (t +:+ rest)) in *.
  simpl. destruct (match_here (String c (t +:+ rest))) as [g |].
  - rewrite bool_decide_eq_true_2 in Hhere by eauto. done.
  - by rewrite IH.
Qed.

(** A path after [images/] is replaced. *)
Lemma scan_image e g rest :
  String.eqb g "" = false → contains_chr " " g = false →
  ends_path rest = true →
  scan e 0 ("images/" +:+ g +:+ rest) = e g +:+ scan e 0 rest.
Proof.
  intros Hne Hg Hrest.
  assert (match_here ("images/" +:+ g +:+ rest) = Some g) as Hm.
  { rewrite match_here_images, nonspace_run_app by done. by rewrite Hne. }
  change ("images/" +:+ g +:+ rest) with (String "i" ("mages/" +:+ g +:+ rest)) in *.
  cbn [scan]. rewrite Hm. f_equal.
  change (6 + String.length g)%nat with (String.length ("mages/" +:+ g)).
  rewrite <- (scan_skip e ("mages/" +:+ g) rest).
  by rewrite append_assoc.
Qed.

Lemma scan_ext e e' k s : (∀ g, e g = e' g) → scan e k s = scan e' k s.
Proof.
  intros He. revert k. induction s as [| c s IH]; intros k; [done |].
  simpl. destruct k as [| k]; [| apply IH].
  destruct (match_here (String c s)); by rewrite ?He, IH.
Qed.

(** ** The template of an app name without a backslash *)

Lemma no_backslash_app u v :
  no_backslash (u +:+ v) = no_backslash u && no_backslash v.
Proof.
  induction u as [| c u IH]; [done |]. rewrite append_cons. simpl.
  rewrite IH. by rewrite andb_assoc.
Qed.

(** Text without a backslash is literal. *)
Lemma template_literal u rest ps :
  no_backslash u = true → template None rest = Ok ps →
  ∃ ps', template None (u +:+ rest) = Ok ps' ∧
         ∀ g0 g1, fill ps' g0 g1 = u +:+ fill ps g0 g1.
Proof.
  intros Hu Hrest. induction u as [| c u IH]; [by exists ps |].
  simpl in Hu. apply andb_true_iff in Hu as [Hc Hu].
  destruct (IH Hu) as (ps' & Hps' & Hfill).
  exists (Lit (String c "") :: ps'). split.
  - rewrite append_cons. cbn [template]. rewrite Hc, Hps'. done.
  - intros g0 g1. cbn [fill]. by rewrite Hfill.
Qed.

Lemma template_no_backslash app :
  no_backslash app = true →
  ∃ ps, template None (template_text app) = Ok ps ∧
        ∀ g0 g1, fill ps g0 g1 = expand app g1.
Proof.
  intros Happ.
  destruct (template_literal ("{% static '" +:+ app +:+ "/images/")
              "\g<1>' %}" [Group 1; Lit "'"; Lit " "; Lit "%"; Lit "}"])
    as (ps & Hps & Hfill).
  - rewrite !no_backslash_app, Happ. done.
  - reflexivity.
  - exists ps. split.
    + unfold template_text. rewrite <- Hps. by rewrite !append_assoc.
    + intros g0 g1. rewrite Hfill. unfold expand. cbn [fill].
      by rewrite !append_assoc.
Qed.

Lemma sub_images_literal app s :
  no_backslash app = true → sub_images app s = Ok (scan (expand app) 0 s).
Proof.
  intros (ps & Hps & Hfill)%template_no_backslash.
  unfold sub_images. rewrite Hps. simpl. f_equal.
  apply scan_ext. intros g. apply Hfill.
Qed.

(** [re.sub] on a value cut into pieces. *)
Lemma sub_images_pieces app ps :
  no_backslash app = true → well_split ps = true →
  sub_images app (source_text ps) = Ok (rewritten_text app ps).
Proof.
  intros Happ. rewrite (sub_images_literal _ _ Happ). intros Hps. f_equal.
  revert Hps.
  induction ps as [| [t | g] ps IH]; [done | |];
    cbn [source_text rewritten_text well_split].
  - intros [Ht Hps]%andb_true_iff. rewrite scan_other by done. by rewrite IH.
  - intros [[[Hne Hg]%andb_true_iff Hrest]%andb_true_iff Hps]%andb_true_iff.
    apply negb_true_iff in Hne, Hg.
    rewrite scan_image by done. by rewrite IH.
Qed.

(** Every value can be cut into pieces. *)
Lemma well_split_exists s : ∃ ps, well_split ps = true ∧ source_text ps = s.
Proof.
  remember (String.length s) as n eqn:Hn. revert s Hn.
  induction n as [n IH] using lt_wf_ind. intros s Hn.
  destruct s as [| c s]; [by exists [] |].
  destruct (match_here (String c s)) as [g |] eqn:Hm.
  - destruct (match_here_Some _ _ Hm) as (rest & Hs & Hne & Hg & Hrest).
    destruct (IH (String.length rest)) with (s := rest) as (ps & Hps & Hsrc).
    { rewrite Hn, Hs. rewrite !length_append. simpl. lia. }
    { done. }
    exists (Image g :: ps). cbn [well_split source_text].
    rewrite Hne, Hg, Hsrc, Hrest, Hps. done.
  - destruct (IH (String.length s)) with (s := s) as (ps & Hps & Hsrc).
    { rewrite Hn. simpl. lia. }
    { done. }
    exists (Other (String c "") :: ps).
    cbn [well_split source_text no_match_in]. rewrite Hsrc.
    change (String c "" +:+ s) with (String c s). rewrite Hm, Hps.
    by rewrite bool_decide_eq_false_2 by (by intros [? ?]).
Qed.

End ReFacts.

(* ===================================================================== *)
(** * What a pass keeps of a document *)
(* ===================================================================== *)

Section PassFacts.
Import Py Soup Spec Rewriter.

Lemma step_matches_named sel f nm t t' :
  step sel f t t' → matches (named nm) t = matches (named nm) t'.
Proof. by intros (? & ? & ? & ? & ? & ? & -> & -> & _). Qed.

(** The tags of one name, before and after a loop. *)
Lemma for_each_in_find_all sel f nm d d' :
  adds_strings_only f → for_each_in sel f d = Ok d' →
  Forall2 (step sel f) (find_all (named nm) d) (find_all (named nm) d').
Proof.
  intros Hf Hd. rewrite !find_all_tags.
  apply Forall2_filter; [| by apply for_each_in_tags].
  intros t t' Hstep. by rewrite (step_matches_named _ _ nm _ _ Hstep).
Qed.

Lemma for_each_in_find sel f nm d d' t :
  adds_strings_only f → for_each_in sel f d = Ok d' →
  find (named nm) d = Some t →
  ∃ t', find (named nm) d' = Some t' ∧ step sel f t t'.
Proof.
  intros Hf Hd. unfold find.
  pose proof (for_each_in_find_all sel f nm d d' Hf Hd) as H.
  destruct H as [| x y l l' Hxy _]; [done |]. intros [= <-]. eauto.
Qed.

Lemma for_each_in_find_None sel f nm d d' :
  adds_strings_only f → for_each_in sel f d = Ok d' →
  find (named nm) d = None → find (named nm) d' = None.
Proof.
  intros Hf Hd. unfold find.
  pose proof (for_each_in_find_all sel f nm d d' Hf Hd) as H.
  by destruct H.
Qed.

Lemma for_each_in_length sel f d d' :
  adds_strings_only f → for_each_in sel f d = Ok d' →
  length (tags d') = length (tags d).
Proof.
  intros Hf Hd. symmetry. eapply Forall2_length. by apply for_each_in_tags.
Qed.

(** The tag on which [with_first] makes its call is the first match,
    before and after. *)
Lemma edit_first_head sel g c c' :
  edit_first sel g c c' →
  ∃ nm a cs cs',
    head (filter (matches sel) (tags_node c)) = Some (Tag nm a cs) ∧
    head (filter (matches sel) (tags_node c')) = Some (Tag nm a cs') ∧
    g cs = Ok cs'.
Proof.
  induction 1 as [nm a cs cs' Hsel Hcall | nm a l1 c c' l2 Hsel Hl1 Hc IH].
  - exists nm, a, cs, cs'. simpl. rewrite !filter_cons. simpl.
    rewrite Hsel. done.
  - destruct IH as (nm' & a' & cs & cs' & H1 & H2 & Hcall).
    exists nm', a', cs, cs'. simpl. rewrite !filter_cons. simpl.
    rewrite Hsel. simpl.
    fold (tags (l1 ++ c :: l2)) (tags (l1 ++ c' :: l2)).
    rewrite !tags_app. unfold tags at 2 4. simpl.
    rewrite !filter_app, Hl1. simpl.
    destruct (filter (matches sel) (tags_node c)); [done |].
    destruct (filter (matches sel) (tags_node c')); [done |].
    done.
Qed.

Lemma with_first_find sel g d d' :
  with_first sel g d = Ok d' →
  ∃ nm a cs cs',
    find sel d = Some (Tag nm a cs) ∧ find sel d' = Some (Tag nm a cs') ∧
    g cs = Ok cs'.
Proof.
  intros (l1 & c & c' & l2 & -> & -> & Hl1 & Hc)%with_first_Ok.
  destruct (edit_first_head _ _ _ _ Hc) as (nm & a & cs & cs' & H1 & H2 & Hcall).
  exists nm, a, cs, cs'. unfold find. rewrite !find_all_tags, !tags_app.
  unfold tags at 2 4. simpl. rewrite !filter_app, Hl1. simpl.
  destruct (filter (matches sel) (tags_node c)); [done |].
  destruct (filter (matches sel) (tags_node c')); [done |].
  done.
Qed.

(** The number of tags after [with_first], when the call adds [k]. *)
Lemma edit_first_length sel g k c c' :
  (∀ cs cs', g cs = Ok cs' → length (tags cs') = length (tags cs) + k) →
  edit_first sel g c c' →
  length (tags_node c') = length (tags_node c) + k.
Proof.
  intros Hg. induction 1 as [nm a cs cs' Hsel Hcall | nm a l1 c c' l2 Hsel Hl1 Hc IH].
  - simpl. fold (tags cs) (tags cs'). by rewrite (Hg _ _ Hcall).
  - simpl. fold (tags (l1 ++ c :: l2)) (tags (l1 ++ c' :: l2)).
    rewrite !tags_app. unfold tags at 2 4. simpl.
    rewrite !length_app, IH. lia.
Qed.

Lemma with_first_length sel g k d d' :
  (∀ cs cs', g cs = Ok cs' → length (tags cs') = length (tags cs) + k) →
  with_first sel g d = Ok d' →
  length (tags d') = length (tags d) + k.
Proof.
  intros Hg (l1 & c & c' & l2 & -> & -> & _ & Hc)%with_first_Ok.
  rewrite !tags_app. unfold tags at 2 4. simpl.
  rewrite !length_app, (edit_first_length _ _ _ _ _ Hg Hc). lia.
Qed.

(** The tags of another name across [with_first]. *)
Lemma with_first_find_other sel g nm d d' t :
  (∀ cs cs', g cs = Ok cs' →
     filter (matches (named nm)) (tags cs')
     = filter (matches (named nm)) (tags cs)) →
  with_first sel g d = Ok d' →
  find (named nm) d = Some t →
  ∃ t', find (named nm) d' = Some t' ∧ edited sel g t t'.
Proof.
  intros Hg Hd. unfold find. rewrite !find_all_tags.
  pose proof (with_first_tags sel g (named nm) d d' Hg Hd) as H.
  destruct H as [| x y l l' Hxy _]; [done |]. intros [= <-]. eauto.
Qed.

Lemma with_first_find_None sel g nm d d' :
  (∀ cs cs', g cs = Ok cs' →
     filter (matches (named nm)) (tags cs')
     = filter (matches (named nm)) (tags cs)) →
  with_first sel g d = Ok d' →
  find (named nm) d = None → find (named nm) d' = None.
Proof.
  intros Hg Hd. unfold find. rewrite !find_all_tags.
  pose proof (with_first_tags sel g (named nm) d d' Hg Hd) as H.
  by destruct H.
Qed.

(** An edit below a tag leaves its strings where they are. *)
Lemma edited_shape sel g nm a cs t' :
  sel nm a = false → edited sel g (Tag nm a cs) t' →
  ∃ cs', t' = Tag nm a cs' ∧ shape cs' = shape cs.
Proof.
  intros Hsel (nm0 & a0 & cs0 & cs' & [= <- <- <-] & -> & Hcase).
  exists cs'. split; [done |].
  destruct Hcase as [-> | [[Hsel' _] | (l1 & c & c' & l2 & -> & -> & Hc)]].
  - done.
  - congruence.
  - by eapply edit_first_shape.
Qed.

(** Children that start with [k] copies of a string, by their shape. *)
Lemma shape_repeat_Text s k cs cs' :
  shape cs' = shape (repeat (Text s) k ++ cs) →
  ∃ cs'', cs' = repeat (Text s) k ++ cs'' ∧ shape cs'' = shape cs.
Proof.
  revert cs'. induction k as [| k IH]; intros cs'; simpl.
  - eauto.
  - destruct cs' as [| [s' | nm a l] cs']; [done | | done].
    simpl. intros [= -> H]. destruct (IH _ H) as (cs'' & -> & ?). eauto.
Qed.

Lemma mapM_app_Ok {A B} (f : A → result B) l1 l2 l :
  mapM f (l1 ++ l2) = Ok l →
  ∃ l1' l2', l = l1' ++ l2' ∧ mapM f l1 = Ok l1' ∧ mapM f l2 = Ok l2'.
Proof.
  rewrite mapM_Ok. intros (l1' & l2' & H1 & H2 & ->)%Forall2_app_inv_l.
  exists l1', l2'. by rewrite !mapM_Ok.
Qed.

Lemma mapM_repeat_fixed {A} (f : A → result A) x k :
  f x = Ok x → mapM f (repeat x k) = Ok (repeat x k).
Proof.
  intros Hx. induction k as [| k IH]; [done |].
  change (repeat x (S k)) with (x :: repeat x k).
  rewrite mapM_cons, Hx. simpl. by rewrite IH.
Qed.

Lemma repeat_snoc {A} (x : A) k : repeat x k ++ [x] = repeat x (S k).
Proof. induction k as [| k IH]; [done |]. simpl. by rewrite IH. Qed.

(** Where an element other than [x] sits in a list that ends with
    copies of [x]. *)
Lemma app_repeat_split {A} (l1 l2 u : list A) c x k :
  c ≠ x → l1 ++ c :: l2 = u ++ repeat x k →
  ∃ l2', l2 = l2' ++ repeat x k ∧ u = l1 ++ c :: l2'.
Proof.
  intros Hc. revert l2. induction k as [| k IH]; intros l2 Heq.
  - exists l2. simpl in *. rewrite !app_nil_r in *. done.
  - rewrite <- repeat_snoc in Heq.
    destruct (decide (l2 = [])) as [-> | Hne].
    + rewrite app_assoc in Heq.
      change (l1 ++ [c]) with (l1 ++ [c]) in Heq.
      apply app_inj_tail in Heq as [_ ->]. done.
    + destruct (list_last_split l2 Hne) as (l2' & y & ->).
      rewrite app_comm_cons, !app_assoc in Heq.
      apply app_inj_tail in Heq as [Heq ->].
      destruct (IH l2' Heq) as (l3 & -> & ->).
      exists l3. by rewrite <- repeat_snoc, app_assoc.
Qed.

Lemma find_named nm d t :
  find (named nm) d = Some t → ∃ a cs, t = Tag nm a cs.
Proof.
  unfold find. rewrite find_all_tags. intros Hhd.
  assert (t ∈ filter (matches (named nm)) (tags d)) as Hin.
  { destruct (filter _ _); [done |]. injection Hhd as ->. apply list_elem_of_here. }
  apply list_elem_of_filter in Hin as [Hm Hin].
  destruct (elem_of_tags _ _ Hin) as (nm' & a & cs & ->).
  simpl in Hm. unfold named in Hm. apply Is_true_true, String.eqb_eq in Hm as ->.
  eauto.
Qed.

Lemma All_elem Q d nm a cs :
  All Q d → Tag nm a cs ∈ tags d → Q nm a (shape cs).
Proof.
  unfold All. rewrite Forall_forall. intros H Hin. by apply (H _ Hin).
Qed.

(** ** Loops *)

Section Loop.
Variables (sel : string → attrs → bool) (f : body).
Hypothesis Hf : adds_strings_only f.

Lemma loop_keeps_html k d d' :
  (∀ a, sel "html" a = false) →
  for_each_in sel f d = Ok d' → html_loads k d → html_loads k d'.
Proof using Hf.
  intros Hsel Hd (a & cs & Hfind).
  destruct (for_each_in_find _ _ _ _ _ _ Hf Hd Hfind)
    as (t' & Hfind' & nm & a0 & cs1 & cs0 & a' & cs' & [= <- <- <-] & -> & Hcs & Hbody).
  rewrite Hsel in Hbody. injection Hbody as -> ->.
  apply for_each_shape, shape_repeat_Text in Hcs as (cs'' & -> & _).
  by exists a, cs''.
Qed.

Lemma loop_keeps_body k d d' :
  (∀ a, sel "body" a = false) →
  for_each sel f script_tag = Ok script_tag →
  for_each_in sel f d = Ok d' → body_scripts k d → body_scripts k d'.
Proof using Hf.
  intros Hsel Hscript Hd (a & cs & Hfind).
  destruct (for_each_in_find _ _ _ _ _ _ Hf Hd Hfind)
    as (t' & Hfind' & nm & a0 & cs1 & cs0 & a' & cs' & [= <- <- <-] & -> & Hcs & Hbody).
  rewrite Hsel in Hbody. injection Hbody as -> ->.
  apply mapM_app_Ok in Hcs as (l1 & l2 & -> & _ & Hl2).
  rewrite (mapM_repeat_fixed _ _ _ Hscript) in Hl2. injection Hl2 as <-.
  by exists a, l1.
Qed.

Lemma loop_keeps_forms k d d' :
  (∀ a, sel "form" a = false) →
  for_each_in sel f d = Ok d' → forms_csrf k d → forms_csrf k d'.
Proof using Hf.
  intros Hsel Hd HQ.
  eapply (for_each_in_All _ _ sel f d d' Hf); [| | exact Hd | exact HQ].
  - intros nm a cs a' cs' Hnm _ _ ->. by rewrite Hsel in Hnm.
  - done.
Qed.

Lemma loop_keeps (Q : string → attrs → list (option string) → Prop) d d' :
  (∀ nm a sh a' sh', grows a sh a' sh' → Q nm a sh → Q nm a' sh') →
  (∀ nm a cs a' cs', f nm a cs = Ok (a', cs') → grows a (shape cs) a' (shape cs')) →
  for_each_in sel f d = Ok d' → All Q d → All Q d'.
Proof using Hf.
  intros Hclosed Hgrows Hd HQ.
  eapply (for_each_in_All _ _ sel f d d' Hf); [| | exact Hd | exact HQ].
  - intros nm a cs a' cs' _ Hbody. apply Hclosed. by eapply Hgrows.
  - done.
Qed.

Lemma loop_length d d' :
  for_each_in sel f d = Ok d' → length (tags d') = length (tags d).
Proof using Hf. by apply for_each_in_length. Qed.

End Loop.

(** ** Growth of the attributes *)

Lemma grows_refl a sh : grows a sh a sh.
Proof. done. Qed.

Lemma grows_trans a1 sh1 a2 sh2 a3 sh3 :
  grows a1 sh1 a2 sh2 → grows a2 sh2 a3 sh3 → grows a1 sh1 a3 sh3.
Proof.
  intros (H1 & H2 & H3) (H1' & H2' & H3'). repeat split; [auto | | auto].
  by rewrite H2'.
Qed.

Lemma grows_set k v a sh : k ≠ "data-for" → grows a sh (set k v a) sh.
Proof.
  intros Hk. repeat split; [| by rewrite get_set_ne | done].
  intros k' Hk'. destruct (decide (k = k')) as [<- | Hne].
  - rewrite get_set_eq. eauto.
  - by rewrite get_set_ne.
Qed.

Lemma grows_cons a sh x : grows a sh a (x :: sh).
Proof. done. Qed.

Lemma passable_grows nm a sh a' sh' :
  grows a sh a' sh' → passable nm a sh → passable nm a' sh'.
Proof.
  intros (Hkeys & Hfor & Hsh) (Hlink & Himg & Hdata). repeat split.
  - intros Hnm. by apply Hkeys, Hlink.
  - intros Hnm. by apply Hkeys, Himg.
  - intros v Hsel Hv Hsp. apply Hsh. apply (Hdata v); [| congruence | done].
    unfold has_data_for in *. by rewrite <- Hfor.
Qed.

Lemma passable_script_tag : holds passable script_tag.
Proof. repeat split; done. Qed.

Ltac solve_grows :=
  repeat first
    [ apply grows_refl
    | (apply grows_set; done)
    | (eapply grows_trans; [| apply grows_set; done]) ].

Lemma on_attrs_grows f :
  (∀ a a', f a = Ok a' → ∀ sh, grows a sh a' sh) →
  ∀ nm a cs a' cs', on_attrs f nm a cs = Ok (a', cs') →
    grows a (shape cs) a' (shape cs').
Proof.
  intros Hgrow nm a cs a' cs' H. unfold on_attrs in H.
  apply result_bind_Ok in H as (a1 & Ha1 & [= <- <-]). by apply Hgrow.
Qed.

Lemma update_link_grows app a a' sh :
  update_link app a = Ok a' → grows a sh a' sh.
Proof.
  unfold update_link.
  intros (b1 & _ & (b2 & _ & [= <-])%result_bind_Ok)%result_bind_Ok.
  destruct b1, b2; solve_grows.
Qed.

(** What the body of the image loop does when it returns. *)
Lemma update_img_inv app a a' :
  update_img app a = Ok a' →
  ∃ v a1,
    get "src" a = Some v ∧
    a1 = (if String.prefix "images" v
          then set "src" (static_ref app (Some v)) a else a) ∧
    get "srcset" a1 = get "srcset" a ∧
    ((String.prefix "images" (default "" (get "srcset" a)) = true ∧
      ∃ s, Re.sub_images app (default "" (get "srcset" a)) = Ok s ∧
           a' = set "srcset" s a1)
     ∨ (String.prefix "images" (default "" (get "srcset" a)) = false ∧ a' = a1)).
Proof.
  unfold update_img. destruct (get "src" a) as [v |] eqn:Hv; [| done]. simpl.
  set (a1 := if String.prefix "images" v
             then set "src" (static_ref app (Some v)) a else a).
  assert (get "srcset" a1 = get "srcset" a) as Hs1.
  { unfold a1. destruct (String.prefix "images" v); [| done].
    by apply get_set_ne. }
  rewrite Hs1. intros H. exists v, a1. split; [done |]. split; [done |].
  split; [done |].
  destruct (String.prefix "images" (default "" (get "srcset" a))).
  - left. split; [done |].
    apply result_bind_Ok in H as (s & Hs & [= <-]). eauto.
  - right. split; [done |]. by injection H.
Qed.

Lemma update_img_grows app a a' sh :
  update_img app a = Ok a' → grows a sh a' sh.
Proof.
  intros (v & a1 & _ & -> & _ & [(_ & s & _ & ->) | (_ & ->)])%update_img_inv;
    destruct (String.prefix "images" v); solve_grows.
Qed.

Lemma update_script_grows app a a' sh :
  update_script app a = Ok a' → grows a sh a' sh.
Proof.
  unfold update_script. intros (b1 & _ & [= <-])%result_bind_Ok.
  destruct b1; solve_grows.
Qed.

Lemma update_lottie_grows app a a' sh :
  update_lottie app a = Ok a' → grows a sh a' sh.
Proof.
  unfold update_lottie. intros (b1 & _ & [= <-])%result_bind_Ok.
  destruct b1; solve_grows.
Qed.

Lemma insert_Text_shape pos s cs cs' :
  insert pos (Text s) cs = Ok cs' → shape cs' ≠ [].
Proof.
  unfold insert. destruct (_ =? 0)%Z; [by intros [= <-] |].
  destruct (index cs _); [| done]. intros [= <-].
  unfold list_insert. rewrite shape_app. simpl. by destruct (shape (take _ cs)).
Qed.

Lemma convert_data_for_grows nm a cs a' cs' :
  convert_data_for nm a cs = Ok (a', cs') → grows a (shape cs) a' (shape cs').
Proof.
  unfold convert_data_for.
  destruct (split_space (get "data-for" a)) as [pieces | e]; [simpl | done].
  destruct (1 <? length pieces)%nat.
  - intros (cs1 & H1 & (cs2 & H2 & [= <- <-])%result_bind_Ok)%result_bind_Ok.
    apply insert_Text_shape in H2. done.
  - destruct (String.eqb nm "img"); [intros [= <- <-]; by apply grows_set |].
    intros (cs1 & H1 & [= <- <-])%result_bind_Ok.
    apply insert_Text_shape in H1. done.
Qed.

Lemma add_csrf_grows nm a cs a' cs' :
  add_csrf nm a cs = Ok (a', cs') → grows a (shape cs) a' (shape cs').
Proof.
  unfold add_csrf. intros (cs1 & H1 & [= <- <-])%result_bind_Ok.
  apply insert_Text_shape in H1. done.
Qed.

(** ** The two calls made on the first html and body tags *)

Lemma no_edit_on_script_tag sel g c' :
  sel "script" [] = false → ¬ edit_first sel g script_tag c'.
Proof.
  intros Hsel Hedit. unfold script_tag, append in Hedit. simpl in Hedit.
  inversion Hedit as [? ? ? ? Hs | ? ? l1 c ? l2 _ _ Hc Heq]; subst.
  - congruence.
  - destruct (edit_first_is_tag _ _ _ _ Hc) as (? & ? & ? & ? & -> & _).
    destruct l1 as [| ? [| ? ?]]; discriminate.
Qed.

Lemma tags_insert_0 s cs : tags (Text s :: cs) = tags cs.
Proof. reflexivity. Qed.

Lemma tags_append_script cs : tags (append script_tag cs) = tags cs ++ [script_tag].
Proof. unfold append. by rewrite tags_app. Qed.

Section WithFirst.
Variables (sel : string → attrs → bool) (g : list node → result (list node)).

(** A call that puts a string first, or the form script last. *)
Hypothesis Hg :
  ∀ cs cs', g cs = Ok cs' →
    (∃ s, cs' = Text s :: cs) ∨ cs' = append script_tag cs.

Lemma call_keeps_named nm :
  nm ≠ "script" → ∀ cs cs', g cs = Ok cs' →
  filter (matches (named nm)) (tags cs') = filter (matches (named nm)) (tags cs).
Proof using Hg.
  intros Hnm cs cs' [[s ->] | ->]%Hg; [done |].
  rewrite tags_append_script, filter_app.
  assert (matches (named nm) script_tag = false) as Hm.
  { change (matches (named nm) script_tag) with (String.eqb "script" nm).
    by apply String.eqb_neq. }
  rewrite (filter_cons _ script_tag), Hm.
  case_decide; [done |]. by rewrite filter_nil, app_nil_r.
Qed.

Lemma call_keeps_html k d d' :
  (∀ a, sel "html" a = false) →
  with_first sel g d = Ok d' → html_loads k d → html_loads k d'.
Proof using Hg.
  intros Hsel Hd (a & cs & Hfind).
  destruct (with_first_find_other sel g "html" d d' _
              (call_keeps_named "html" ltac:(done)) Hd Hfind) as (t' & Hfind' & Hed).
  apply edited_shape in Hed as (cs' & -> & Hshape); [| done].
  apply shape_repeat_Text in Hshape as (cs'' & -> & _). by exists a, cs''.
Qed.

Lemma call_keeps_body k d d' :
  (∀ a, sel "body" a = false) → sel "script" [] = false →
  with_first sel g d = Ok d' → body_scripts k d → body_scripts k d'.
Proof using Hg.
  intros Hsel Hscript Hd (a & cs & Hfind).
  destruct (with_first_find_other sel g "body" d d' _
              (call_keeps_named "body" ltac:(done)) Hd Hfind)
    as (t' & Hfind' & nm & a0 & cs0 & cs' & [= <- <- <-] & -> & Hcase).
  destruct Hcase as [-> | [[Hsel' _] | (l1 & c & c' & l2 & Heq & -> & Hc)]].
  - by exists a, cs.
  - by rewrite Hsel in Hsel'.
  - symmetry in Heq. apply app_repeat_split in Heq as (l2' & -> & ->).
    + exists a, (l1 ++ c' :: l2'). by rewrite <- app_assoc.
    + intros ->. by eapply no_edit_on_script_tag.
Qed.

Lemma call_keeps (Q : string → attrs → list (option string) → Prop) d d' :
  (∀ nm a sh a' sh', grows a sh a' sh' → Q nm a sh → Q nm a' sh') →
  holds Q script_tag →
  with_first sel g d = Ok d' → All Q d → All Q d'.
Proof using Hg.
  intros Hclosed Hscript. apply with_first_All.
  intros nm a cs cs' _ [[s ->] | ->]%Hg HQ Hbelow.
  - split; [| done]. revert HQ. by apply Hclosed.
  - split.
    + revert HQ. apply Hclosed. unfold append. rewrite shape_app.
      repeat split; [done |]. intros _. by destruct (shape cs).
    + rewrite tags_append_script. apply Forall_app. split; [done |].
      by constructor.
Qed.

Lemma call_keeps_forms k d d' :
  (∀ a, sel "form" a = false) →
  with_first sel g d = Ok d' → forms_csrf k d → forms_csrf k d'.
Proof using Hg.
  intros Hsel. apply with_first_All.
  intros nm a cs cs' Hnm Hcall _ Hbelow. split.
  - intros ->. by rewrite Hsel in Hnm.
  - destruct (Hg _ _ Hcall) as [[s ->] | ->]; [done |].
    rewrite tags_append_script. apply Forall_app. split; [done |].
    by constructor.
Qed.

End WithFirst.

Lemma load_static_call cs cs' :
  insert 0 (Text static_template_tag) cs = Ok cs' →
  (∃ s, cs' = Text s :: cs) ∨ cs' = append script_tag cs.
Proof. rewrite insert_0. intros [= <-]. eauto. Qed.

Lemma async_call cs cs' :
  (λ contents, Ok (append script_tag contents)) cs = Ok cs' →
  (∃ s, cs' = Text s :: cs) ∨ cs' = append script_tag cs.
Proof. intros [= <-]. eauto. Qed.

Lemma load_static_pass_html k d d' :
  load_static_pass d = Ok d' →
  html_loads 0 d ∧ (html_loads k d → html_loads (S k) d').
Proof.
  intros (nm & a & cs & cs' & Hfind & Hfind' & Hcall)%with_first_find.
  destruct (find_named _ _ _ Hfind) as (? & ? & [= -> <- <-]).
  rewrite insert_0 in Hcall. injection Hcall as <-.
  split; [by exists a, cs |].
  intros (a0 & cs0 & Hfind0). rewrite Hfind in Hfind0.
  injection Hfind0 as <- ->. by exists a, cs0.
Qed.

Lemma async_pass_body k d d' :
  async_pass d = Ok d' →
  body_scripts 0 d ∧ (body_scripts k d → body_scripts (S k) d').
Proof.
  intros (nm & a & cs & cs' & Hfind & Hfind' & Hcall)%with_first_find.
  destruct (find_named _ _ _ Hfind) as (? & ? & [= -> <- <-]).
  injection Hcall as <-.
  split; [exists a, cs; by rewrite app_nil_r |].
  intros (a0 & cs0 & Hfind0). rewrite Hfind in Hfind0.
  injection Hfind0 as <- ->. exists a, cs0.
  rewrite Hfind'. unfold append. by rewrite <- app_assoc, repeat_snoc.
Qed.

Lemma load_static_pass_length d d' :
  load_static_pass d = Ok d' → length (tags d') = length (tags d).
Proof.
  intros Hd. apply (with_first_length _ _ 0) in Hd; [lia |].
  intros cs cs'. rewrite insert_0. intros [= <-]. rewrite tags_insert_0. lia.
Qed.

Lemma async_pass_length d d' :
  async_pass d = Ok d' → length (tags d') = S (length (tags d)).
Proof.
  intros Hd. apply (with_first_length _ _ 1) in Hd; [lia |].
  intros cs cs' [= <-]. rewrite tags_append_script, length_app. done.
Qed.

Lemma load_static_pass_succeeds k d :
  html_loads k d → ∃ d', load_static_pass d = Ok d'.
Proof.
  intros (a & cs & Hfind). apply with_first_succeeds; [| by rewrite Hfind].
  intros cs0. rewrite insert_0. eauto.
Qed.

Lemma async_pass_succeeds k d :
  body_scripts k d → ∃ d', async_pass d = Ok d'.
Proof.
  intros (a & cs & Hfind). apply with_first_succeeds; [| by rewrite Hfind].
  eauto.
Qed.

(** ** The six loops *)

Lemma loop_kept sel f d d' :
  adds_strings_only f →
  (∀ a, sel "html" a = false) → (∀ a, sel "body" a = false) →
  for_each sel f script_tag = Ok script_tag →
  (∀ nm a cs a' cs', f nm a cs = Ok (a', cs') → grows a (shape cs) a' (shape cs')) →
  for_each_in sel f d = Ok d' → kept d d'.
Proof.
  intros Hf Hhtml Hbody Hscript Hgrows Hd. repeat split.
  - intros k. by eapply loop_keeps_html.
  - intros k. by eapply loop_keeps_body.
  - intros Q HQ. by eapply loop_keeps.
  - by eapply loop_length.
Qed.

Lemma links_pass_kept app d d' : links_pass app d = Ok d' → kept d d'.
Proof.
  apply loop_kept; try done; [apply on_attrs_adds_strings_only |].
  apply on_attrs_grows. intros a a' H sh. by eapply update_link_grows.
Qed.

Lemma imgs_pass_kept app d d' : imgs_pass app d = Ok d' → kept d d'.
Proof.
  apply loop_kept; try done; [apply on_attrs_adds_strings_only |].
  apply on_attrs_grows. intros a a' H sh. by eapply update_img_grows.
Qed.

Lemma scripts_pass_kept app d d' : scripts_pass app d = Ok d' → kept d d'.
Proof.
  apply loop_kept; try done; [apply on_attrs_adds_strings_only |].
  apply on_attrs_grows. intros a a' H sh. by eapply update_script_grows.
Qed.

Lemma lottie_pass_kept app d d' : lottie_pass app d = Ok d' → kept d d'.
Proof.
  apply loop_kept; try done; [apply on_attrs_adds_strings_only |].
  apply on_attrs_grows. intros a a' H sh. by eapply update_lottie_grows.
Qed.

Lemma data_for_pass_kept d d' : data_for_pass d = Ok d' → kept d d'.
Proof.
  apply loop_kept; try done;
    [apply convert_data_for_adds_strings_only | apply convert_data_for_grows].
Qed.

Lemma csrf_pass_kept d d' : csrf_pass d = Ok d' → kept d d'.
Proof.
  apply loop_kept; try done;
    [apply add_csrf_adds_strings_only | apply add_csrf_grows].
Qed.

(** The loops other than the one over the forms keep the csrf markers. *)
Lemma links_pass_forms app k d d' :
  links_pass app d = Ok d' → forms_csrf k d → forms_csrf k d'.
Proof. apply loop_keeps_forms; [apply on_attrs_adds_strings_only | done]. Qed.

Lemma imgs_pass_forms app k d d' :
  imgs_pass app d = Ok d' → forms_csrf k d → forms_csrf k d'.
Proof. apply loop_keeps_forms; [apply on_attrs_adds_strings_only | done]. Qed.

Lemma scripts_pass_forms app k d d' :
  scripts_pass app d = Ok d' → forms_csrf k d → forms_csrf k d'.
Proof. apply loop_keeps_forms; [apply on_attrs_adds_strings_only | done]. Qed.

Lemma lottie_pass_forms app k d d' :
  lottie_pass app d = Ok d' → forms_csrf k d → forms_csrf k d'.
Proof. apply loop_keeps_forms; [apply on_attrs_adds_strings_only | done]. Qed.

Lemma data_for_pass_forms k d d' :
  data_for_pass d = Ok d' → forms_csrf k d → forms_csrf k d'.
Proof.
  apply loop_keeps_forms; [apply convert_data_for_adds_strings_only | done].
Qed.

(** The loop over the forms adds one. *)
Lemma csrf_pass_forms k d d' :
  csrf_pass d = Ok d' → forms_csrf k d → forms_csrf (S k) d'.
Proof.
  intros Hd HQ.
  eapply (for_each_in_All _ _ _ _ d d' add_csrf_adds_strings_only);
    [| | exact Hd | exact HQ].
  - intros nm a cs a' cs' _ Hbody HQ' Hnm. destruct (HQ' Hnm) as [sh' Hsh'].
    unfold add_csrf in Hbody. rewrite insert_0 in Hbody.
    injection Hbody as <- <-. exists sh'. simpl. by rewrite Hsh'.
  - intros nm a sh Hsel _ ->. done.
Qed.

Lemma forms_csrf_0 d : forms_csrf 0 d.
Proof.
  apply Forall_forall. intros [s | nm a cs] _; [done |].
  intros _. by exists (shape cs).
Qed.

(** ** What the loops establish *)





(** ** When the loops that can raise do not *)

Lemma update_link_Ok app a :
  is_Some (get "href" a) → ∃ a', update_link app a = Ok a'.
Proof.
  intros [v Hv]. unfold update_link. rewrite Hv. simpl.
  destruct (String.prefix "css" v); simpl.
  - rewrite get_set_eq. simpl. eauto.
  - rewrite Hv. simpl. eauto.
Qed.

Lemma update_img_Ok app a sh :
  is_Some (get "src" a) → srcset_ready app "img" a sh →
  ∃ a', update_img app a = Ok a'.
Proof.
  intros [v Hv] Hready. unfold update_img. rewrite Hv. simpl.
  set (a1 := if String.prefix "images" v
             then set "src" (static_ref app (Some v)) a else a).
  assert (get "srcset" a1 = get "srcset" a) as ->.
  { unfold a1. destruct (String.prefix "images" v); [| done].
    by apply get_set_ne. }
  destruct (String.prefix "images" (default "" (get "srcset" a))) eqn:Hs;
    [| eauto].
  unfold Re.sub_images.
  destruct (Re.template None (Re.template_text app)) as [ps | e] eqn:Ht.
  - simpl. eauto.
  - specialize (Hready eq_refl Hs). by rewrite Ht in Hready.
Qed.

Lemma named_true nm nm' a : named nm nm' a = true → nm' = nm.
Proof. unfold named. by intros ?%String.eqb_eq. Qed.

Lemma links_pass_succeeds app d :
  All passable d → ∃ d', links_pass app d = Ok d'.
Proof.
  intros Hall. apply for_each_in_succeeds.
  intros nm a cs Hin ->%named_true cs0 _.
  destruct (All_elem _ _ _ _ _ Hall Hin) as (Hlink & _).
  destruct (update_link_Ok app a (Hlink eq_refl)) as [a' Ha'].
  unfold on_attrs. rewrite Ha'. simpl. eauto.
Qed.

Lemma imgs_pass_succeeds app d :
  All passable d → All (srcset_ready app) d → ∃ d', imgs_pass app d = Ok d'.
Proof.
  intros Hall Hready. apply for_each_in_succeeds.
  intros nm a cs Hin ->%named_true cs0 _.
  destruct (All_elem _ _ _ _ _ Hall Hin) as (_ & Himg & _).
  destruct (update_img_Ok app a (shape cs) (Himg eq_refl)
              (All_elem _ _ _ _ _ Hready Hin)) as [a' Ha'].
  unfold on_attrs. rewrite Ha'. simpl. eauto.
Qed.

(** ** The template is read once an img has a srcset that begins with
    images *)

Lemma sub_images_Ok app s s' :
  Re.sub_images app s = Ok s' →
  is_ok (Re.template None (Re.template_text app)) = true.
Proof.
  unfold Re.sub_images. by destruct (Re.template None (Re.template_text app)).
Qed.

Lemma loop_keeps_ready app sel f d d' :
  adds_strings_only f →
  (∀ a cs a' cs', sel "img" a = true → f "img" a cs = Ok (a', cs') →
     get "srcset" a' = get "srcset" a) →
  for_each_in sel f d = Ok d' →
  All (srcset_ready app) d → All (srcset_ready app) d'.
Proof.
  intros Hf Hsrcset.
  apply (for_each_in_All (srcset_ready app) (srcset_ready app) sel f d d' Hf).
  - intros nm a cs a' cs' Hsel Hbody HQ -> Hs.
    rewrite (Hsrcset _ _ _ _ Hsel Hbody) in Hs. by apply HQ.
  - done.
Qed.

Lemma attr_loop_keeps_ready app nm f d d' :
  nm ≠ "img" →
  for_each_in (named nm) (on_attrs f) d = Ok d' →
  All (srcset_ready app) d → All (srcset_ready app) d'.
Proof.
  intros Hnm. apply loop_keeps_ready; [apply on_attrs_adds_strings_only |].
  intros a cs a' cs' Hsel. apply named_true in Hsel. congruence.
Qed.





Lemma data_for_pass_succeeds d :
  All passable d → ∃ d', data_for_pass d = Ok d'.
Proof.
  intros Hall. apply for_each_in_succeeds.
  intros nm a cs Hin Hsel cs0 Hshape.
  destruct (All_elem _ _ _ _ _ Hall Hin) as (_ & _ & Hfor).
  assert (∃ v, get "data-for" a = Some v) as [v Hv].
  { unfold has_data_for in Hsel. apply andb_true_iff in Hsel as [_ Hsome].
    apply bool_decide_eq_true in Hsome as [v Hv]. eauto. }
  destruct (contains_chr " " v) eqn:Hsp.
  - assert (cs0 ≠ []) as Hne.
    { intros ->. by apply (Hfor v Hsel Hv Hsp). }
    destruct (list_last_split cs0 Hne) as (l & z & ->).
    rewrite (convert_data_for_loop_Ok _ _ _ _ l z Hv Hsp eq_refl). eauto.
  - rewrite (convert_data_for_variable _ _ _ _ Hv Hsp).
    destruct (String.eqb nm "img"); eauto.
Qed.

(** ** The whole rewrite *)

Lemma rewrite_Ok app d d8 :
  rewrite app d = Ok d8 ↔
  ∃ d1 d2 d3 d4 d5 d6 d7,
    links_pass app d = Ok d1 ∧ imgs_pass app d1 = Ok d2 ∧
    scripts_pass app d2 = Ok d3 ∧ lottie_pass app d3 = Ok d4 ∧
    data_for_pass d4 = Ok d5 ∧ load_static_pass d5 = Ok d6 ∧
    csrf_pass d6 = Ok d7 ∧ async_pass d7 = Ok d8.
Proof.
  unfold rewrite. split.
  - intros H.
    apply result_bind_Ok in H as (d1 & H1 & H).
    apply result_bind_Ok in H as (d2 & H2 & H).
    apply result_bind_Ok in H as (d3 & H3 & H).
    apply result_bind_Ok in H as (d4 & H4 & H).
    apply result_bind_Ok in H as (d5 & H5 & H).
    apply result_bind_Ok in H as (d6 & H6 & H).
    apply result_bind_Ok in H as (d7 & H7 & H).
    exists d1, d2, d3, d4, d5, d6, d7. done.
  - intros (d1 & d2 & d3 & d4 & d5 & d6 & d7 & H1 & H2 & H3 & H4 & H5 & H6 & H7 & H8).
    rewrite H1; simpl. rewrite H2; simpl. rewrite H3; simpl. rewrite H4; simpl.
    rewrite H5; simpl. rewrite H6; simpl. rewrite H7; simpl. done.
Qed.

Lemma load_static_pass_keeps d d' :
  load_static_pass d = Ok d' →
  (∀ k, body_scripts k d → body_scripts k d') ∧
  (∀ k, forms_csrf k d → forms_csrf k d') ∧
  (∀ Q, closed Q → holds Q script_tag → All Q d → All Q d').
Proof.
  intros Hd. repeat split.
  - intros k. by apply (call_keeps_body (named "html") _ load_static_call k d d').
  - intros k. by apply (call_keeps_forms (named "html") _ load_static_call k d d').
  - intros Q HQ Hs. by apply (call_keeps (named "html") _ load_static_call Q d d').
Qed.

Lemma async_pass_keeps d d' :
  async_pass d = Ok d' →
  (∀ k, html_loads k d → html_loads k d') ∧
  (∀ k, forms_csrf k d → forms_csrf k d') ∧
  (∀ Q, closed Q → holds Q script_tag → All Q d → All Q d').
Proof.
  intros Hd. repeat split.
  - intros k. by apply (call_keeps_html (named "body") _ async_call k d d').
  - intros k. by apply (call_keeps_forms (named "body") _ async_call k d d').
  - intros Q HQ Hs. by apply (call_keeps (named "body") _ async_call Q d d').
Qed.

Lemma closed_passable : closed passable.
Proof. intros nm a sh a' sh'. apply passable_grows. Qed.



Lemma rewrite_again app k d :
  All passable d → All (srcset_ready app) d →
  html_loads k d → forms_csrf k d → body_scripts k d →
  ∃ d', rewrite app d = Ok d' ∧
    html_loads (S k) d' ∧ forms_csrf (S k) d' ∧ body_scripts (S k) d' ∧
    length (tags d') = S (length (tags d)).
Proof.
  intros Hp0 Hr0 Hh0 Hf0 Hb0.
  destruct (links_pass_succeeds app d Hp0) as [d1 H1].
  pose proof (links_pass_kept _ _ _ H1) as (Kh1 & Kb1 & K1 & L1).
  pose proof (K1 _ closed_passable Hp0) as Hp1.
  pose proof (attr_loop_keeps_ready _ "link" _ _ _ ltac:(done) H1 Hr0) as Hr1.
  destruct (imgs_pass_succeeds app d1 Hp1 Hr1) as [d2 H2].
  pose proof (imgs_pass_kept _ _ _ H2) as (Kh2 & Kb2 & K2 & L2).
  pose proof (K2 _ closed_passable Hp1) as Hp2.
  destruct (scripts_pass_total app d2) as [d3 H3].
  pose proof (scripts_pass_kept _ _ _ H3) as (Kh3 & Kb3 & K3 & L3).
  pose proof (K3 _ closed_passable Hp2) as Hp3.
  destruct (lottie_pass_total app d3) as [d4 H4].
  pose proof (lottie_pass_kept _ _ _ H4) as (Kh4 & Kb4 & K4 & L4).
  pose proof (K4 _ closed_passable Hp3) as Hp4.
  destruct (data_for_pass_succeeds d4 Hp4) as [d5 H5].
  pose proof (data_for_pass_kept _ _ H5) as (Kh5 & Kb5 & K5 & L5).
  assert (html_loads k d5) as Hh5 by (by apply Kh5, Kh4, Kh3, Kh2, Kh1).
  destruct (load_static_pass_succeeds k d5 Hh5) as [d6 H6].
  pose proof (load_static_pass_keeps _ _ H6) as (Kb6 & Kf6 & _).
  pose proof (load_static_pass_length _ _ H6) as L6.
  destruct (csrf_pass_total d6) as [d7 H7].
  pose proof (csrf_pass_kept _ _ H7) as (Kh7 & Kb7 & _ & L7).
  assert (body_scripts k d7) as Hb7
    by (by apply Kb7, Kb6, Kb5, Kb4, Kb3, Kb2, Kb1).
  destruct (async_pass_succeeds k d7 Hb7) as [d8 H8].
  pose proof (async_pass_keeps _ _ H8) as (Kh8 & Kf8 & _).
  pose proof (async_pass_length _ _ H8) as L8.
  exists d8. split; [| split; [| split; [| split]]].
  - apply rewrite_Ok. exists d1, d2, d3, d4, d5, d6, d7. done.
  - apply Kh8, Kh7. by apply (load_static_pass_html k d5 d6 H6).
  - apply Kf8. eapply csrf_pass_forms; [done |]. apply Kf6.
    eapply data_for_pass_forms; [done |]. eapply lottie_pass_forms; [done |].
    eapply scripts_pass_forms; [done |]. eapply imgs_pass_forms; [done |].
    by eapply links_pass_forms.
  - by apply (async_pass_body k d7 d8 H8).
  - lia.
Qed.

Lemma shape_repeat_Some s k cs sh :
  shape cs = repeat (Some s) k ++ sh →
  ∃ cs', cs = repeat (Text s) k ++ cs'.
Proof.
  revert cs. induction k as [| k IH]; intros cs; simpl; [eauto |].
  destruct cs as [| [s' | nm a l] cs]; [done | | done].
  simpl. intros [= -> H]. destruct (IH _ H) as (cs' & ->). eauto.
Qed.


(** ** Documents that stop the rewrite *)

Lemma links_pass_needs_href app d d' a cs :
  links_pass app d = Ok d' → Tag "link" a cs ∈ tags d →
  is_Some (get "href" a).
Proof.
  intros Hd Ht.
  destruct (for_each_in_elem _ _ _ _ _ (on_attrs_adds_strings_only _) Hd Ht)
    as (t' & _ & nm0 & a0 & cs1 & cs0 & a' & cs' & [= <- <- <-] & -> & _ & Hbody).
  unfold named, on_attrs in Hbody. simpl in Hbody.
  apply result_bind_Ok in Hbody as (a1 & Ha1 & _). unfold update_link in Ha1.
  apply result_bind_Ok in Ha1 as (b & Hb & _).
  destruct (get "href" a); [eauto | done].
Qed.

Lemma imgs_pass_needs_src app d d' a cs :
  imgs_pass app d = Ok d' → Tag "img" a cs ∈ tags d →
  is_Some (get "src" a).
Proof.
  intros Hd Ht.
  destruct (for_each_in_elem _ _ _ _ _ (on_attrs_adds_strings_only _) Hd Ht)
    as (t' & _ & nm0 & a0 & cs1 & cs0 & a' & cs' & [= <- <- <-] & -> & _ & Hbody).
  unfold named, on_attrs in Hbody. simpl in Hbody.
  apply result_bind_Ok in Hbody as (a1 & Ha1 & _). unfold update_img in Ha1.
  apply result_bind_Ok in Ha1 as (b & Hb & _).
  destruct (get "src" a); [eauto | done].
Qed.

Lemma imgs_pass_needs_template app d d' a cs :
  imgs_pass app d = Ok d' → Tag "img" a cs ∈ tags d →
  srcset_ready app "img" a (shape cs).
Proof.
  intros Hd Ht _ Hs.
  destruct (for_each_in_elem _ _ _ _ _ (on_attrs_adds_strings_only _) Hd Ht)
    as (t' & _ & nm0 & a0 & cs1 & cs0 & a' & cs' & [= <- <- <-] & -> & _ & Hbody).
  unfold named, on_attrs in Hbody. simpl in Hbody.
  apply result_bind_Ok in Hbody as (a1 & Ha1 & _).
  apply update_img_inv in Ha1
    as (v & a2 & _ & _ & _ & [(_ & s & Hsub & _) | (Hno & _)]).
  - by eapply sub_images_Ok.
  - congruence.
Qed.

Lemma links_pass_img app d d' a cs :
  links_pass app d = Ok d' → Tag "img" a cs ∈ tags d →
  ∃ cs', Tag "img" a cs' ∈ tags d'.
Proof.
  intros Hd Ht.
  destruct (for_each_in_elem _ _ _ _ _ (on_attrs_adds_strings_only _) Hd Ht)
    as (t' & Ht' & nm0 & a0 & cs1 & cs0 & a' & cs' & [= <- <- <-] & -> & _ & Hbody).
  unfold named in Hbody. simpl in Hbody. injection Hbody as -> ->. eauto.
Qed.

Lemma not_Ok_Raise {A} (r : result A) : (∀ a, r ≠ Ok a) → ∃ e, r = Raise e.
Proof. destruct r as [a | e]; [intros H; by destruct (H a) | eauto]. Qed.

Lemma rewrite_raises app d :
  (∃ a cs, Tag "link" a cs ∈ tags d ∧ get "href" a = None)
  ∨ (∃ a cs, Tag "img" a cs ∈ tags d ∧ get "src" a = None)
  ∨ find (named "html") d = None
  ∨ find (named "body") d = None →
  ∃ e, rewrite app d = Raise e.
Proof.
  intros Hbad. apply not_Ok_Raise. intros d8
    (d1 & d2 & d3 & d4 & d5 & d6 & d7 & H1 & H2 & H3 & H4 & H5 & H6 & H7 & H8)%rewrite_Ok.
  destruct Hbad as [(a & cs & Hin & Hnone) | [(a & cs & Hin & Hnone) | [Hnone | Hnone]]].
  - destruct (links_pass_needs_href _ _ _ _ _ H1 Hin) as [v Hv]. congruence.
  - destruct (links_pass_img _ _ _ _ _ H1 Hin) as [cs' Hin'].
    destruct (imgs_pass_needs_src _ _ _ _ _ H2 Hin') as [v Hv]. congruence.
  - apply (for_each_in_find_None _ _ _ _ _ (on_attrs_adds_strings_only _) H1) in Hnone.
    apply (for_each_in_find_None _ _ _ _ _ (on_attrs_adds_strings_only _) H2) in Hnone.
    apply (for_each_in_find_None _ _ _ _ _ (on_attrs_adds_strings_only _) H3) in Hnone.
    apply (for_each_in_find_None _ _ _ _ _ (on_attrs_adds_strings_only _) H4) in Hnone.
    apply (for_each_in_find_None _ _ _ _ _ convert_data_for_adds_strings_only H5) in Hnone.
    unfold load_static_pass in H6.
    by rewrite (with_first_missing _ _ _ Hnone) in H6.
  - apply (for_each_in_find_None _ _ _ _ _ (on_attrs_adds_strings_only _) H1) in Hnone.
    apply (for_each_in_find_None _ _ _ _ _ (on_attrs_adds_strings_only _) H2) in Hnone.
    apply (for_each_in_find_None _ _ _ _ _ (on_attrs_adds_strings_only _) H3) in Hnone.
    apply (for_each_in_find_None _ _ _ _ _ (on_attrs_adds_strings_only _) H4) in Hnone.
    apply (for_each_in_find_None _ _ _ _ _ convert_data_for_adds_strings_only H5) in Hnone.
    apply (with_first_find_None _ _ "body" _ _
             (call_keeps_named _ load_static_call "body" ltac:(done)) H6) in Hnone.
    apply (for_each_in_find_None _ _ _ _ _ add_csrf_adds_strings_only H7) in Hnone.
    unfold async_pass in H8.
    by rewrite (with_first_missing _ _ _ Hnone) in H8.
Qed.

End PassFacts.

(* ===================================================================== *)
(** * Facts about the directory tree *)
(* ===================================================================== *)

Section FsFacts.
Import Py Soup Fs.

Lemma stat_Ok p e x : stat p e = Ok x ↔ lookup p e = Some x.
Proof.
  revert e. induction p as [| n p IH]; intros e; simpl.
  - split; congruence.
  - destruct e as [doc | m]; [done |].
    destruct (m !! n) as [c |]; simpl; [apply IH | done].
Qed.

Lemma lookup_app p q e : lookup (p ++ q) e = lookup p e ≫= lookup q.
Proof.
  revert e. induction p as [| n p IH]; intros e; simpl; [done |].
  destruct e as [doc | m]; [done |].
  destruct (m !! n) as [c |]; simpl; [apply IH | done].
Qed.

Lemma lookup_in_empty p : p ≠ [] → lookup p (Dir ∅) = None.
Proof. destruct p as [| n p]; [done |]. intros _. simpl. by rewrite lookup_empty. Qed.


(** ** Paths that part ways *)

Lemma diverge_nonempty p q : diverge p q = true → p ≠ [] ∧ q ≠ [].
Proof. by destruct p, q. Qed.

Lemma diverge_sym p q : diverge p q = diverge q p.
Proof.
  revert q. induction p as [| a p IH]; intros [| b q]; simpl; try done.
  rewrite (String.eqb_sym a b). by rewrite IH.
Qed.

Lemma diverge_irrefl p : diverge p p = false.
Proof. induction p as [| a p IH]; [done |]. simpl. by rewrite String.eqb_refl. Qed.

Lemma diverge_app p q r s :
  diverge p q = true → diverge (p ++ r) (q ++ s) = true.
Proof.
  revert q. induction p as [| a p IH]; intros [| b q]; simpl; try done.
  destruct (String.eqb a b); [apply IH | done].
Qed.

Lemma diverge_last p n n' : n ≠ n' → diverge (p ++ [n]) (p ++ [n']) = true.
Proof.
  intros Hne. induction p as [| a p IH]; simpl.
  - by apply String.eqb_neq in Hne as ->.
  - by rewrite String.eqb_refl.
Qed.

Lemma diverge_not_prefix p q : diverge p q = true → ¬ p `prefix_of` q.
Proof.
  intros Hd [k ->]. revert Hd. induction p as [| a p IH]; simpl; [done |].
  by rewrite String.eqb_refl.
Qed.

Lemma diverge_ne p q : diverge p q = true → p ≠ q.
Proof. intros Hd ->. by rewrite diverge_irrefl in Hd. Qed.

(** ** Rewriting one slot *)

Lemma palter_cons_cons f n n' p m :
  palter f (n :: n' :: p) (Dir m) = Dir (alter (palter f (n' :: p)) n m).
Proof. reflexivity. Qed.

(** A slot on a path that parts ways with [p] is not touched. *)
Lemma lookup_palter_diverge f p q e :
  diverge p q = true → lookup q (palter f p e) = lookup q e.
Proof.
  revert q e. induction p as [| a p IH]; intros [| b q] e; try done.
  simpl diverge. destruct (String.eqb_spec a b) as [<- | Hne]; intros Hd.
  - destruct e as [doc | m]; [done |]. destruct p as [| a' p]; [done |].
    rewrite palter_cons_cons. simpl lookup. rewrite lookup_alter_eq.
    destruct (m !! a) as [c |]; simpl; [by apply IH | done].
  - destruct e as [doc | m]; [done |]. destruct p as [| a' p].
    + simpl. by rewrite lookup_partial_alter_ne.
    + rewrite palter_cons_cons. simpl lookup. by rewrite lookup_alter_ne.
Qed.

(** The slot itself, when the directory that holds it is there. *)
Lemma lookup_palter_last f p n e m :
  lookup p e = Some (Dir m) →
  lookup (p ++ [n]) (palter f (p ++ [n]) e) = f (m !! n).
Proof.
  revert e. induction p as [| a p IH]; intros e.
  - intros [= ->]. simpl. rewrite lookup_partial_alter_eq.
    by destruct (f (m !! n)).
  - destruct e as [doc | m0]; [done |]. simpl lookup at 1.
    destruct (m0 !! a) as [c |] eqn:Ha; [simpl | done]. intros Hc.
    change ((a :: p) ++ [n]) with (a :: (p ++ [n])).
    destruct (p ++ [n]) as [| a' p'] eqn:Hp; [by destruct p |].
    rewrite ?palter_cons_cons. simpl lookup. rewrite lookup_alter_eq, Ha.
    simpl. by apply IH.
Qed.

(** The directory that holds the slot stays a directory. *)
Lemma lookup_palter_parent f p n e m :
  lookup p e = Some (Dir m) →
  lookup p (palter f (p ++ [n]) e) = Some (Dir (partial_alter f n m)).
Proof.
  revert e. induction p as [| a p IH]; intros e.
  - by intros [= ->].
  - destruct e as [doc | m0]; [done |]. simpl lookup at 1.
    destruct (m0 !! a) as [c |] eqn:Ha; [simpl | done]. intros Hc.
    change ((a :: p) ++ [n]) with (a :: (p ++ [n])).
    destruct (p ++ [n]) as [| a' p'] eqn:Hp; [by destruct p |].
    rewrite ?palter_cons_cons. simpl lookup. rewrite lookup_alter_eq, Ha.
    simpl. by apply IH.
Qed.

(** ** [os.makedirs] *)

Lemma makedirs_cons n p m e' :
  makedirs (n :: p) (Dir m) = Ok e' ↔
  ∃ c, makedirs p (default (Dir ∅) (m !! n)) = Ok c ∧ e' = Dir (<[n := c]> m).
Proof.
  simpl. rewrite result_bind_Ok. split.
  - intros (c & Hc & [= <-]). eauto.
  - intros (c & Hc & ->). eauto.
Qed.

(** Paths that part ways with the new directories keep what they
    have. *)
Lemma makedirs_diverge_lookup p q e e' :
  diverge p q = true → makedirs p e = Ok e' → lookup q e' = lookup q e.
Proof.
  revert q e e'. induction p as [| a p IH]; intros [| b q] e e'; try done.
  simpl diverge. destruct e as [doc | m]; [done |].
  intros Hd (c & Hc & ->)%makedirs_cons. simpl.
  destruct (String.eqb_spec a b) as [<- | Hne].
  - rewrite lookup_insert_eq. simpl. rewrite (IH _ _ _ Hd Hc).
    destruct (m !! a); simpl; [done |].
    apply lookup_in_empty. by apply diverge_nonempty in Hd as [_ ?].
  - by rewrite lookup_insert_ne.
Qed.


(** What is below the directory stays. *)
Lemma makedirs_below p q e e' :
  q ≠ [] → makedirs p e = Ok e' → lookup (p ++ q) e' = lookup (p ++ q) e.
Proof.
  intros Hq. revert e e'. induction p as [| a p IH]; intros e e'.
  - simpl. destruct e; [done |]. by intros [= <-].
  - destruct e as [doc | m]; [done |].
    intros (c & Hc & ->)%makedirs_cons. simpl.
    rewrite lookup_insert_eq. simpl. rewrite (IH _ _ Hc).
    destruct (m !! a); simpl; [done |].
    apply lookup_in_empty. by destruct p.
Qed.

(** The directory is there afterwards. *)
Lemma makedirs_dir p e e' :
  makedirs p e = Ok e' → ∃ m, lookup p e' = Some (Dir m).
Proof.
  revert e e'. induction p as [| a p IH]; intros e e'.
  - simpl. destruct e as [doc | m]; [done |]. intros [= <-]. eauto.
  - destruct e as [doc | m]; [done |].
    intros (c & Hc & ->)%makedirs_cons. simpl.
    rewrite lookup_insert_eq. simpl. by eapply IH.
Qed.

(** It is empty when it was not there before. *)
Lemma makedirs_fresh p e e' :
  lookup p e = None → makedirs p e = Ok e' → lookup p e' = Some (Dir ∅).
Proof.
  assert (∀ p c, makedirs p (Dir ∅) = Ok c → lookup p c = Some (Dir ∅)) as Hempty.
  { intros q. induction q as [| b q IHq]; intros c.
    - by intros [= <-].
    - intros (c' & Hc' & ->)%makedirs_cons. simpl.
      rewrite lookup_insert_eq. simpl. rewrite lookup_empty in Hc'. by apply IHq. }
  revert e e'. induction p as [| a p IH]; intros e e'; [done |].
  destruct e as [doc | m]; [done |]. simpl lookup at 1.
  intros Hnone (c & Hc & ->)%makedirs_cons. simpl.
  rewrite lookup_insert_eq. simpl.
  destruct (m !! a) as [c0 |]; simpl in *; [by eapply IH | by apply Hempty].
Qed.

(** Nothing happens when it was there. *)
Lemma makedirs_existing p e m : lookup p e = Some (Dir m) → makedirs p e = Ok e.
Proof.
  revert e. induction p as [| a p IH]; intros e.
  - by intros [= ->].
  - destruct e as [doc | m0]; [done |]. simpl lookup.
    destruct (m0 !! a) as [c |] eqn:Ha; [simpl | done]. intros Hc.
    apply makedirs_cons. exists c. rewrite Ha. simpl.
    split; [by apply IH | by rewrite insert_id].
Qed.

(** ** [os.rename] of a name from one directory into another *)

Lemma rename_into src dst n e x md :
  diverge src dst = true →
  lookup (src ++ [n]) e = Some x →
  lookup dst e = Some (Dir md) →
  rename (src ++ [n]) (dst ++ [n]) e = Ok (put (dst ++ [n]) x (remove (src ++ [n]) e))
  ∨ ∃ err, rename (src ++ [n]) (dst ++ [n]) e = Raise err ∧ err ≠ FileNotFoundError.
Proof.
  intros Hd Hx Hdst. unfold rename.
  apply stat_Ok in Hx as Hstat. rewrite Hstat. simpl.
  pose proof (diverge_app _ _ [n] [n] Hd) as Hd'.
  rewrite decide_False by (by apply diverge_ne).
  rewrite decide_False by (by apply diverge_not_prefix).
  unfold parent. rewrite removelast_last.
  apply stat_Ok in Hdst as ->. simpl.
  destruct (lookup (dst ++ [n]) e) as [[doc | m] |], x as [doc' | m'];
    try (by left); try (right; eexists; split; [reflexivity | done]).
  destruct (decide (m = ∅)); [by left |].
  right; eexists; split; [reflexivity | done].
Qed.

(** The tree after such a move. *)
Lemma moved_lookup src dst n e x md ms :
  diverge src dst = true →
  lookup src e = Some (Dir ms) →
  lookup dst e = Some (Dir md) →
  let e' := put (dst ++ [n]) x (remove (src ++ [n]) e) in
  lookup (dst ++ [n]) e' = Some x ∧
  lookup (src ++ [n]) e' = None ∧
  lookup src e' = Some (Dir (delete n ms)) ∧
  lookup dst e' = Some (Dir (<[n := x]> md)).
Proof.
  intros Hd Hsrc Hdst e'. subst e'. unfold put, remove.
  pose proof (diverge_app _ _ [n] [n] Hd) as Hd'.
  assert (lookup dst (palter (λ _, None) (src ++ [n]) e) = Some (Dir md)) as Hdst'.
  { rewrite lookup_palter_diverge; [done |].
    rewrite <- (app_nil_r dst). by apply diverge_app. }
  repeat split.
  - by rewrite (lookup_palter_last _ _ _ _ md).
  - rewrite lookup_palter_diverge by (by rewrite diverge_sym).
    by rewrite (lookup_palter_last _ _ _ _ ms).
  - rewrite lookup_palter_diverge.
    + by rewrite (lookup_palter_parent _ _ _ _ ms).
    + rewrite diverge_sym, <- (app_nil_r src). by apply diverge_app.
  - by rewrite (lookup_palter_parent _ _ _ _ md).
Qed.

(** A path that led nowhere leads nowhere after [os.makedirs], unless it
    lies on the path that was made: then it leads to a directory that
    holds nothing but the next component of that path. *)
Lemma makedirs_fresh_stat p c q :
  makedirs p (Dir ∅) = Ok c →
  stat q c = Raise FileNotFoundError
  ∨ ∃ m, stat q c = Ok (Dir m) ∧ q `prefix_of` p ∧
         ∀ n, is_Some (m !! n) → (q ++ [n]) `prefix_of` p.
Proof.
  revert c q. induction p as [| a p IH]; intros c q.
  - intros [= <-]. destruct q as [| b q]; [| by left].
    right. exists ∅. split; [done |]. split; [done |].
    intros n [x Hx]. by rewrite lookup_empty in Hx.
  - intros (c' & Hc' & ->)%makedirs_cons. rewrite lookup_empty in Hc'.
    simpl in Hc'. destruct q as [| b q].
    + right. eexists. split; [done |]. split; [apply prefix_nil |].
      intros n [x Hx]. apply lookup_insert_Some in Hx as [[<- _] | [_ Hx]].
      * apply prefix_cons, prefix_nil.
      * by rewrite lookup_empty in Hx.
    + simpl. destruct (decide (a = b)) as [<- | Hne].
      * rewrite lookup_insert_eq.
        destruct (IH _ q Hc') as [-> | (m & -> & Hq & Hm)]; [by left |].
        right. exists m. split; [done |]. split; [by apply prefix_cons |].
        intros n Hn. simpl. by apply prefix_cons, Hm.
      * rewrite lookup_insert_ne, lookup_empty by done. by left.
Qed.

Lemma makedirs_stat_absent p q e e' :
  stat q e = Raise FileNotFoundError → makedirs p e = Ok e' →
  stat q e' = Raise FileNotFoundError
  ∨ ∃ m, stat q e' = Ok (Dir m) ∧ q `prefix_of` p ∧
         ∀ n, is_Some (m !! n) → (q ++ [n]) `prefix_of` p.
Proof.
  revert q e e'. induction p as [| a p IH]; intros q e e' Hq.
  - destruct e as [doc | m]; [done |]. intros [= <-]. by left.
  - destruct e as [doc | m0]; [done |].
    intros (c & Hc & ->)%makedirs_cons.
    destruct q as [| b q]; [done |]. simpl in *.
    destruct (decide (a = b)) as [<- | Hne].
    + rewrite lookup_insert_eq.
      assert (stat q c = Raise FileNotFoundError
              ∨ ∃ m, stat q c = Ok (Dir m) ∧ q `prefix_of` p ∧
                     ∀ n, is_Some (m !! n) → (q ++ [n]) `prefix_of` p) as Hcase.
      { destruct (m0 !! a) as [x |]; simpl in Hc.
        - by apply (IH q x c).
        - by apply makedirs_fresh_stat. }
      destruct Hcase as [-> | (m & -> & Hpre & Hm)]; [by left |].
      right. exists m. split; [done |]. split; [by apply prefix_cons |].
      intros n Hn. by apply prefix_cons, Hm.
    + rewrite lookup_insert_ne by done. by left.
Qed.

(** [os.makedirs] goes through when no file stands on the path. *)
Lemma makedirs_no_file p e :
  Whole.no_file_on p e = true → ∃ e', makedirs p e = Ok e'.
Proof.
  revert e. induction p as [| n p IH]; intros [doc | m]; simpl; try done.
  - eauto.
  - intros H.
    assert (Whole.no_file_on p (default (Dir ∅) (m !! n)) = true) as Hc.
    { destruct (m !! n); [done |]. by destruct p. }
    destruct (IH _ Hc) as [c ->]. simpl. eauto.
Qed.

Lemma makedirs_Ok_no_file p e e' :
  makedirs p e = Ok e' → Whole.no_file_on p e = true.
Proof.
  revert e e'. induction p as [| n p IH]; intros [doc | m] e'; simpl; try done.
  intros (c & Hc & _)%result_bind_Ok. apply IH in Hc.
  destruct (m !! n); [done |]. done.
Qed.

(** The move goes through when the entry can replace what is there. *)
Lemma rename_replaceable src dst n e x md :
  diverge src dst = true →
  lookup (src ++ [n]) e = Some x →
  lookup dst e = Some (Dir md) →
  Whole.replaceable x (md !! n) = true →
  rename (src ++ [n]) (dst ++ [n]) e = Ok (put (dst ++ [n]) x (remove (src ++ [n]) e)).
Proof.
  intros Hd Hx Hdst Hrep. unfold rename.
  apply stat_Ok in Hx as Hstat. rewrite Hstat. simpl.
  pose proof (diverge_app _ _ [n] [n] Hd) as Hd'.
  rewrite decide_False by (by apply diverge_ne).
  rewrite decide_False by (by apply diverge_not_prefix).
  unfold parent. rewrite removelast_last.
  rewrite lookup_app, Hdst. simpl.
  apply stat_Ok in Hdst as ->. simpl.
  destruct (md !! n) as [[doc | m] |], x as [doc' | m']; simpl in *; try done.
  apply bool_decide_eq_true in Hrep. by rewrite decide_True.
Qed.

(** ** Paths written with slashes *)

Lemma split_chr_app sep a b :
  split_chr sep (a +:+ String sep b) = split_chr sep a ++ split_chr sep b.
Proof.
  induction a as [| c a IH].
  - change ("" +:+ String sep b) with (String sep b). simpl.
    by rewrite Ascii.eqb_refl.
  - change (String c a +:+ String sep b) with (String c (a +:+ String sep b)).
    simpl. rewrite IH. destruct (Ascii.eqb c sep); [done |].
    destruct (split_chr sep a) as [| h t] eqn:Hs; [| done].
    by destruct (split_chr_pieces sep a) as [? _].
Qed.

Example parse_dots_and_slashes :
  parse "./web//static/./web/js/" = ["web"; "static"; "web"; "js"].
Proof. reflexivity. Qed.

Lemma parse_app a b : parse (a +:+ String "/" b) = parse a ++ parse b.
Proof. unfold parse. by rewrite split_chr_app, filter_app. Qed.

Lemma parse_category ty : ty ∈ Whole.categories → parse ty = [ty].
Proof.
  intros Hty. unfold Whole.categories in Hty.
  repeat (apply elem_of_cons in Hty as [-> | Hty]; [done |]).
  by apply elem_of_nil in Hty.
Qed.

End FsFacts.

(* ===================================================================== *)
(** * Facts about statements *)
(* ===================================================================== *)

Section StatementFacts.
Import Py Soup Fs Importer.

Variable reread : soup → soup.

Lemma for_app {A} (l1 l2 : list A) (body : A → M unit) w :
  for_ (l1 ++ l2) body w =
    match for_ l1 body w with
    | (w', Ok _) => for_ l2 body w'
    | (w', Raise e) => (w', Raise e)
    end.
Proof.
  revert w. induction l1 as [| x l1 IH]; intros w; [done |].
  simpl. unfold mbind, M_bind. destruct (body x w) as [w' [[] | e]]; [| done].
  apply IH.
Qed.

Lemma update_html_raises p app w d e :
  read p (fs w) = Ok d → Rewriter.rewrite app d = Raise e →
  update_html reread p app w = (w, Raise e).
Proof.
  intros Hread Hrw. unfold update_html, mbind, M_bind, of_fs.
  by rewrite Hread, Hrw.
Qed.

Lemma bind_Ok {A B} (m : M A) (k : A → M B) w w1 a :
  m w = (w1, Ok a) → (m ≫= k) w = k a w1.
Proof. intros H. unfold mbind, M_bind. by rewrite H. Qed.

Lemma bind_Raise {A B} (m : M A) (k : A → M B) w w1 e :
  m w = (w1, Raise e) → (m ≫= k) w = (w1, Raise e).
Proof. intros H. unfold mbind, M_bind. by rewrite H. Qed.

Lemma names_elem (m : gmap string entry) n : n ∈ names m ↔ is_Some (m !! n).
Proof.
  unfold names. rewrite list_elem_of_fmap. split.
  - intros ([n' x] & -> & Hin). apply elem_of_map_to_list in Hin. eauto.
  - intros [x Hx]. exists (n, x). split; [done |]. by apply elem_of_map_to_list.
Qed.

Lemma names_NoDup (m : gmap string entry) : NoDup (names m).
Proof. apply NoDup_fst_map_to_list. Qed.

Lemma move_one_Ok ty src dest n w e' l :
  rename (src ++ [n]) (parse dest ++ [n]) (fs w) = Ok e' →
  static_files (self w) !! ty = Some l →
  move_one ty src dest n w =
    ({| fs := e';
        self := {| html_paths := html_paths (self w);
                   static_files := <[ty := l ++ [n]]> (static_files (self w)) |};
        stdout := stdout w ++ [moved_notice ty n (dest +:+ n)] |}, Ok ()).
Proof.
  intros Hmv Hl. unfold move_one, join, mbind, M_bind, on_fs, print, record_static.
  rewrite Hmv. cbn [fs self stdout]. by rewrite Hl.
Qed.

Lemma move_one_Raise ty src dest n w err :
  rename (src ++ [n]) (parse dest ++ [n]) (fs w) = Raise err →
  move_one ty src dest n w = (w, Raise err).
Proof.
  intros Hmv. unfold move_one, join, mbind, M_bind, on_fs. by rewrite Hmv.
Qed.

Lemma for_cons {A} (x : A) l (body : A → M unit) :
  for_ (x :: l) body = (body x ≫= λ _, for_ l body).
Proof. reflexivity. Qed.

(** The loop of [move_static_file] on names of the source directory:
    it raises something other than [FileNotFoundError], or it moves
    every name and records it. *)
Lemma move_loop ty src dest files :
  NoDup files → diverge src (parse dest) = true →
  ∀ w ms md l w' r,
    lookup src (fs w) = Some (Dir ms) →
    lookup (parse dest) (fs w) = Some (Dir md) →
    (∀ n, n ∈ files → is_Some (ms !! n)) →
    static_files (self w) !! ty = Some l →
    for_ files (move_one ty src dest) w = (w', r) →
    match r with
    | Raise e => e ≠ FileNotFoundError
    | Ok _ =>
        ∃ ms' md',
          lookup src (fs w') = Some (Dir ms') ∧
          lookup (parse dest) (fs w') = Some (Dir md') ∧
          (∀ n, n ∈ files → ms' !! n = None ∧ md' !! n = ms !! n) ∧
          (∀ n, n ∉ files → ms' !! n = ms !! n ∧ md' !! n = md !! n) ∧
          static_files (self w') !! ty = Some (l ++ files)
    end.
Proof.
  intros Hnodup Hd. induction files as [| n files IH];
    intros w ms md l w' r Hsrc Hdst Hin Hl.
  - intros [= <- <-]. exists ms, md. rewrite app_nil_r.
    split; [done |]. split; [done |]. split; [| done].
    by intros n ?%elem_of_nil.
  - apply NoDup_cons in Hnodup as [Hn Hnodup].
    destruct (Hin n) as [x Hx]; [by left |].
    assert (lookup (src ++ [n]) (fs w) = Some x) as Hfile.
    { rewrite lookup_app, Hsrc. simpl. by rewrite Hx. }
    rewrite for_cons.
    destruct (rename_into src (parse dest) n (fs w) x md Hd Hfile Hdst)
      as [Hmv | (err & Hmv & Herr)].
    + pose proof (moved_lookup src (parse dest) n (fs w) x md ms Hd Hsrc Hdst)
        as (_ & _ & Hsrc1 & Hdst1).
      rewrite (bind_Ok _ _ _ _ _ (move_one_Ok _ _ _ _ _ _ _ Hmv Hl)).
      intros Hrest.
      eapply (IH Hnodup _ (delete n ms) (<[n := x]> md) (l ++ [n])) in Hrest;
        [| done | done | |].
      * destruct r as [[] | e]; [| done].
        destruct Hrest as (ms' & md' & H1 & H2 & H3 & H4 & H5).
        exists ms', md'. split; [done |]. split; [done |].
        split; [| split].
        -- intros n' [-> | H]%elem_of_cons.
           ++ destruct (H4 n Hn) as [-> ->].
              by rewrite lookup_delete_eq, lookup_insert_eq.
           ++ destruct (H3 _ H) as [-> ->].
              rewrite lookup_delete_ne; [done |]. by intros ->.
        -- intros n' [Hne H]%not_elem_of_cons.
           destruct (H4 _ H) as [-> ->].
           by rewrite lookup_delete_ne, lookup_insert_ne.
        -- by rewrite H5, <- app_assoc.
      * intros n' Hn'. rewrite lookup_delete_ne; [apply Hin; by right |].
        by intros ->.
      * cbn [self static_files]. by rewrite lookup_insert_eq.
    + rewrite (bind_Raise _ _ _ _ _ (move_one_Raise _ _ _ _ _ _ Hmv)).
      by intros [= <- <-].
Qed.

(** ** Reading and writing a document *)

Lemma path_last_split (p : path) : p ≠ [] → ∃ n, p = parent p ++ [n].
Proof.
  intros Hp. destruct (list_last_split p Hp) as (q & n & ->).
  exists n. unfold parent. by rewrite removelast_last.
Qed.

Lemma write_Ok p d e e' :
  write p d e = Ok e' →
  ∃ n m, p = parent p ++ [n] ∧ lookup (parent p) e = Some (Dir m) ∧
         e' = put p (File d) e.
Proof.
  unfold write. intros (x & Hstat & Hw)%result_bind_Ok.
  destruct x as [doc | m]; [done |]. apply stat_Ok in Hstat.
  destruct (decide (p = [])) as [-> | Hne].
  { simpl in *. injection Hstat as ->. done. }
  destruct (path_last_split p Hne) as [n Hn]. exists n, m.
  split; [done |]. split; [done |].
  destruct (lookup p e) as [[doc | m'] |]; congruence.
Qed.

(** What was written is what is read, and the file can be written
    again. *)
Lemma write_read p d e e' : write p d e = Ok e' → read p e' = Ok d.
Proof.
  intros (n & m & Hp & Hdir & ->)%write_Ok.
  unfold read. replace (stat p (put p (File d) e)) with (Ok (File d)); [done |].
  symmetry. apply stat_Ok.
  remember (parent p) as q eqn:Hq. clear Hq. subst p. unfold put.
  by rewrite (lookup_palter_last _ _ _ _ m).
Qed.

Lemma write_again p d d2 e e' :
  write p d e = Ok e' → ∃ e'', write p d2 e' = Ok e''.
Proof.
  intros Hw. pose proof (write_read _ _ _ _ Hw) as Hr.
  destruct (write_Ok _ _ _ _ Hw) as (n & m & Hp & Hdir & ->).
  unfold write.
  assert (lookup (parent p) (put p (File d) e)
          = Some (Dir (partial_alter (λ _, Some (File d)) n m))) as Hparent.
  { remember (parent p) as q eqn:Hq. clear Hq. subst p. unfold put.
    by apply lookup_palter_parent. }
  apply stat_Ok in Hparent as ->. simpl.
  unfold read in Hr. apply result_bind_Ok in Hr as (x & Hx & Hfile).
  apply stat_Ok in Hx as ->. destruct x; [eauto | done].
Qed.

Lemma update_html_Ok p app w w' :
  update_html reread p app w = (w', Ok ()) ↔
  ∃ d d' e', read p (fs w) = Ok d ∧ Rewriter.rewrite app d = Ok d' ∧
    write p (reread d') (fs w) = Ok e' ∧
    w' = {| fs := e'; self := self w; stdout := stdout w |}.
Proof.
  unfold update_html, mbind, M_bind, of_fs, on_fs. split.
  - destruct (read p (fs w)) as [d | e] eqn:Hr; [| done].
    destruct (Rewriter.rewrite app d) as [d' | e] eqn:Hd; [| done].
    destruct (write p (reread d') (fs w)) as [e' | e] eqn:Hw; [| done].
    intros [= <-]. by exists d, d', e'.
  - intros (d & d' & e' & -> & -> & -> & ->). done.
Qed.

(** [move_static_file] after its first statement. *)
Lemma move_static_file_makedirs_Raise wd app ty w e :
  makedirs (parse (dest_static_dir app ty)) (fs w) = Raise e →
  move_static_file wd app ty w = (w, Raise e).
Proof.
  intros Hmk. unfold move_static_file. apply bind_Raise.
  unfold on_fs. by rewrite Hmk.
Qed.

Lemma move_static_file_makedirs_Ok wd app ty w fs1 :
  makedirs (parse (dest_static_dir app ty)) (fs w) = Ok fs1 →
  move_static_file wd app ty w =
    try_except_FileNotFoundError
      (files ← of_fs (listdir (source_static_dir wd ty));
       for_ files (move_one ty (source_static_dir wd ty) (dest_static_dir app ty)))
      (print (skipped_notice ty))
      {| fs := fs1; self := self w; stdout := stdout w |}.
Proof.
  intros Hmk. unfold move_static_file.
  erewrite bind_Ok; [done |]. unfold on_fs. by rewrite Hmk.
Qed.

(** The phase when the source directory is not there once the
    destination is made. *)
Lemma move_static_file_skips wd app ty w fs1 :
  makedirs (parse (dest_static_dir app ty)) (fs w) = Ok fs1 →
  stat (source_static_dir wd ty) fs1 = Raise FileNotFoundError →
  move_static_file wd app ty w =
    ({| fs := fs1; self := self w; stdout := stdout w ++ [skipped_notice ty] |},
     Ok ()).
Proof.
  intros Hmk Hsrc. rewrite (move_static_file_makedirs_Ok _ _ _ _ _ Hmk).
  unfold try_except_FileNotFoundError.
  set (w1 := {| fs := fs1; self := self w; stdout := stdout w |}).
  assert (of_fs (listdir (source_static_dir wd ty)) w1
          = (w1, Raise FileNotFoundError)) as Hls.
  { unfold of_fs, listdir. cbn [fs w1]. by rewrite Hsrc. }
  by rewrite (bind_Raise _ _ _ _ _ Hls).
Qed.

(** The phase when the source directory is not there and does not lie on
    the path of the destination. *)
Lemma move_static_file_absent wd app ty w fs1 :
  stat (source_static_dir wd ty) (fs w) = Raise FileNotFoundError →
  ¬ source_static_dir wd ty `prefix_of` parse (dest_static_dir app ty) →
  makedirs (parse (dest_static_dir app ty)) (fs w) = Ok fs1 →
  move_static_file wd app ty w =
    ({| fs := fs1; self := self w; stdout := stdout w ++ [skipped_notice ty] |},
     Ok ()).
Proof.
  intros Hsrc Hd Hmk. apply move_static_file_skips; [done |].
  destruct (makedirs_stat_absent _ _ _ _ Hsrc Hmk) as [H | (m & _ & Hpre & _)];
    [done | by destruct Hd].
Qed.

(** The tree after the phase when the source directory is not there:
    the one [os.makedirs] left, wherever the source path lies. *)
Lemma move_static_file_absent_tree wd app ty w fs1 :
  stat (source_static_dir wd ty) (fs w) = Raise FileNotFoundError →
  makedirs (parse (dest_static_dir app ty)) (fs w) = Ok fs1 →
  fs (move_static_file wd app ty w).1 = fs1.
Proof.
  intros Hsrc Hmk.
  destruct (makedirs_stat_absent _ _ _ _ Hsrc Hmk) as [H | (m & Hm & Hpre & Hnames)].
  { by rewrite (move_static_file_skips _ _ _ _ _ Hmk H). }
  rewrite (move_static_file_makedirs_Ok _ _ _ _ _ Hmk).
  unfold try_except_FileNotFoundError.
  set (src := source_static_dir wd ty) in *.
  set (dst := parse (dest_static_dir app ty)) in *.
  set (w1 := {| fs := fs1; self := self w; stdout := stdout w |}).
  assert (of_fs (listdir src) w1 = (w1, Ok (names m))) as Hls.
  { unfold of_fs, listdir. cbn [fs w1]. by rewrite Hm. }
  rewrite (bind_Ok _ _ _ _ _ Hls).
  destruct (names m) as [| n rest] eqn:Hn; [done |].
  assert (is_Some (m !! n)) as [x Hx].
  { apply names_elem. rewrite Hn. by left. }
  assert (rename (src ++ [n]) (dst ++ [n]) fs1 = Raise OSError) as Hmv.
  { unfold rename.
    assert (stat (src ++ [n]) fs1 = Ok x) as ->.
    { apply stat_Ok. apply stat_Ok in Hm. rewrite lookup_app, Hm. simpl.
      by rewrite Hx. }
    simpl. pose proof (Hnames n (mk_is_Some _ _ Hx)) as Hon.
    rewrite decide_False.
    - rewrite decide_True; [done |]. by apply prefix_app_r.
    - intros Heq. apply prefix_length in Hon.
      apply (f_equal length) in Heq. rewrite !length_app in *. simpl in *. lia. }
  pose proof (move_one_Raise ty src (dest_static_dir app ty) n w1 OSError Hmv)
    as Hone.
  by rewrite for_cons, (bind_Raise _ _ _ _ _ Hone).
Qed.

(** The phase when the source directory is there and the phase returns. *)
Lemma move_static_file_present wd app ty w w' m l :
  diverge (source_static_dir wd ty) (parse (dest_static_dir app ty)) = true →
  lookup (source_static_dir wd ty) (fs w) = Some (Dir m) →
  static_files (self w) !! ty = Some l →
  move_static_file wd app ty w = (w', Ok ()) →
  ∃ ms' md',
    lookup (source_static_dir wd ty) (fs w') = Some (Dir ms') ∧
    lookup (parse (dest_static_dir app ty)) (fs w') = Some (Dir md') ∧
    (∀ n, n ∈ names m → ms' !! n = None ∧ md' !! n = m !! n) ∧
    static_files (self w') !! ty = Some (l ++ names m).
Proof.
  intros Hd Hsrc Hl Hrun.
  destruct (makedirs (parse (dest_static_dir app ty)) (fs w)) as [fs1 | e] eqn:Hmk.
  2: { by rewrite (move_static_file_makedirs_Raise _ _ _ _ _ Hmk) in Hrun. }
  rewrite (move_static_file_makedirs_Ok _ _ _ _ _ Hmk) in Hrun.
  destruct (makedirs_dir _ _ _ Hmk) as [md Hdst1].
  assert (lookup (source_static_dir wd ty) fs1 = Some (Dir m)) as Hsrc1.
  { rewrite (makedirs_diverge_lookup _ _ _ _ ltac:(by rewrite diverge_sym) Hmk).
    done. }
  set (w1 := {| fs := fs1; self := self w; stdout := stdout w |}) in *.
  unfold try_except_FileNotFoundError in Hrun.
  assert (of_fs (listdir (source_static_dir wd ty)) w1 = (w1, Ok (names m)))
    as Hls.
  { unfold of_fs, listdir. cbn [fs w1]. apply stat_Ok in Hsrc1 as ->. done. }
  rewrite (bind_Ok _ _ _ _ _ Hls) in Hrun.
  destruct (for_ (names m) _ w1) as [w2 r] eqn:Hloop.
  eapply (move_loop ty _ _ _ (names_NoDup m) Hd w1 m md l) in Hloop;
    [| done | done | by intros n ?%names_elem | done].
  destruct r as [[] | e].
  - injection Hrun as <-.
    destruct Hloop as (ms' & md' & H1 & H2 & H3 & _ & H5). eauto 10.
  - by destruct e.
Qed.

(** The destination of a category, component by component. *)
Lemma parse_dest_static_dir app ty :
  ty ∈ Whole.categories →
  parse (dest_static_dir app ty) = parse app ++ "static" :: parse app ++ [ty].
Proof.
  intros Hty.
  change (dest_static_dir app ty)
    with (app +:+ String "/" ("static" +:+ String "/"
            (app +:+ String "/" (ty +:+ String "/" "")))).
  rewrite !parse_app, (parse_category _ Hty).
  change (parse "static") with ["static"]. change (parse "") with (@nil string).
  done.
Qed.

Lemma source_static_dir_category wd ty :
  ty ∈ Whole.categories → source_static_dir wd ty = wd ++ [ty].
Proof. intros Hty. unfold source_static_dir. by rewrite (parse_category _ Hty). Qed.

(** The loop of [move_static_file] returns when every entry can replace
    what the destination has under its name. *)
Lemma move_loop_returns ty src dest files :
  NoDup files → diverge src (parse dest) = true →
  ∀ w ms md l,
    lookup src (fs w) = Some (Dir ms) →
    lookup (parse dest) (fs w) = Some (Dir md) →
    (∀ n, n ∈ files →
       ∃ x, ms !! n = Some x ∧ Whole.replaceable x (md !! n) = true) →
    static_files (self w) !! ty = Some l →
    ∃ w', for_ files (move_one ty src dest) w = (w', Ok ()).
Proof.
  intros Hnodup Hd. induction files as [| n files IH]; intros w ms md l Hsrc Hdst Hin Hl.
  - by exists w.
  - apply NoDup_cons in Hnodup as [Hn Hnodup].
    destruct (Hin n) as (x & Hx & Hrep); [by left |].
    assert (lookup (src ++ [n]) (fs w) = Some x) as Hfile.
    { rewrite lookup_app, Hsrc. simpl. by rewrite Hx. }
    pose proof (rename_replaceable src (parse dest) n (fs w) x md Hd Hfile Hdst Hrep)
      as Hmv.
    pose proof (moved_lookup src (parse dest) n (fs w) x md ms Hd Hsrc Hdst)
      as (_ & _ & Hsrc1 & Hdst1).
    rewrite for_cons, (bind_Ok _ _ _ _ _ (move_one_Ok _ _ _ _ _ _ _ Hmv Hl)).
    eapply (IH Hnodup _ (delete n ms) (<[n := x]> md) (l ++ [n])); [done | done | |].
    + intros n' Hn'. assert (n ≠ n') as Hne by (by intros ->).
      rewrite lookup_delete_ne, lookup_insert_ne by done.
      apply Hin. by right.
    + cbn [self static_files]. by rewrite lookup_insert_eq.
Qed.

(** The phase returns when the destination can be made and every entry
    of the source directory can replace what the destination has under
    its name. *)
Lemma move_static_file_returns wd app ty w m l :
  diverge (source_static_dir wd ty) (parse (dest_static_dir app ty)) = true →
  Whole.no_file_on (parse (dest_static_dir app ty)) (fs w) = true →
  lookup (source_static_dir wd ty) (fs w) = Some (Dir m) →
  (∀ n x, m !! n = Some x →
     Whole.replaceable x (lookup (parse (dest_static_dir app ty) ++ [n]) (fs w))
     = true) →
  static_files (self w) !! ty = Some l →
  ∃ w', move_static_file wd app ty w = (w', Ok ()).
Proof.
  intros Hd Hfree Hsrc Hrep Hl.
  destruct (makedirs_no_file _ _ Hfree) as [fs1 Hmk].
  rewrite (move_static_file_makedirs_Ok _ _ _ _ _ Hmk).
  destruct (makedirs_dir _ _ _ Hmk) as [md Hdst1].
  assert (lookup (source_static_dir wd ty) fs1 = Some (Dir m)) as Hsrc1.
  { rewrite (makedirs_diverge_lookup _ _ _ _ ltac:(by rewrite diverge_sym) Hmk).
    done. }
  set (w1 := {| fs := fs1; self := self w; stdout := stdout w |}).
  unfold try_except_FileNotFoundError.
  assert (of_fs (listdir (source_static_dir wd ty)) w1 = (w1, Ok (names m)))
    as Hls.
  { unfold of_fs, listdir. cbn [fs w1]. apply stat_Ok in Hsrc1 as ->. done. }
  rewrite (bind_Ok _ _ _ _ _ Hls).
  destruct (move_loop_returns ty _ _ _ (names_NoDup m) Hd w1 m md l)
    as [w2 ->]; [done | done | | done | eauto].
  intros n [x Hx]%names_elem. exists x. split; [done |].
  rewrite <- (Hrep _ _ Hx). f_equal.
  rewrite <- (makedirs_below _ [n] _ _ ltac:(done) Hmk).
  rewrite lookup_app, Hdst1. simpl. by destruct (md !! n).
Qed.

End StatementFacts.

(* ===================================================================== *)
(** * Properties of the importer *)
(* ===================================================================== *)

Import Py Soup Spec Rewriter.

Lemma has_data_for_true nm a v :
  nm ∈ ["div"; "img"; "li"; "ul"] → get "data-for" a = Some v →
  has_data_for nm a = true.
Proof.
  intros Hnm Hv. unfold has_data_for. rewrite Hv.
  rewrite bool_decide_eq_true_2 by eauto.
  repeat (apply elem_of_cons in Hnm as [-> | Hnm]; [done |]).
  by apply elem_of_nil in Hnm.
Qed.

(** C4.  The comment above the data-for loop says that it finds any
    element with a data-for attribute, but the loop asks [find_all] for
    div, img, li and ul only.  A span with the data-for value
    [item.name] leaves the loop, and the whole of [update_html], as it
    came: no interpolation is inserted as its first child. *)
Theorem data_for_variable_span_unvisited :
  data_for_pass [Tag "span" [("data-for", "item.name")] [Text "x"]]
  = Ok [Tag "span" [("data-for", "item.name")] [Text "x"]]
  ∧ rewrite "web"
      [Tag "html" [] [Tag "body" []
         [Tag "span" [("data-for", "item.name")] [Text "x"]]]]
    = Ok [Tag "html" []
            [Text "{% load static %}";
             Tag "body" []
               [Tag "span" [("data-for", "item.name")] [Text "x"];
                Tag "script" [] [Text make_forms_async]]]].
Proof. split; reflexivity. Qed.

(** C1.  The loop closes the for loop with [tag.insert(-1, ...)], and
    the position -1 is the one before the last child: in a div with two
    paragraphs the endfor marker goes between them, not after them, in
    the loop and in the whole of [update_html].  On a div without
    children the same call raises.  A span is not among the tags the
    loop asks for, whatever the comment above it says, and gets no
    marker. *)
Theorem data_for_loop_endfor_misplaced :
  data_for_pass
    [Tag "div" [("data-for", "item in items")]
       [Tag "p" [] [Text "a"]; Tag "p" [] [Text "b"]]]
  = Ok [Tag "div" [("data-for", "item in items")]
          [Text "{% for item in items %}"; Tag "p" [] [Text "a"];
           Text "{% endfor %}"; Tag "p" [] [Text "b"]]]
  ∧ rewrite "web"
      [Tag "html" [] [Tag "body" []
         [Tag "div" [("data-for", "item in items")]
            [Tag "p" [] [Text "a"]; Tag "p" [] [Text "b"]]]]]
    = Ok [Tag "html" []
            [Text "{% load static %}";
             Tag "body" []
               [Tag "div" [("data-for", "item in items")]
                  [Text "{% for item in items %}"; Tag "p" [] [Text "a"];
                   Text "{% endfor %}"; Tag "p" [] [Text "b"]];
                Tag "script" [] [Text make_forms_async]]]]
  ∧ data_for_pass [Tag "div" [("data-for", "item in items")] []]
    = Raise IndexError
  ∧ data_for_pass [Tag "span" [("data-for", "item in items")] [Text "x"]]
    = Ok [Tag "span" [("data-for", "item in items")] [Text "x"]].
Proof. repeat split; reflexivity. Qed.

(** X21.  For every div, img, li or ul element whose data-for value has
    no space, the data-for loop overwrites the src attribute of an img
    with the interpolation of the value, and gives any of the other
    three the interpolation as first child; the attributes are
    otherwise the same and the children are the original ones as the
    loop leaves them. *)
Theorem data_for_variable d d' nm a cs v :
  data_for_pass d = Ok d' →
  Tag nm a cs ∈ tags d →
  nm ∈ ["div"; "img"; "li"; "ul"] →
  get "data-for" a = Some v →
  contains_chr " " v = false →
  ∃ cs0, data_for_pass cs = Ok cs0 ∧ shape cs0 = shape cs ∧
    if String.eqb nm "img"
    then Tag nm (set "src" (variable v) a) cs0 ∈ tags d'
    else Tag nm a (Text (variable v) :: cs0) ∈ tags d'.
Proof.
  intros Hd Ht Hnm Hv Hsp.
  destruct (for_each_in_elem _ _ _ _ _ convert_data_for_adds_strings_only Hd Ht)
    as (t' & Ht' & nm0 & a0 & cs1 & cs0 & a' & cs' & [= <- <- <-] & -> & Hcs & Hbody).
  rewrite (has_data_for_true _ _ _ Hnm Hv) in Hbody.
  rewrite (convert_data_for_variable _ _ _ _ Hv Hsp) in Hbody.
  exists cs0. split; [done |]. split; [by eapply for_each_shape |].
  destruct (String.eqb nm "img"); by injection Hbody as <- <-.
Qed.

Lemma data_for_variable_witness :
  ∃ cs0, data_for_pass [Text "x"] = Ok cs0 ∧ shape cs0 = shape [Text "x"] ∧
    Tag "li" [("data-for", "item.name")] (Text (variable "item.name") :: cs0)
      ∈ tags [Tag "ul" [] [Tag "li" [("data-for", "item.name")]
                             (Text "{{ item.name }}" :: [Text "x"])]].
Proof.
  apply (data_for_variable
           [Tag "ul" [] [Tag "li" [("data-for", "item.name")] [Text "x"]]]
           _ "li" [("data-for", "item.name")] [Text "x"] "item.name").
  - reflexivity.
  - simpl. apply list_elem_of_further, list_elem_of_here.
  - apply list_elem_of_further, list_elem_of_further, list_elem_of_here.
  - reflexivity.
  - reflexivity.
Defined.

(** X22.  For every div, img, li or ul element whose data-for value has
    a space, once the data-for loop is through, the element has a last
    child, the for-loop-open marker of the value is its first child, and
    the endfor marker stands immediately before its last child; the
    other children are the original ones in their order, as the loop
    leaves them. *)
Theorem data_for_loop d d' nm a cs v :
  data_for_pass d = Ok d' →
  Tag nm a cs ∈ tags d →
  nm ∈ ["div"; "img"; "li"; "ul"] →
  get "data-for" a = Some v →
  contains_chr " " v = true →
  ∃ l z, data_for_pass cs = Ok (l ++ [z]) ∧
    Tag nm a (Text ("{% for " +:+ v +:+ " %}") :: l ++ [Text "{% endfor %}"; z])
      ∈ tags d'.
Proof.
  intros Hd Ht Hnm Hv Hsp.
  destruct (for_each_in_elem _ _ _ _ _ convert_data_for_adds_strings_only Hd Ht)
    as (t' & Ht' & nm0 & a0 & cs1 & cs0 & a' & cs' & [= <- <- <-] & -> & Hcs & Hbody).
  rewrite (has_data_for_true _ _ _ Hnm Hv) in Hbody.
  destruct (decide (cs0 = [])) as [-> | Hne].
  { by rewrite (convert_data_for_loop_empty _ _ _ Hv Hsp) in Hbody. }
  destruct (list_last_split cs0 Hne) as (l & z & ->).
  rewrite (convert_data_for_loop_Ok _ _ _ _ l z Hv Hsp eq_refl) in Hbody.
  injection Hbody as <- <-. exists l, z. done.
Qed.

Lemma data_for_loop_witness :
  ∃ l z, data_for_pass [Text "a"; Text "b"] = Ok (l ++ [z]) ∧
    Tag "div" [("data-for", "item in items")]
        (Text ("{% for " +:+ "item in items" +:+ " %}")
         :: l ++ [Text "{% endfor %}"; z])
      ∈ tags [Tag "div" [("data-for", "item in items")]
                [Text "{% for item in items %}"; Text "a";
                 Text "{% endfor %}"; Text "b"]].
Proof.
  apply (data_for_loop
           [Tag "div" [("data-for", "item in items")] [Text "a"; Text "b"]]
           _ "div" [("data-for", "item in items")] [Text "a"; Text "b"]
           "item in items").
  - reflexivity.
  - apply list_elem_of_here.
  - apply list_elem_of_here.
  - reflexivity.
  - reflexivity.
Defined.

(** X23.  The data-for loop visits no element other than div, img, li
    and ul: any other tag, with or without a data-for attribute, keeps
    its attributes, and its children are the original ones as the loop
    leaves them, strings in place. *)
Theorem data_for_other_tags d d' nm a cs :
  data_for_pass d = Ok d' →
  Tag nm a cs ∈ tags d →
  nm ∉ ["div"; "img"; "li"; "ul"] →
  ∃ cs0, data_for_pass cs = Ok cs0 ∧ shape cs0 = shape cs ∧
    Tag nm a cs0 ∈ tags d'.
Proof.
  intros Hd Ht Hnm.
  destruct (for_each_in_elem _ _ _ _ _ convert_data_for_adds_strings_only Hd Ht)
    as (t' & Ht' & nm0 & a0 & cs1 & cs0 & a' & cs' & [= <- <- <-] & -> & Hcs & Hbody).
  assert (has_data_for nm a = false) as Hsel.
  { destruct (has_data_for nm a) eqn:Hsel; [| done].
    destruct Hnm. unfold has_data_for in Hsel.
    apply andb_true_iff in Hsel as [Hsel _].
    apply orb_true_iff in Hsel as [Hsel | ->%String.eqb_eq]; [| set_solver].
    apply orb_true_iff in Hsel as [Hsel | ->%String.eqb_eq]; [| set_solver].
    apply orb_true_iff in Hsel as [->%String.eqb_eq | ->%String.eqb_eq];
      set_solver. }
  rewrite Hsel in Hbody. injection Hbody as <- <-.
  exists cs'. split; [done |]. split; [by eapply for_each_shape | done].
Qed.

Lemma data_for_other_tags_witness :
  ∃ cs0, data_for_pass [Text "x"] = Ok cs0 ∧ shape cs0 = shape [Text "x"] ∧
    Tag "span" [("data-for", "item in items")] cs0
      ∈ tags [Tag "span" [("data-for", "item in items")] [Text "x"]].
Proof.
  apply (data_for_other_tags
           [Tag "span" [("data-for", "item in items")] [Text "x"]]
           _ "span" [("data-for", "item in items")] [Text "x"]).
  - reflexivity.
  - apply list_elem_of_here.
  - set_solver.
Defined.

(** C10.  A script element without src and a lottie container without
    data-src stop neither the script pass nor the lottie pass, and both
    passes leave the element as it is: its attributes are the same and
    its children are its children as the pass leaves them, strings in
    place. *)
Theorem script_and_lottie_without_source app d nm a cs :
  Tag nm a cs ∈ tags d →
  (nm = "script" ∧ get "src" a = None)
  ∨ (is_lottie nm a = true ∧ get "data-src" a = None) →
  ∃ d1 d2 cs1 cs2,
    scripts_pass app d = Ok d1 ∧ lottie_pass app d = Ok d2 ∧
    scripts_pass app cs = Ok cs1 ∧ lottie_pass app cs = Ok cs2 ∧
    shape cs1 = shape cs ∧ shape cs2 = shape cs ∧
    Tag nm a cs1 ∈ tags d1 ∧ Tag nm a cs2 ∈ tags d2.
Proof.
  intros Ht Hcase.
  destruct (scripts_pass_total app d) as [d1 Hd1].
  destruct (lottie_pass_total app d) as [d2 Hd2].
  destruct (for_each_in_elem _ _ _ _ _ (on_attrs_adds_strings_only _) Hd1 Ht)
    as (t1 & Ht1 & nm1 & a1 & c1 & cs1 & a1' & cs1' & [= <- <- <-] & -> & Hcs1 & Hb1).
  destruct (for_each_in_elem _ _ _ _ _ (on_attrs_adds_strings_only _) Hd2 Ht)
    as (t2 & Ht2 & nm2 & a2 & c2 & cs2 & a2' & cs2' & [= <- <- <-] & -> & Hcs2 & Hb2).
  exists d1, d2, cs1, cs2.
  split; [done |]. split; [done |]. split; [done |]. split; [done |].
  split; [by eapply for_each_shape |]. split; [by eapply for_each_shape |].
  split.
  - destruct (update_script_total app a) as (a' & Ha' & Hsame).
    unfold named, on_attrs in Hb1. rewrite Ha' in Hb1.
    destruct Hcase as [[-> Hsrc] | [Hlot _]].
    + simpl in Hb1. injection Hb1 as <- <-. by rewrite <- Hsame.
    + unfold is_lottie in Hlot. apply andb_true_iff in Hlot as [Hdiv _].
      apply String.eqb_eq in Hdiv as ->. simpl in Hb1. by injection Hb1 as <- <-.
  - destruct (update_lottie_total app a) as (a' & Ha' & Hsame).
    unfold on_attrs in Hb2. rewrite Ha' in Hb2.
    destruct Hcase as [[-> _] | [Hlot Hsrc]].
    + simpl in Hb2. by injection Hb2 as <- <-.
    + rewrite Hlot in Hb2. simpl in Hb2. injection Hb2 as <- <-.
      by rewrite <- Hsame.
Qed.

Lemma script_and_lottie_without_source_witness :
  ∃ d1 d2 cs1 cs2,
    scripts_pass "web" [Tag "script" [] [Text "f()"];
                        Tag "div" [("data-animation-type", "lottie")] []] = Ok d1 ∧
    lottie_pass "web" [Tag "script" [] [Text "f()"];
                       Tag "div" [("data-animation-type", "lottie")] []] = Ok d2 ∧
    scripts_pass "web" [] = Ok cs1 ∧ lottie_pass "web" [] = Ok cs2 ∧
    shape cs1 = shape [] ∧ shape cs2 = shape [] ∧
    Tag "div" [("data-animation-type", "lottie")] cs1 ∈ tags d1 ∧
    Tag "div" [("data-animation-type", "lottie")] cs2 ∈ tags d2.
Proof.
  apply (script_and_lottie_without_source "web"
           [Tag "script" [] [Text "f()"];
            Tag "div" [("data-animation-type", "lottie")] []]
           "div" [("data-animation-type", "lottie")] []).
  - apply list_elem_of_further, list_elem_of_here.
  - right. split; reflexivity.
Defined.

(** The value of the specification, worked out. *)
Example srcset_two_candidates :
  Re.sub_images "web" "images/a.jpg 1x, images/b.jpg 2x"
  = Ok "{% static 'web/images/a.jpg' %} 1x, {% static 'web/images/b.jpg' %} 2x".
Proof. reflexivity. Qed.

(** C2.  The image loop pastes the app name into the src as it is, but
    for the srcset it hands the app name to [re.sub] inside the
    replacement template, where a backslash starts an escape.  For the
    app name [a\1b] the template puts the path where [\1] stands, so the
    srcset does not get the static reference of the path; for the app
    name [c:\web] the template is refused and the loop stops. *)
Theorem srcset_app_name_read_as_template :
  imgs_pass "a\1b"
    [Tag "img" [("src", "images/a.jpg"); ("srcset", "images/a.jpg 1x")] []]
  = Ok [Tag "img" [("src", "{% static 'a\1b/images/a.jpg' %}");
                   ("srcset", "{% static 'aa.jpgb/images/a.jpg' %} 1x")] []]
  ∧ imgs_pass "c:\web"
      [Tag "img" [("src", "images/a.jpg"); ("srcset", "images/a.jpg 1x")] []]
    = Raise ReError
  ∧ rewrite "c:\web"
      [Tag "html" [] [Tag "body" []
         [Tag "img" [("src", "images/a.jpg"); ("srcset", "images/a.jpg 1x")] []]]]
    = Raise ReError.
Proof. repeat split; vm_compute; reflexivity. Qed.

(** X24.  For an app name without a backslash, every img element whose
    srcset begins with "images" gets, in place of each [images/<path>]
    of the attribute, the static reference of that path, the path being
    the longest run of characters other than the space; the text around
    the paths stays.  A srcset that does not begin with "images" stays
    as it is. *)
Theorem srcset_rewritten app d d' a cs s ps :
  Re.no_backslash app = true →
  imgs_pass app d = Ok d' →
  Tag "img" a cs ∈ tags d →
  get "srcset" a = Some s →
  well_split ps = true →
  source_text ps = s →
  ∃ a' cs', imgs_pass app cs = Ok cs' ∧ Tag "img" a' cs' ∈ tags d' ∧
    get "srcset" a' =
      Some (if String.prefix "images" s then rewritten_text app ps else s).
Proof.
  intros Happ Hd Ht Hs Hps Hsrc.
  destruct (for_each_in_elem _ _ _ _ _ (on_attrs_adds_strings_only _) Hd Ht)
    as (t' & Ht' & nm0 & a0 & cs1 & cs0 & a' & cs' & [= <- <- <-] & -> & Hcs & Hbody).
  unfold named, on_attrs in Hbody. simpl in Hbody.
  apply result_bind_Ok in Hbody as (a1 & Himg & [= <- <-]).
  exists a1, cs0. split; [done |]. split; [done |].
  apply update_img_inv in Himg as (v & a2 & _ & _ & Hsame & Hcase).
  rewrite Hs in Hcase. simpl in Hcase.
  destruct Hcase as [(-> & s' & Hsub & ->) | (-> & ->)].
  - rewrite get_set_eq. rewrite <- Hsrc, (sub_images_pieces _ _ Happ Hps) in Hsub.
    by injection Hsub as <-.
  - by rewrite Hsame.
Qed.

Lemma srcset_rewritten_witness :
  ∃ a' cs', imgs_pass "web" [] = Ok cs' ∧
    Tag "img" a' cs'
      ∈ tags [Tag "img"
                [("src", "{% static 'web/images/a.jpg' %}");
                 ("srcset", "{% static 'web/images/a.jpg' %} 1x, {% static 'web/images/b.jpg' %} 2x")]
                []] ∧
    get "srcset" a' =
      Some (if String.prefix "images" "images/a.jpg 1x, images/b.jpg 2x"
            then rewritten_text "web"
                   [Image "a.jpg"; Other " 1x, "; Image "b.jpg"; Other " 2x"]
            else "images/a.jpg 1x, images/b.jpg 2x").
Proof.
  apply (srcset_rewritten "web"
           [Tag "img" [("src", "images/a.jpg");
                       ("srcset", "images/a.jpg 1x, images/b.jpg 2x")] []]
           _ [("src", "images/a.jpg");
              ("srcset", "images/a.jpg 1x, images/b.jpg 2x")] []
           "images/a.jpg 1x, images/b.jpg 2x"
           [Image "a.jpg"; Other " 1x, "; Image "b.jpg"; Other " 2x"]).
  - reflexivity.
  - reflexivity.
  - apply list_elem_of_here.
  - reflexivity.
  - reflexivity.
  - reflexivity.
Defined.

Import Fs Importer Examples.



Lemma Forall2_with_Forall {A B} (P : A → Prop) (R : A → B → Prop) l k :
  Forall P l → Forall2 R l k → Forall2 (λ x y, P x ∧ R x y) l k.
Proof.
  intros HP HR. induction HR as [| x y l k Hxy _ IH]; [constructor |].
  apply Forall_cons in HP as [Hx HP]. constructor; auto.
Qed.

(** The call that appends the form script adds one script tag. *)
Lemma async_pass_scripts d d' :
  async_pass d = Ok d' →
  length (find_all (named "script") d') = S (length (find_all (named "script") d)).
Proof.
  intros (l1 & c & c' & l2 & -> & -> & _ & Hc)%with_first_Ok.
  rewrite !find_all_tags, !tags_app, !filter_app, !length_app.
  unfold tags at 2 4. simpl. rewrite !filter_app, !length_app.
  enough (length (filter (matches (named "script")) (tags_node c'))
          = S (length (filter (matches (named "script")) (tags_node c)))) by lia.
  clear -Hc. induction Hc as [nm a cs cs' Hsel [= <-] | nm a l1 c c' l2 Hsel Hl1 Hc IH].
  - apply named_true in Hsel as ->. simpl. fold (tags cs) (tags (append script_tag cs)).
    rewrite tags_append_script, !filter_cons. simpl.
    rewrite filter_app, length_app. simpl. lia.
  - simpl. fold (tags (l1 ++ c :: l2)) (tags (l1 ++ c' :: l2)).
    rewrite !tags_app. unfold tags at 2 4. simpl. fold (tags l2).
    rewrite !(filter_cons _ (Tag nm a _)). simpl.
    destruct (decide (named "script" nm a)); simpl;
      rewrite !filter_app, !length_app; lia.
Qed.

(** C5.  In a document with a body, the loop over the forms and the
    statements after it go through.  Form by form, in document order,
    every form of the document is in the result with its attributes,
    the csrf marker as first child and then the children it had.  The
    script is appended after the loop, to the body as the loop left it:
    the first body tag ends with one script element without attributes
    that holds the handler text, it is the only tag that is added to
    the document, whatever the number of forms, and the handler text
    listens for submit events, stops the default submission, sends the
    form with fetch and looks up the done and fail indicators. *)
Theorem form_augmentation d b cs :
  find (named "body") d = Some (Tag "body" b cs) →
  ∃ d1 d2 cs1,
    csrf_pass d = Ok d1 ∧ async_pass d1 = Ok d2 ∧
    Forall2 (λ t t2, ∃ a c c2,
               t = Tag "form" a c ∧
               t2 = Tag "form" a (Text "{% csrf_token %}" :: c2) ∧
               shape c2 = shape c)
            (find_all (named "form") d) (find_all (named "form") d2) ∧
    csrf_pass cs = Ok cs1 ∧
    find (named "body") d2
      = Some (Tag "body" b (cs1 ++ [Tag "script" [] [Text make_forms_async]])) ∧
    length (tags d2) = S (length (tags d)) ∧
    length (find_all (named "script") d2)
      = S (length (find_all (named "script") d)) ∧
    Whole.occurs "addEventListener('submit'" make_forms_async = true ∧
    Whole.occurs "event.preventDefault();" make_forms_async = true ∧
    Whole.occurs "await fetch(formElement.action" make_forms_async = true ∧
    Whole.occurs "querySelector('.w-form-done')" make_forms_async = true ∧
    Whole.occurs "querySelector('.w-form-fail')" make_forms_async = true.
Proof.
  intros Hb.
  destruct (csrf_pass_total d) as [d1 H1].
  destruct (for_each_in_find _ _ _ _ _ _ add_csrf_adds_strings_only H1 Hb)
    as (t1 & Ht1 & nm0 & a0 & c0 & cs1 & a1 & c1 & [= <- <- <-] & -> & Hcs & Hbody).
  change (named "form" "body" b) with false in Hbody.
  injection Hbody as Ha1 Hc1. subst a1 c1.
  destruct (async_pass_succeeds 0 d1) as [d2 H2].
  { exists b, cs1. by rewrite app_nil_r. }
  exists d1, d2, cs1. split; [done |]. split; [done |].
  split; [| split; [| split; [| split; [| split]]]].
  - pose proof (for_each_in_find_all _ _ "form" _ _ add_csrf_adds_strings_only H1)
      as HA.
    pose proof (with_first_tags _ _ (named "form") _ _
                  (call_keeps_named _ async_call "form" ltac:(done)) H2) as HB.
    rewrite <- !find_all_tags in HB.
    assert (Forall (λ t, matches (named "form") t = true)
                   (find_all (named "form") d)) as Hforms.
    { rewrite find_all_tags. apply Forall_forall.
      intros t [Hm _]%list_elem_of_filter. by apply Is_true_true. }
    eapply Forall2_trans;
      [| exact (Forall2_with_Forall _ _ _ _ Hforms HA) | exact HB].
    intros t t' t2
      [Hm (nm & a & c & c3 & a' & c' & -> & -> & Hc3 & Hbody)] Hed.
    simpl in Hm. apply named_true in Hm as ->.
    change (named "form" "form" a) with true in Hbody.
    unfold add_csrf in Hbody. rewrite insert_0 in Hbody.
    injection Hbody as <- <-.
    destruct (edited_shape _ _ _ _ _ _ (eq_refl : named "body" "form" a = false) Hed)
      as (c2' & -> & Hsh).
    destruct (shape_repeat_Some csrf_tag 1 c2' (shape c3) Hsh) as [c2 ->].
    exists a, c, c2. split; [done |]. split; [done |].
    simpl in Hsh. injection Hsh as Hsh. rewrite Hsh.
    by eapply for_each_shape.
  - exact Hcs.
  - apply with_first_find in H2 as (nm & a0 & c0 & c' & Hfind & Hfind' & [= <-]).
    rewrite Ht1 in Hfind. by injection Hfind as <- <- <-.
  - rewrite (async_pass_length _ _ H2).
    by rewrite (for_each_in_length _ _ _ _ add_csrf_adds_strings_only H1).
  - rewrite (async_pass_scripts _ _ H2).
    pose proof (for_each_in_find_all _ _ "script" _ _ add_csrf_adds_strings_only H1)
      as HA%Forall2_length.
    by rewrite HA.
  - repeat split; vm_compute; reflexivity.
Qed.

Lemma form_augmentation_witness :
  ∃ d1 d2 cs1,
    csrf_pass page = Ok d1 ∧ async_pass d1 = Ok d2 ∧
    Forall2 (λ t t2, ∃ a c c2,
               t = Tag "form" a c ∧
               t2 = Tag "form" a (Text "{% csrf_token %}" :: c2) ∧
               shape c2 = shape c)
            (find_all (named "form") page) (find_all (named "form") d2) ∧
    csrf_pass [Tag "img" [("src", "images/b.png")] []; Tag "form" [] [Text "f"]]
      = Ok cs1 ∧
    find (named "body") d2
      = Some (Tag "body" [] (cs1 ++ [Tag "script" [] [Text make_forms_async]])) ∧
    length (tags d2) = S (length (tags page)) ∧
    length (find_all (named "script") d2)
      = S (length (find_all (named "script") page)) ∧
    Whole.occurs "addEventListener('submit'" make_forms_async = true ∧
    Whole.occurs "event.preventDefault();" make_forms_async = true ∧
    Whole.occurs "await fetch(formElement.action" make_forms_async = true ∧
    Whole.occurs "querySelector('.w-form-done')" make_forms_async = true ∧
    Whole.occurs "querySelector('.w-form-fail')" make_forms_async = true.
Proof.
  apply (form_augmentation page []
           [Tag "img" [("src", "images/b.png")] []; Tag "form" [] [Text "f"]]).
  reflexivity.
Defined.

(** C6.  When the document at one of the recorded paths has a link
    without href or an img without src, or has no html or no body tag,
    its rewrite raises, and the run stops there with the world as the
    documents before it left it: this document is not written, the
    documents after it are not read, and what was moved or rewritten
    before stays. *)
Theorem malformed_markup_aborts reread app w ps1 p ps2 w1 d :
  html_paths (self w) = ps1 ++ p :: ps2 →
  for_ ps1 (λ q, update_html reread q app) w = (w1, Ok ()) →
  read p (fs w1) = Ok d →
  (∃ a cs, Tag "link" a cs ∈ tags d ∧ get "href" a = None)
  ∨ (∃ a cs, Tag "img" a cs ∈ tags d ∧ get "src" a = None)
  ∨ find (named "html") d = None
  ∨ find (named "body") d = None →
  ∃ e, rewrite app d = Raise e ∧ update_htmls reread app w = (w1, Raise e).
Proof.
  intros Hpaths Hbefore Hread Hbad.
  destruct (rewrite_raises app d Hbad) as [e He].
  exists e. split; [done |].
  unfold update_htmls. rewrite Hpaths, for_app, Hbefore. simpl.
  unfold mbind at 1, M_bind at 1.
  by rewrite (update_html_raises reread _ _ _ _ _ Hread He).
Qed.

Lemma malformed_markup_aborts_witness :
  ∃ e, rewrite "web" broken_page = Raise e ∧
       update_htmls reparsed "web" moved_site
       = ((for_ [["web"; "templates"; "a.html"]]
                (λ q, update_html reparsed q "web") moved_site).1, Raise e).
Proof.
  apply (malformed_markup_aborts reparsed "web" moved_site
           [["web"; "templates"; "a.html"]] ["web"; "templates"; "b.html"]
           [["web"; "templates"; "c.html"]]).
  - reflexivity.
  - vm_compute. reflexivity.
  - vm_compute. reflexivity.
  - right. left. exists [("alt", "x")], [].
    split; [| reflexivity].
    apply list_elem_of_further, list_elem_of_further, list_elem_of_here.
Defined.

Lemma dest_name (a b : path) (s ty name : string) :
  (a ++ s :: b ++ [ty]) ++ [name] = a ++ s :: b ++ [ty; name].
Proof. by rewrite <- !app_assoc; simpl; rewrite <- app_assoc. Qed.

(** C7 (amended).  For an app path written from the current directory
    without [..] and one of the four categories: when the source
    directory of the category is there and lies apart from the
    destination, no file stands on the destination path, and every
    entry of the source directory can replace what the destination has
    under its name (nothing, a file for a file, an empty directory for a
    directory), the phase returns, and every entry the source directory
    had is at [<app>/static/<app>/<category>/<name>], is no longer at
    its source path, and its name is among those appended to the list
    of the category. *)
Theorem static_files_moved wd app ty w m l :
  plain app = true →
  ty ∈ Whole.categories →
  diverge (wd ++ [ty]) (parse app ++ "static" :: parse app ++ [ty]) = true →
  Whole.no_file_on (parse app ++ "static" :: parse app ++ [ty]) (fs w) = true →
  lookup (wd ++ [ty]) (fs w) = Some (Dir m) →
  (∀ name x, m !! name = Some x →
     Whole.replaceable x
       (lookup (parse app ++ "static" :: parse app ++ [ty; name]) (fs w))
     = true) →
  static_files (self w) !! ty = Some l →
  ∃ w', move_static_file wd app ty w = (w', Ok ()) ∧
    (∀ name x, m !! name = Some x →
       lookup (parse app ++ "static" :: parse app ++ [ty; name]) (fs w') = Some x ∧
       lookup (wd ++ [ty; name]) (fs w') = None ∧
       name ∈ names m) ∧
    static_files (self w') !! ty = Some (l ++ names m).
Proof.
  intros _ Hty Hd Hfree Hsrc Hrep Hl.
  rewrite <- (parse_dest_static_dir app ty Hty) in Hd, Hfree.
  rewrite <- (source_static_dir_category wd ty Hty) in Hd, Hsrc.
  destruct (move_static_file_returns wd app ty w m l Hd Hfree Hsrc) as [w' Hrun];
    [| done |].
  { intros n x Hx. rewrite (parse_dest_static_dir app ty Hty), dest_name. eauto. }
  exists w'. split; [done |].
  destruct (move_static_file_present _ _ _ _ _ _ _ Hd Hsrc Hl Hrun)
    as (ms' & md' & H1 & H2 & H3 & H4).
  split; [| done]. intros name x Hx.
  assert (name ∈ names m) as Hin by (apply names_elem; eauto).
  destruct (H3 _ Hin) as [Hgone Hthere].
  rewrite <- dest_name, <- (parse_dest_static_dir app ty Hty).
  change (wd ++ [ty; name]) with (wd ++ [ty] ++ [name]).
  rewrite app_assoc, <- (source_static_dir_category wd ty Hty).
  rewrite !lookup_app, H1, H2. simpl. rewrite Hgone, Hthere, Hx. done.
Qed.

Lemma static_files_moved_witness :
  ∃ w', move_static_file ["webflow_export"] "web" "images" unpacked = (w', Ok ()) ∧
    (∀ name x,
       ({[ "b.png" := File []; "icons" := Dir {[ "i.svg" := File [] ]} ]}
          : gmap string entry) !! name = Some x →
       lookup (parse "web" ++ "static" :: parse "web" ++ ["images"; name]) (fs w')
       = Some x ∧
       lookup (["webflow_export"] ++ ["images"; name]) (fs w') = None ∧
       name ∈ names {[ "b.png" := File [];
                       "icons" := Dir {[ "i.svg" := File [] ]} ]}) ∧
    static_files (self w') !! "images"
    = Some ([] ++ names {[ "b.png" := File [];
                           "icons" := Dir {[ "i.svg" := File [] ]} ]}).
Proof.
  apply (static_files_moved ["webflow_export"] "web" "images" unpacked).
  - reflexivity.
  - unfold Whole.categories. set_solver.
  - vm_compute. reflexivity.
  - vm_compute. reflexivity.
  - vm_compute. reflexivity.
  - intros name x _. vm_compute. reflexivity.
  - vm_compute. reflexivity.
Defined.

(** C7 as stated fails.  On a second import the directory of icons of
    the export cannot replace the one the app has from the first, which
    is not empty: [os.rename] raises, the phase stops, and the icons
    of the export are still in the working folder, not in the app.  In
    an archive unpacked in place the source directory is the
    destination: the phase returns, and the entry is still at its
    source path.  And when the [static] of the app is a file,
    [os.makedirs] raises and the stylesheet stays in the working
    folder. *)
Lemma static_files_moved_counterexample :
  (lookup ["webflow_export"; "images"] (fs second_import)
     = Some (Dir {[ "icons" := Dir {[ "i.svg" := File [] ]} ]}) ∧
   (move_static_file ["webflow_export"] "web" "images" second_import).2
     = Raise OSError ∧
   lookup ["webflow_export"; "images"; "icons"]
          (fs (move_static_file ["webflow_export"] "web" "images" second_import).1)
     = Some (Dir {[ "i.svg" := File [] ]}) ∧
   lookup ["web"; "static"; "web"; "images"; "icons"]
          (fs (move_static_file ["webflow_export"] "web" "images" second_import).1)
     = Some (Dir {[ "old.svg" := File [] ]}))
  ∧
  (lookup ["webflow_export"; "static"; "webflow_export"; "images"]
          (fs unpacked_in_place)
     = Some (Dir {[ "b.png" := File [] ]}) ∧
   (move_static_file ["webflow_export"; "static"; "webflow_export"]
      "webflow_export" "images" unpacked_in_place).2 = Ok () ∧
   lookup ["webflow_export"; "static"; "webflow_export"; "images"; "b.png"]
          (fs (move_static_file ["webflow_export"; "static"; "webflow_export"]
                 "webflow_export" "images" unpacked_in_place).1)
     = Some (File []))
  ∧
  (lookup ["webflow_export"; "css"] (fs blocked)
     = Some (Dir {[ "a.css" := File [] ]}) ∧
   move_static_file ["webflow_export"] "web" "css" blocked
     = (blocked, Raise NotADirectoryError)).
Proof. repeat split; vm_compute; reflexivity. Qed.

(** C8 (amended).  For an app path written from the current directory
    without [..] and each of the four categories: when nothing is at
    the source path of the category, the source path does not lie on
    the destination path and no file stands on the destination path,
    the phase returns.  The tree is the one [os.makedirs] left, with
    nothing new in the destination directory, the importer has recorded
    nothing, the line that says that no files of the category were
    found is printed, and the statement after the phase runs. *)
Theorem absent_category_skipped wd app ty w :
  plain app = true →
  ty ∈ Whole.categories →
  stat (wd ++ [ty]) (fs w) = Raise FileNotFoundError →
  ¬ (wd ++ [ty]) `prefix_of` (parse app ++ "static" :: parse app ++ [ty]) →
  Whole.no_file_on (parse app ++ "static" :: parse app ++ [ty]) (fs w) = true →
  ∃ fs1,
    makedirs (parse app ++ "static" :: parse app ++ [ty]) (fs w) = Ok fs1 ∧
    move_static_file wd app ty w
    = ({| fs := fs1; self := self w;
          stdout := stdout w ++ ["No " +:+ ty +:+ " files found. Continuing."
                                 +:+ String "010" ""] |},
       Ok ()) ∧
    (∀ name, lookup (parse app ++ "static" :: parse app ++ [ty; name]) fs1
             = lookup (parse app ++ "static" :: parse app ++ [ty; name]) (fs w)) ∧
    (∀ next : M unit,
       (move_static_file wd app ty ≫= λ _, next) w
       = next {| fs := fs1; self := self w;
                 stdout := stdout w ++ ["No " +:+ ty +:+ " files found. Continuing."
                                        +:+ String "010" ""] |}).
Proof.
  intros _ Hty Hsrc Hd Hfree.
  destruct (makedirs_no_file _ _ Hfree) as [fs1 Hmk]. exists fs1.
  split; [done |].
  rewrite <- (parse_dest_static_dir app ty Hty) in Hd, Hmk.
  rewrite <- (source_static_dir_category wd ty Hty) in Hd, Hsrc.
  pose proof (move_static_file_absent _ _ _ _ _ Hsrc Hd Hmk) as Hrun.
  split; [exact Hrun |]. split.
  - intros name. rewrite <- dest_name, <- (parse_dest_static_dir app ty Hty).
    by apply makedirs_below.
  - intros next. rewrite (bind_Ok _ _ _ _ _ Hrun). done.
Qed.

Lemma absent_category_skipped_witness :
  ∃ fs1,
    makedirs (parse "web" ++ "static" :: parse "web" ++ ["js"]) (fs unpacked)
      = Ok fs1 ∧
    move_static_file ["webflow_export"] "web" "js" unpacked
    = ({| fs := fs1; self := self unpacked;
          stdout := stdout unpacked ++ ["No " +:+ "js" +:+ " files found. Continuing."
                                        +:+ String "010" ""] |},
       Ok ()) ∧
    (∀ name, lookup (parse "web" ++ "static" :: parse "web" ++ ["js"; name]) fs1
             = lookup (parse "web" ++ "static" :: parse "web" ++ ["js"; name])
                      (fs unpacked)) ∧
    (∀ next : M unit,
       (move_static_file ["webflow_export"] "web" "js" ≫= λ _, next) unpacked
       = next {| fs := fs1; self := self unpacked;
                 stdout := stdout unpacked
                           ++ ["No " +:+ "js" +:+ " files found. Continuing."
                               +:+ String "010" ""] |}).
Proof.
  apply (absent_category_skipped ["webflow_export"] "web" "js" unpacked).
  - reflexivity.
  - unfold Whole.categories. set_solver.
  - vm_compute. reflexivity.
  - intros [k Hk]. vm_compute in Hk. discriminate Hk.
  - vm_compute. reflexivity.
Defined.

(** C8 as stated fails.  When the [static] of the app is a file,
    [os.makedirs] raises before the source is looked at: the phase
    raises, prints nothing, and the run stops.  And in an archive
    unpacked in place the source path is the destination path:
    [os.makedirs] makes the directory, the listing is empty, and no
    line is printed. *)
Lemma absent_category_skipped_counterexample :
  (stat ["webflow_export"; "js"] (fs blocked) = Raise FileNotFoundError ∧
   move_static_file ["webflow_export"] "web" "js" blocked
     = (blocked, Raise NotADirectoryError))
  ∧
  (stat ["webflow_export"; "static"; "webflow_export"; "js"] (fs unpacked_in_place)
     = Raise FileNotFoundError ∧
   (move_static_file ["webflow_export"; "static"; "webflow_export"]
      "webflow_export" "js" unpacked_in_place).2 = Ok () ∧
   stdout (move_static_file ["webflow_export"; "static"; "webflow_export"]
             "webflow_export" "js" unpacked_in_place).1 = []).
Proof. repeat split; vm_compute; reflexivity. Qed.

(** C9 (amended).  For an app path written from the current directory
    without [..], one of the four categories, and a source path of the
    category at which nothing is: the phase makes the destination
    directory [<app>/static/<app>/<category>] before it looks at the
    source, and when that fails the phase fails.  When it goes through,
    the tree after the phase is the one [os.makedirs] left: the
    destination is a directory; if it was not there before it is empty
    and the tree has changed; if it was there before the tree is the
    same. *)
Theorem destination_made_first wd app ty w :
  plain app = true →
  ty ∈ Whole.categories →
  stat (wd ++ [ty]) (fs w) = Raise FileNotFoundError →
  match makedirs (parse app ++ "static" :: parse app ++ [ty]) (fs w) with
  | Raise e => move_static_file wd app ty w = (w, Raise e)
  | Ok fs1 =>
      fs (move_static_file wd app ty w).1 = fs1 ∧
      (∃ m, lookup (parse app ++ "static" :: parse app ++ [ty]) fs1
            = Some (Dir m)) ∧
      (lookup (parse app ++ "static" :: parse app ++ [ty]) (fs w) = None →
         lookup (parse app ++ "static" :: parse app ++ [ty]) fs1 = Some (Dir ∅) ∧
         fs1 ≠ fs w) ∧
      (∀ m, lookup (parse app ++ "static" :: parse app ++ [ty]) (fs w)
            = Some (Dir m) →
         fs1 = fs w)
  end.
Proof.
  intros _ Hty Hsrc.
  rewrite <- (parse_dest_static_dir app ty Hty) in *.
  rewrite <- (source_static_dir_category wd ty Hty) in Hsrc.
  destruct (makedirs (parse (dest_static_dir app ty)) (fs w)) as [fs1 | e] eqn:Hmk.
  - split; [by apply move_static_file_absent_tree |].
    split; [by eapply makedirs_dir |]. split.
    + intros Hnone. pose proof (makedirs_fresh _ _ _ Hnone Hmk) as Hnew.
      split; [done |]. intros ->. congruence.
    + intros m Hm. rewrite (makedirs_existing _ _ _ Hm) in Hmk. congruence.
  - by apply move_static_file_makedirs_Raise.
Qed.

Lemma destination_made_first_witness :
  match makedirs (parse "web" ++ "static" :: parse "web" ++ ["js"]) (fs unpacked) with
  | Raise e => move_static_file ["webflow_export"] "web" "js" unpacked
               = (unpacked, Raise e)
  | Ok fs1 =>
      fs (move_static_file ["webflow_export"] "web" "js" unpacked).1 = fs1 ∧
      (∃ m, lookup (parse "web" ++ "static" :: parse "web" ++ ["js"]) fs1
            = Some (Dir m)) ∧
      (lookup (parse "web" ++ "static" :: parse "web" ++ ["js"]) (fs unpacked) = None →
         lookup (parse "web" ++ "static" :: parse "web" ++ ["js"]) fs1
         = Some (Dir ∅) ∧
         fs1 ≠ fs unpacked) ∧
      (∀ m, lookup (parse "web" ++ "static" :: parse "web" ++ ["js"]) (fs unpacked)
            = Some (Dir m) → fs1 = fs unpacked)
  end.
Proof.
  apply (destination_made_first ["webflow_export"] "web" "js" unpacked).
  - reflexivity.
  - unfold Whole.categories. set_solver.
  - vm_compute. reflexivity.
Defined.

(** C9 as stated fails: on a second import into an app that has images
    already, of an export without images, the phase for images changes
    nothing in the tree, and the destination directory is not empty. *)
Lemma destination_made_first_counterexample :
  stat ["webflow_export"; "images"] (fs reimport) = Raise FileNotFoundError ∧
  fs (move_static_file ["webflow_export"] "web" "images" reimport).1
    = fs reimport ∧
  lookup ["web"; "static"; "web"; "images"]
         (fs (move_static_file ["webflow_export"] "web" "images" reimport).1)
    = Some (Dir {[ "old.png" := File [] ]}).
Proof. repeat split; vm_compute; reflexivity. Qed.

(* ===================================================================== *)
(** * Every tag through the whole of [update_html] *)
(* ===================================================================== *)

Section WholeFacts.
Import Whole.

(** ** What the loop bodies write *)

Lemma static_ref_head app x : ∃ s, static_ref app x = String "{" s.
Proof. unfold static_ref. rewrite append_cons. eauto. Qed.

Lemma static_ref_prefix c p app x :
  c ≠ "{"%char → String.prefix (String c p) (static_ref app x) = false.
Proof.
  intros Hc. destruct (static_ref_head app x) as [s ->]. simpl.
  by destruct (ascii_dec c "{").
Qed.

Lemma set_keys k v (a : attrs) : is_Some (get k a) → (set k v a).*1 = a.*1.
Proof.
  induction a as [| [k0 v0] a IH]; simpl; [by intros [? ?] |].
  destruct (String.eqb_spec k0 k) as [-> | Hne]; [done |].
  intros H. rewrite !fmap_cons. f_equal. by apply IH.
Qed.

Lemma only_values_refl a : only_values a a.
Proof. by split. Qed.

Lemma only_values_trans a b c :
  only_values a b → only_values b c → only_values a c.
Proof.
  intros [K1 V1] [K2 V2]. split; [congruence |].
  intros k Hk. by rewrite V2, V1.
Qed.

Lemma only_values_set k v a :
  k ∈ written → is_Some (get k a) → only_values a (set k v a).
Proof.
  intros Hk Hsome. split; [by apply set_keys |].
  intros k' Hk'. apply get_set_ne. by intros ->.
Qed.

Lemma update_link_value app a v :
  get "href" a = Some v →
  update_link app a
  = Ok (if String.prefix "css" v || String.prefix "images" v
        then set "href" (static_ref app (Some v)) a else a).
Proof.
  intros Hv. unfold update_link. rewrite Hv. simpl.
  destruct (String.prefix "css" v); simpl.
  - rewrite !get_set_eq. unfold startswith. by rewrite static_ref_prefix.
  - rewrite Hv. simpl. by destruct (String.prefix "images" v).
Qed.

Lemma update_img_src app a a' :
  update_img app a = Ok a' →
  ∃ v, get "src" a = Some v ∧
       get "src" a'
       = Some (if String.prefix "images" v then static_ref app (Some v) else v).
Proof.
  intros (v & a1 & Hv & -> & _ & Hcase)%update_img_inv.
  exists v. split; [done |].
  assert (get "src" (if String.prefix "images" v
                     then set "src" (static_ref app (Some v)) a else a)
          = Some (if String.prefix "images" v
                  then static_ref app (Some v) else v)) as H.
  { destruct (String.prefix "images" v); by rewrite ?get_set_eq. }
  destruct Hcase as [(_ & s & _ & ->) | (_ & ->)]; [| done].
  by rewrite get_set_ne.
Qed.

Lemma update_script_value app a :
  update_script app a
  = Ok (match get "src" a with
        | Some v => if String.prefix "js" v
                    then set "src" (static_ref app (Some v)) a else a
        | None => a
        end).
Proof.
  unfold update_script. destruct (get "src" a) as [v |]; [| done]. simpl.
  destruct (String.eqb_spec v "") as [-> | _]; done.
Qed.

Lemma update_lottie_value app a :
  update_lottie app a
  = Ok (match get "data-src" a with
        | Some v => if String.prefix "documents" v
                    then set "data-src" (static_ref app (Some v)) a else a
        | None => a
        end).
Proof.
  unfold update_lottie. destruct (get "data-src" a) as [v |]; [| done]. simpl.
  destruct (String.eqb_spec v "") as [-> | _]; done.
Qed.

Lemma update_link_only_values app a a' :
  update_link app a = Ok a' → only_values a a'.
Proof.
  destruct (get "href" a) as [v |] eqn:Hv.
  - rewrite (update_link_value _ _ _ Hv). intros [= <-].
    destruct (_ || _); [| apply only_values_refl].
    apply only_values_set; [| by rewrite Hv]. unfold written. set_solver.
  - unfold update_link. by rewrite Hv.
Qed.

Lemma update_img_only_values app a a' :
  update_img app a = Ok a' → only_values a a'.
Proof.
  intros (v & a1 & Hv & -> & Hsame & Hcase)%update_img_inv.
  set (a1 := if String.prefix "images" v
             then set "src" (static_ref app (Some v)) a else a) in *.
  assert (only_values a a1) as H1.
  { unfold a1. destruct (String.prefix "images" v); [| apply only_values_refl].
    apply only_values_set; [| by rewrite Hv]. unfold written. set_solver. }
  eapply only_values_trans; [exact H1 |].
  destruct Hcase as [(Hs & s & _ & ->) | (_ & ->)]; [| apply only_values_refl].
  apply only_values_set; [unfold written; set_solver |].
  rewrite Hsame. by destruct (get "srcset" a).
Qed.

Lemma update_script_only_values app a a' :
  update_script app a = Ok a' → only_values a a'.
Proof.
  rewrite update_script_value. intros [= <-].
  destruct (get "src" a) as [v |] eqn:Hv; [| apply only_values_refl].
  destruct (String.prefix "js" v); [| apply only_values_refl].
  apply only_values_set; [| by rewrite Hv]. unfold written. set_solver.
Qed.

Lemma update_lottie_only_values app a a' :
  update_lottie app a = Ok a' → only_values a a'.
Proof.
  rewrite update_lottie_value. intros [= <-].
  destruct (get "data-src" a) as [v |] eqn:Hv; [| apply only_values_refl].
  destruct (String.prefix "documents" v); [| apply only_values_refl].
  apply only_values_set; [| by rewrite Hv]. unfold written. set_solver.
Qed.

Lemma static_attrs_Ok app nm a a4 :
  static_attrs app nm a = Ok a4 ↔
  ∃ a1 a2 a3,
    (if named "link" nm a then update_link app a else Ok a) = Ok a1 ∧
    (if named "img" nm a1 then update_img app a1 else Ok a1) = Ok a2 ∧
    (if named "script" nm a2 then update_script app a2 else Ok a2) = Ok a3 ∧
    (if is_lottie nm a3 then update_lottie app a3 else Ok a3) = Ok a4.
Proof.
  unfold static_attrs. split.
  - intros (a1 & H1 & (a2 & H2 & (a3 & H3 & H4)%result_bind_Ok)%result_bind_Ok)%result_bind_Ok.
    by exists a1, a2, a3.
  - intros (a1 & a2 & a3 & -> & H2 & H3 & H4). simpl.
    rewrite H2. simpl. rewrite H3. done.
Qed.

Lemma static_attrs_only_values app nm a a4 :
  static_attrs app nm a = Ok a4 → only_values a a4.
Proof.
  intros (a1 & a2 & a3 & H1 & H2 & H3 & H4)%static_attrs_Ok.
  assert (only_values a a1) as K1.
  { destruct (named "link" nm a);
      [by eapply update_link_only_values | injection H1 as <-; apply only_values_refl]. }
  assert (only_values a1 a2) as K2.
  { destruct (named "img" nm a1);
      [by eapply update_img_only_values | injection H2 as <-; apply only_values_refl]. }
  assert (only_values a2 a3) as K3.
  { destruct (named "script" nm a2);
      [by eapply update_script_only_values | injection H3 as <-; apply only_values_refl]. }
  assert (only_values a3 a4) as K4.
  { destruct (is_lottie nm a3);
      [by eapply update_lottie_only_values | injection H4 as <-; apply only_values_refl]. }
  eauto using only_values_trans.
Qed.

Lemma only_values_data_for a a' nm :
  only_values a a' → has_data_for nm a' = has_data_for nm a.
Proof.
  intros [_ V]. unfold has_data_for. rewrite V; [done |].
  unfold written. set_solver.
Qed.

Lemma only_values_lottie a a' nm :
  only_values a a' → is_lottie nm a' = is_lottie nm a.
Proof.
  intros [_ V]. unfold is_lottie. rewrite V; [done |].
  unfold written. set_solver.
Qed.

Lemma data_for_attrs_only_values nm a :
  (nm = "img" → is_Some (get "src" a)) → only_values a (data_for_attrs nm a).
Proof.
  intros Hsrc. unfold data_for_attrs.
  destruct (get "data-for" a) as [v |]; [| apply only_values_refl].
  destruct (contains_chr " " v); [apply only_values_refl |].
  destruct (String.eqb_spec nm "img") as [-> | _]; [| apply only_values_refl].
  apply only_values_set; [unfold written; set_solver | by apply Hsrc].
Qed.

(** ** A tag through each pass *)

(** Every tag of the document is there after [with_first]. *)
Lemma edit_first_elem sel g c c' t :
  (∀ cs cs', g cs = Ok cs' →
     (∃ s, cs' = Text s :: cs) ∨ cs' = append script_tag cs) →
  edit_first sel g c c' → t ∈ tags_node c →
  ∃ t', t' ∈ tags_node c' ∧ edited sel g t t'.
Proof.
  intros Hg. induction 1 as [nm a cs cs' Hsel Hcall | nm a l1 c c' l2 Hsel Hl1 Hc IH].
  - simpl. fold (tags cs) (tags cs'). intros [-> | Hin]%elem_of_cons.
    + exists (Tag nm a cs'). split; [by left |].
      exists nm, a, cs, cs'. eauto 10.
    + exists t. split.
      * right. destruct (Hg _ _ Hcall) as [[s ->] | ->]; [done |].
        rewrite tags_append_script. apply elem_of_app. by left.
      * destruct (elem_of_tags _ _ Hin) as (nm' & a' & cs0 & ->).
        exists nm', a', cs0, cs0. eauto.
  - simpl. fold (tags (l1 ++ c :: l2)) (tags (l1 ++ c' :: l2)).
    rewrite !tags_app. unfold tags at 2 4. simpl. fold (tags l2).
    intros [-> | Hin]%elem_of_cons.
    + exists (Tag nm a (l1 ++ c' :: l2)). split; [by left |].
      exists nm, a, (l1 ++ c :: l2), (l1 ++ c' :: l2).
      split; [done |]. split; [done |]. right. right. by exists l1, c, c', l2.
    + apply elem_of_app in Hin as [Hin | [Hin | Hin]%elem_of_app].
      * exists t. split; [right; apply elem_of_app; by left |].
        destruct (elem_of_tags _ _ Hin) as (nm' & a' & cs0 & ->).
        exists nm', a', cs0, cs0. eauto.
      * destruct (IH Hin) as (t' & Hin' & Hed). exists t'. split; [| done].
        right. apply elem_of_app. right. apply elem_of_app. by left.
      * exists t. split.
        -- right. apply elem_of_app. right. apply elem_of_app. by right.
        -- destruct (elem_of_tags _ _ Hin) as (nm' & a' & cs0 & ->).
           exists nm', a', cs0, cs0. eauto.
Qed.

Lemma with_first_elem sel g d d' t :
  (∀ cs cs', g cs = Ok cs' →
     (∃ s, cs' = Text s :: cs) ∨ cs' = append script_tag cs) →
  with_first sel g d = Ok d' → t ∈ tags d →
  ∃ t', t' ∈ tags d' ∧ edited sel g t t'.
Proof.
  intros Hg (l1 & c & c' & l2 & -> & -> & _ & Hc)%with_first_Ok.
  rewrite !tags_app. unfold tags at 2 4. simpl. fold (tags l2).
  intros [Hin | [Hin | Hin]%elem_of_app]%elem_of_app.
  - exists t. split; [apply elem_of_app; by left |].
    destruct (elem_of_tags _ _ Hin) as (nm' & a' & cs0 & ->).
    exists nm', a', cs0, cs0. eauto.
  - destruct (edit_first_elem _ _ _ _ _ Hg Hc Hin) as (t' & Hin' & Hed).
    exists t'. split; [| done].
    apply elem_of_app. right. apply elem_of_app. by left.
  - exists t. split.
    + apply elem_of_app. right. apply elem_of_app. by right.
    + destruct (elem_of_tags _ _ Hin) as (nm' & a' & cs0 & ->).
      exists nm', a', cs0, cs0. eauto.
Qed.

(** A tag through a loop that writes attributes, forwards and
    backwards. *)
Lemma attr_loop_elem sel f d d' nm a cs :
  for_each_in sel (on_attrs f) d = Ok d' → Tag nm a cs ∈ tags d →
  ∃ a' cs', Tag nm a' cs' ∈ tags d' ∧ shape cs' = shape cs ∧
            (if sel nm a then f a else Ok a) = Ok a'.
Proof.
  intros Hd Ht.
  destruct (for_each_in_elem _ _ _ _ _ (on_attrs_adds_strings_only _) Hd Ht)
    as (t' & Ht' & nm0 & a0 & cs1 & cs0 & a' & cs' & [= <- <- <-] & -> & Hcs & Hbody).
  apply for_each_shape in Hcs.
  exists a', cs'. split; [done |]. destruct (sel nm a).
  - unfold on_attrs in Hbody.
    by apply result_bind_Ok in Hbody as (a1 & -> & [= <- <-]).
  - by injection Hbody as <- <-.
Qed.

Lemma for_each_in_elem_rev sel f d d' t' :
  adds_strings_only f →
  for_each_in sel f d = Ok d' →
  t' ∈ tags d' → ∃ t, t ∈ tags d ∧ step sel f t t'.
Proof.
  intros Hf Hd Ht. apply (for_each_in_tags _ _ _ _ Hf) in Hd.
  apply list_elem_of_lookup in Ht as [i Hi].
  destruct (Forall2_lookup_r _ _ _ _ _ Hd Hi) as (t & Hi' & Hstep).
  exists t. split; [by eapply list_elem_of_lookup_2 | done].
Qed.

Lemma attr_loop_elem_rev sel f d d' nm a' cs' :
  for_each_in sel (on_attrs f) d = Ok d' → Tag nm a' cs' ∈ tags d' →
  ∃ a cs, Tag nm a cs ∈ tags d ∧ shape cs' = shape cs ∧
          (if sel nm a then f a else Ok a) = Ok a'.
Proof.
  intros Hd Ht.
  destruct (for_each_in_elem_rev _ _ _ _ _ (on_attrs_adds_strings_only _) Hd Ht)
    as (t & Ht0 & nm0 & a0 & cs1 & cs0 & a1 & cs2 & -> & [= <- <- <-] & Hcs & Hbody).
  apply for_each_shape in Hcs.
  exists a0, cs1. split; [done |]. destruct (sel nm a0).
  - unfold on_attrs in Hbody.
    by apply result_bind_Ok in Hbody as (a1 & -> & [= <- <-]).
  - by injection Hbody as <- <-.
Qed.

Lemma static_passes_Ok app d d4 :
  static_passes app d = Ok d4 ↔
  ∃ d1 d2 d3,
    links_pass app d = Ok d1 ∧ imgs_pass app d1 = Ok d2 ∧
    scripts_pass app d2 = Ok d3 ∧ lottie_pass app d3 = Ok d4.
Proof.
  unfold static_passes. split.
  - intros (d1 & H1 & (d2 & H2 & (d3 & H3 & H4)%result_bind_Ok)%result_bind_Ok)%result_bind_Ok.
    by exists d1, d2, d3.
  - intros (d1 & d2 & d3 & -> & H2 & H3 & H4). simpl.
    rewrite H2. simpl. rewrite H3. done.
Qed.

Lemma rewrite_static app d d' :
  rewrite app d = Ok d' ↔
  ∃ d4 d5 d6 d7,
    static_passes app d = Ok d4 ∧ data_for_pass d4 = Ok d5 ∧
    load_static_pass d5 = Ok d6 ∧ csrf_pass d6 = Ok d7 ∧ async_pass d7 = Ok d'.
Proof.
  rewrite rewrite_Ok. split.
  - intros (d1 & d2 & d3 & d4 & d5 & d6 & d7 & H1 & H2 & H3 & H4 & H).
    exists d4, d5, d6, d7. split; [| done].
    apply static_passes_Ok. by exists d1, d2, d3.
  - intros (d4 & d5 & d6 & d7 & (d1 & d2 & d3 & H1 & H2 & H3 & H4)%static_passes_Ok & H).
    by exists d1, d2, d3, d4, d5, d6, d7.
Qed.

Lemma static_elem app d d4 nm a cs :
  static_passes app d = Ok d4 → Tag nm a cs ∈ tags d →
  ∃ a4 c4, Tag nm a4 c4 ∈ tags d4 ∧ shape c4 = shape cs ∧
           static_attrs app nm a = Ok a4.
Proof.
  intros (d1 & d2 & d3 & H1 & H2 & H3 & H4)%static_passes_Ok Ht.
  destruct (attr_loop_elem _ _ _ _ _ _ _ H1 Ht) as (a1 & c1 & Ht1 & S1 & Ha1).
  destruct (attr_loop_elem _ _ _ _ _ _ _ H2 Ht1) as (a2 & c2 & Ht2 & S2 & Ha2).
  destruct (attr_loop_elem _ _ _ _ _ _ _ H3 Ht2) as (a3 & c3 & Ht3 & S3 & Ha3).
  destruct (attr_loop_elem _ _ _ _ _ _ _ H4 Ht3) as (a4 & c4 & Ht4 & S4 & Ha4).
  exists a4, c4. split; [done |]. split; [congruence |].
  apply static_attrs_Ok. by exists a1, a2, a3.
Qed.

Lemma static_elem_rev app d d4 nm a4 c4 :
  static_passes app d = Ok d4 → Tag nm a4 c4 ∈ tags d4 →
  ∃ a cs, Tag nm a cs ∈ tags d ∧ shape c4 = shape cs ∧
          static_attrs app nm a = Ok a4.
Proof.
  intros (d1 & d2 & d3 & H1 & H2 & H3 & H4)%static_passes_Ok Ht4.
  destruct (attr_loop_elem_rev _ _ _ _ _ _ _ H4 Ht4) as (a3 & c3 & Ht3 & S4 & Ha4).
  destruct (attr_loop_elem_rev _ _ _ _ _ _ _ H3 Ht3) as (a2 & c2 & Ht2 & S3 & Ha3).
  destruct (attr_loop_elem_rev _ _ _ _ _ _ _ H2 Ht2) as (a1 & c1 & Ht1 & S2 & Ha2).
  destruct (attr_loop_elem_rev _ _ _ _ _ _ _ H1 Ht1) as (a & cs & Ht & S1 & Ha1).
  exists a, cs. split; [done |]. split; [congruence |].
  apply static_attrs_Ok. by exists a1, a2, a3.
Qed.

Lemma convert_data_for_attrs nm a cs a' cs' :
  convert_data_for nm a cs = Ok (a', cs') → a' = data_for_attrs nm a.
Proof.
  unfold convert_data_for, data_for_attrs.
  destruct (get "data-for" a) as [v |]; [simpl | done].
  destruct (split_chr_pieces " " v) as [_ ->].
  destruct (contains_chr " " v).
  - intros (cs1 & _ & (cs2 & _ & [= <- _])%result_bind_Ok)%result_bind_Ok. done.
  - destruct (String.eqb nm "img"); [by intros [= <- _] |].
    by intros (cs1 & _ & [= <- _])%result_bind_Ok.
Qed.

(** A tag through the [data-for] loop: the body runs on the tag with its
    children as the loop left them. *)
Lemma data_for_pass_elem d d' nm a cs :
  data_for_pass d = Ok d' → Tag nm a cs ∈ tags d →
  ∃ cs',
    Tag nm (if has_data_for nm a then data_for_attrs nm a else a) cs' ∈ tags d' ∧
    if has_data_for nm a
    then ∃ cs0, shape cs0 = shape cs ∧
                convert_data_for nm a cs0 = Ok (data_for_attrs nm a, cs')
    else shape cs' = shape cs.
Proof.
  intros Hd Ht.
  destruct (for_each_in_elem _ _ _ _ _ convert_data_for_adds_strings_only Hd Ht)
    as (t' & Ht' & nm0 & a0 & cs1 & cs0 & a' & cs' & [= <- <- <-] & -> & Hcs & Hbody).
  apply for_each_shape in Hcs.
  exists cs'. destruct (has_data_for nm a).
  - rewrite <- (convert_data_for_attrs _ _ _ _ _ Hbody). split; [done |].
    exists cs0. split; [done |]. done.
  - by injection Hbody as <- <-.
Qed.

Lemma has_data_for_name nm a :
  has_data_for nm a = true → nm ∈ ["div"; "img"; "li"; "ul"].
Proof.
  unfold has_data_for. intros [Hnm _]%andb_true_iff.
  apply orb_true_iff in Hnm as [Hnm | ->%String.eqb_eq]; [| set_solver].
  apply orb_true_iff in Hnm as [Hnm | ->%String.eqb_eq]; [| set_solver].
  apply orb_true_iff in Hnm as [->%String.eqb_eq | ->%String.eqb_eq]; set_solver.
Qed.

Lemma csrf_pass_elem d d' nm a cs :
  csrf_pass d = Ok d' → Tag nm a cs ∈ tags d →
  ∃ cs', Tag nm a cs' ∈ tags d' ∧
         shape cs' = if named "form" nm a then Some csrf_tag :: shape cs
                     else shape cs.
Proof.
  intros Hd Ht.
  destruct (for_each_in_elem _ _ _ _ _ add_csrf_adds_strings_only Hd Ht)
    as (t' & Ht' & nm0 & a0 & cs1 & cs0 & a' & cs' & [= <- <- <-] & -> & Hcs & Hbody).
  apply for_each_shape in Hcs.
  exists cs'. destruct (named "form" nm a).
  - unfold add_csrf in Hbody. rewrite insert_0 in Hbody. simpl in Hbody.
    injection Hbody as <- <-. split; [done |]. simpl. by rewrite Hcs.
  - by injection Hbody as <- <-.
Qed.

Lemma call_elem sel g d d' nm a cs :
  (∀ cs cs', g cs = Ok cs' →
     (∃ s, cs' = Text s :: cs) ∨ cs' = append script_tag cs) →
  with_first sel g d = Ok d' → Tag nm a cs ∈ tags d →
  ∃ cs', Tag nm a cs' ∈ tags d' ∧ (sel nm a = false → shape cs' = shape cs).
Proof.
  intros Hg Hd Ht.
  destruct (with_first_elem _ _ _ _ _ Hg Hd Ht) as (t' & Ht' & Hed).
  pose proof Hed as (nm0 & a0 & cs0 & cs' & [= <- <- <-] & -> & _).
  exists cs'. split; [done |]. intros Hsel.
  destruct (edited_shape _ _ _ _ _ _ Hsel Hed) as (cs2 & [= <-] & Hsh). done.
Qed.

(** Every tag of a document is in the rewritten document, with the
    attributes that the passes give it; its strings are those it had
    unless it is one of the tags that the passes insert into. *)
Lemma rewrite_elem app d d' nm a cs :
  rewrite app d = Ok d' → Tag nm a cs ∈ tags d →
  ∃ a' cs', Tag nm a' cs' ∈ tags d' ∧ attrs_after app nm a = Ok a' ∧
    (has_data_for nm a = false → nm ∉ ["html"; "body"; "form"] →
     shape cs' = shape cs) ∧
    (nm = "form" → shape cs' = Some csrf_tag :: shape cs) ∧
    (has_data_for nm a = true →
     ∃ a4 cs0 c5, static_attrs app nm a = Ok a4 ∧ shape cs0 = shape cs ∧
       convert_data_for nm a4 cs0 = Ok (a', c5) ∧ shape cs' = shape c5).
Proof.
  intros (d4 & d5 & d6 & d7 & H4 & H5 & H6 & H7 & H8)%rewrite_static Ht.
  destruct (static_elem _ _ _ _ _ _ H4 Ht) as (a4 & c4 & Ht4 & S4 & Ha4).
  destruct (data_for_pass_elem _ _ _ _ _ H5 Ht4) as (c5 & Ht5 & S5).
  destruct (call_elem _ _ _ _ _ _ _ load_static_call H6 Ht5) as (c6 & Ht6 & S6).
  destruct (csrf_pass_elem _ _ _ _ _ H7 Ht6) as (c7 & Ht7 & S7).
  destruct (call_elem _ _ _ _ _ _ _ async_call H8 Ht7) as (c8 & Ht8 & S8).
  pose proof (only_values_data_for _ _ nm (static_attrs_only_values _ _ _ _ Ha4)) as Hdf.
  eexists _, c8. split; [exact Ht8 |]. split; [| split; [| split]].
  - unfold attrs_after. rewrite Ha4. done.
  - intros Hno Hnm. rewrite Hdf, Hno in S5.
    assert (nm ≠ "html" ∧ nm ≠ "body" ∧ nm ≠ "form") as (N1 & N2 & N3).
    { set_solver. }
    rewrite S8, S7, S6, S5, S4; unfold named; try done.
    + by rewrite (proj2 (String.eqb_neq _ _) N3).
    + by apply String.eqb_neq.
    + by apply String.eqb_neq.
  - intros ->. change (has_data_for "form" a4) with false in S5.
    rewrite S8, S7, S6 by done. simpl. congruence.
  - intros Hsel. rewrite Hdf, Hsel in S5. destruct S5 as (cs0 & Hcs0 & Hbody).
    exists a4, cs0, c5. split; [done |]. split; [congruence |].
    split; [by rewrite Hdf, Hsel |].
    assert (nm ≠ "html" ∧ nm ≠ "body" ∧ nm ≠ "form") as (N1 & N2 & N3).
    { apply has_data_for_name in Hsel. set_solver. }
    rewrite S8, S7, S6; unfold named; try done.
    + by rewrite (proj2 (String.eqb_neq _ _) N3).
    + by apply String.eqb_neq.
    + by apply String.eqb_neq.
Qed.

End WholeFacts.

(* ===================================================================== *)
(** * More properties of [update_html] *)
(* ===================================================================== *)

Import Whole.

Lemma attrs_after_link app a : attrs_after app "link" a = update_link app a.
Proof.
  unfold attrs_after, static_attrs.
  change (named "link" "link" a) with true.
  by destruct (update_link app a).
Qed.

Lemma static_attrs_img app a : static_attrs app "img" a = update_img app a.
Proof.
  unfold static_attrs.
  change (named "link" "img" a) with false. simpl.
  change (named "img" "img" a) with true.
  by destruct (update_img app a).
Qed.

Lemma attrs_after_script app a : attrs_after app "script" a = update_script app a.
Proof.
  unfold attrs_after, static_attrs.
  change (named "link" "script" a) with false. simpl.
  change (named "img" "script" a) with false. simpl.
  change (named "script" "script" a) with true.
  by destruct (update_script app a).
Qed.

Lemma data_for_attrs_other nm a : nm ≠ "img" → data_for_attrs nm a = a.
Proof.
  intros Hnm. unfold data_for_attrs.
  destruct (get "data-for" a) as [v |]; [| done].
  destruct (contains_chr " " v); [done |].
  by destruct (String.eqb_spec nm "img").
Qed.

Lemma attrs_after_div app a :
  attrs_after app "div" a
  = if is_lottie "div" a then update_lottie app a else Ok a.
Proof.
  unfold attrs_after, static_attrs.
  change (named "link" "div" a) with false. simpl.
  change (named "img" "div" a) with false. simpl.
  change (named "script" "div" a) with false. simpl.
  destruct (if is_lottie "div" a then update_lottie app a else Ok a) as [a4 | e];
    [| done].
  simpl. rewrite data_for_attrs_other by done. by destruct (has_data_for "div" a4).
Qed.

Lemma attrs_after_others app nm a :
  nm ∉ ["link"; "img"; "script"; "div"] → attrs_after app nm a = Ok a.
Proof.
  intros Hnm.
  assert (nm ≠ "link" ∧ nm ≠ "img" ∧ nm ≠ "script" ∧ nm ≠ "div")
    as (N1 & N2 & N3 & N4) by set_solver.
  unfold attrs_after, static_attrs, named, is_lottie.
  rewrite (proj2 (String.eqb_neq _ _) N1). simpl.
  rewrite (proj2 (String.eqb_neq _ _) N2). simpl.
  rewrite (proj2 (String.eqb_neq _ _) N3). simpl.
  rewrite (proj2 (String.eqb_neq _ _) N4). simpl.
  rewrite data_for_attrs_other by done. by destruct (has_data_for nm a).
Qed.

Lemma attrs_after_only_values app nm a a' :
  attrs_after app nm a = Ok a' → only_values a a'.
Proof.
  unfold attrs_after. intros (a4 & Ha4 & [= <-])%result_bind_Ok.
  pose proof (static_attrs_only_values _ _ _ _ Ha4) as K4.
  destruct (has_data_for nm a4); [| done].
  eapply only_values_trans; [exact K4 |].
  apply data_for_attrs_only_values. intros ->.
  rewrite static_attrs_img in Ha4.
  destruct (update_img_src _ _ _ Ha4) as (v & _ & ->). eauto.
Qed.

Ltac find_tag :=
  vm_compute; repeat first [apply list_elem_of_here | apply list_elem_of_further].

(** X1.  In a document that [update_html] rewrites, every link has an
    href; when the href begins with css or with images the link ends
    with the static reference to that href, written once, and otherwise
    with the attributes it had.  Its strings stay. *)
Theorem link_href_rewritten app d d' a cs :
  rewrite app d = Ok d' → Tag "link" a cs ∈ tags d →
  ∃ v cs', get "href" a = Some v ∧ shape cs' = shape cs ∧
    Tag "link" (if String.prefix "css" v || String.prefix "images" v
                then set "href" (static_ref app (Some v)) a else a) cs'
      ∈ tags d'.
Proof.
  intros Hd Ht.
  destruct (rewrite_elem _ _ _ _ _ _ Hd Ht) as (a' & cs' & Ht' & Ha' & Hsh & _).
  rewrite attrs_after_link in Ha'.
  destruct (get "href" a) as [v |] eqn:Hv;
    [| unfold update_link in Ha'; by rewrite Hv in Ha'].
  rewrite (update_link_value _ _ _ Hv) in Ha'. injection Ha' as <-.
  exists v, cs'. split; [done |]. split; [| done].
  apply Hsh; [done |]. set_solver.
Qed.

Lemma link_href_rewritten_witness :
  ∃ v cs', get "href" [("rel", "stylesheet"); ("href", "css/a.css")] = Some v ∧
    shape cs' = shape [] ∧
    Tag "link" (if String.prefix "css" v || String.prefix "images" v
                then set "href" (static_ref "web" (Some v))
                       [("rel", "stylesheet"); ("href", "css/a.css")]
                else [("rel", "stylesheet"); ("href", "css/a.css")]) cs'
      ∈ tags site_page_rewritten.
Proof.
  apply (link_href_rewritten "web" site_page site_page_rewritten).
  - vm_compute. reflexivity.
  - find_tag.
Defined.

(** X2.  In a document that [update_html] rewrites, every img has a src.
    Its final src is the interpolation of its data-for value when that
    value has no space, whatever the image loop wrote before; otherwise
    it is the static reference to the src when the src begins with
    images, and the src itself when it does not. *)
Theorem img_src_rewritten app d d' a cs :
  rewrite app d = Ok d' → Tag "img" a cs ∈ tags d →
  ∃ v a' cs', get "src" a = Some v ∧ Tag "img" a' cs' ∈ tags d' ∧
    get "src" a' =
      Some (match get "data-for" a with
            | Some x =>
                if contains_chr " " x
                then if String.prefix "images" v
                     then static_ref app (Some v) else v
                else variable x
            | None => if String.prefix "images" v
                      then static_ref app (Some v) else v
            end).
Proof.
  intros Hd Ht.
  destruct (rewrite_elem _ _ _ _ _ _ Hd Ht) as (a' & cs' & Ht' & Ha' & _).
  unfold attrs_after in Ha'. apply result_bind_Ok in Ha' as (a2 & Ha2 & [= <-]).
  pose proof (static_attrs_only_values _ _ _ _ Ha2) as [_ V].
  rewrite static_attrs_img in Ha2.
  destruct (update_img_src _ _ _ Ha2) as (v & Hv & Hsrc).
  exists v. eexists _, cs'. split; [done |]. split; [exact Ht' |].
  assert (get "data-for" a2 = get "data-for" a) as Hdf.
  { apply V. unfold written. set_solver. }
  unfold has_data_for, data_for_attrs. simpl. rewrite Hdf.
  destruct (get "data-for" a) as [x |].
  - rewrite bool_decide_eq_true_2 by eauto.
    destruct (contains_chr " " x); [done |]. by rewrite get_set_eq.
  - rewrite bool_decide_eq_false_2; [done |]. by intros [? ?].
Qed.

Lemma img_src_rewritten_witness :
  ∃ v a' cs',
    get "src" [("data-for", "item.photo"); ("src", "images/ph.png")] = Some v ∧
    Tag "img" a' cs' ∈ tags site_page_rewritten ∧
    get "src" a' =
      Some (match get "data-for"
                    [("data-for", "item.photo"); ("src", "images/ph.png")] with
            | Some x =>
                if contains_chr " " x
                then if String.prefix "images" v
                     then static_ref "web" (Some v) else v
                else variable x
            | None => if String.prefix "images" v
                      then static_ref "web" (Some v) else v
            end).
Proof.
  apply (img_src_rewritten "web" site_page site_page_rewritten _ []).
  - vm_compute. reflexivity.
  - find_tag.
Defined.

(** X3.  In a document that [update_html] rewrites, a script whose src
    begins with js ends with the static reference to that src, and every
    other script, with or without a src, ends with the attributes it
    had.  Its strings stay. *)
Theorem script_src_rewritten app d d' a cs :
  rewrite app d = Ok d' → Tag "script" a cs ∈ tags d →
  ∃ cs', shape cs' = shape cs ∧
    Tag "script" (match get "src" a with
                  | Some v => if String.prefix "js" v
                              then set "src" (static_ref app (Some v)) a else a
                  | None => a
                  end) cs' ∈ tags d'.
Proof.
  intros Hd Ht.
  destruct (rewrite_elem _ _ _ _ _ _ Hd Ht) as (a' & cs' & Ht' & Ha' & Hsh & _).
  rewrite attrs_after_script, update_script_value in Ha'. injection Ha' as <-.
  exists cs'. split; [| done]. apply Hsh; [done |]. set_solver.
Qed.

Lemma script_src_rewritten_witness :
  ∃ cs', shape cs' = shape [] ∧
    Tag "script" (match get "src" [("src", "js/site.js"); ("defer", "")] with
                  | Some v => if String.prefix "js" v
                              then set "src" (static_ref "web" (Some v))
                                     [("src", "js/site.js"); ("defer", "")]
                              else [("src", "js/site.js"); ("defer", "")]
                  | None => [("src", "js/site.js"); ("defer", "")]
                  end) cs' ∈ tags site_page_rewritten.
Proof.
  apply (script_src_rewritten "web" site_page site_page_rewritten).
  - vm_compute. reflexivity.
  - find_tag.
Defined.

(** X4.  In a document that [update_html] rewrites, a div marked as a
    lottie container whose data-src begins with documents ends with the
    static reference to that data-src; a div without the mark keeps its
    data-src, and no div has another attribute changed. *)
Theorem lottie_data_src_rewritten app d d' a cs :
  rewrite app d = Ok d' → Tag "div" a cs ∈ tags d →
  ∃ cs',
    Tag "div" (if is_lottie "div" a
               then match get "data-src" a with
                    | Some v =>
                        if String.prefix "documents" v
                        then set "data-src" (static_ref app (Some v)) a else a
                    | None => a
                    end
               else a) cs' ∈ tags d'.
Proof.
  intros Hd Ht.
  destruct (rewrite_elem _ _ _ _ _ _ Hd Ht) as (a' & cs' & Ht' & Ha' & _).
  rewrite attrs_after_div in Ha'. exists cs'.
  destruct (is_lottie "div" a).
  - rewrite update_lottie_value in Ha'. by injection Ha' as <-.
  - by injection Ha' as <-.
Qed.

Lemma lottie_data_src_rewritten_witness :
  ∃ cs',
    Tag "div" (if is_lottie "div" [("data-src", "documents/plain.json")]
               then match get "data-src" [("data-src", "documents/plain.json")] with
                    | Some v =>
                        if String.prefix "documents" v
                        then set "data-src" (static_ref "web" (Some v))
                               [("data-src", "documents/plain.json")]
                        else [("data-src", "documents/plain.json")]
                    | None => [("data-src", "documents/plain.json")]
                    end
               else [("data-src", "documents/plain.json")]) cs'
      ∈ tags site_page_rewritten.
Proof.
  apply (lottie_data_src_rewritten "web" site_page site_page_rewritten _
           [Text "plain"]).
  - vm_compute. reflexivity.
  - find_tag.
Defined.

(** X5.  [update_html] adds no attribute to a tag of the document,
    removes none and keeps their order; only the values of href, src,
    srcset and data-src can change, and a tag that is not a link, an
    img, a script or a div keeps all its attributes as they are. *)
Theorem attributes_kept app d d' nm a cs :
  rewrite app d = Ok d' → Tag nm a cs ∈ tags d →
  ∃ a' cs', Tag nm a' cs' ∈ tags d' ∧
    a'.*1 = a.*1 ∧
    (∀ k, k ∉ ["href"; "src"; "srcset"; "data-src"] → get k a' = get k a) ∧
    (nm ∉ ["link"; "img"; "script"; "div"] → a' = a).
Proof.
  intros Hd Ht.
  destruct (rewrite_elem _ _ _ _ _ _ Hd Ht) as (a' & cs' & Ht' & Ha' & _).
  exists a', cs'. split; [done |].
  destruct (attrs_after_only_values _ _ _ _ Ha') as [K V].
  split; [done |]. split; [done |].
  intros Hnm. rewrite attrs_after_others in Ha' by done. by injection Ha'.
Qed.

Lemma attributes_kept_witness :
  ∃ a' cs', Tag "img" a' cs' ∈ tags site_page_rewritten ∧
    a'.*1 = [("src", "images/b.png"); ("alt", "b");
             ("srcset", "images/b.png 1x, images/c.png 2x")].*1 ∧
    (∀ k, k ∉ ["href"; "src"; "srcset"; "data-src"] →
          get k a' = get k [("src", "images/b.png"); ("alt", "b");
                            ("srcset", "images/b.png 1x, images/c.png 2x")]) ∧
    ("img" ∉ ["link"; "img"; "script"; "div"] →
     a' = [("src", "images/b.png"); ("alt", "b");
           ("srcset", "images/b.png 1x, images/c.png 2x")]).
Proof.
  apply (attributes_kept "web" site_page site_page_rewritten "img" _ []).
  - vm_compute. reflexivity.
  - find_tag.
Defined.

(** X6.  [update_html] inserts strings only into the tags with a
    data-for attribute that the loop selects, into html, body and form
    tags: every other tag of the document keeps its strings in place,
    and every form gets the csrf marker before the strings it had. *)
Theorem strings_kept app d d' nm a cs :
  rewrite app d = Ok d' → Tag nm a cs ∈ tags d →
  ∃ a' cs', Tag nm a' cs' ∈ tags d' ∧
    (has_data_for nm a = false → nm ∉ ["html"; "body"; "form"] →
     shape cs' = shape cs) ∧
    (nm = "form" → shape cs' = Some csrf_tag :: shape cs).
Proof.
  intros Hd Ht.
  destruct (rewrite_elem _ _ _ _ _ _ Hd Ht) as (a' & cs' & Ht' & _ & H1 & H2 & _).
  by exists a', cs'.
Qed.

Lemma strings_kept_witness :
  ∃ a' cs', Tag "div" a' cs' ∈ tags site_page_rewritten ∧
    (has_data_for "div" [("data-src", "documents/plain.json")] = false →
     "div" ∉ ["html"; "body"; "form"] → shape cs' = shape [Text "plain"]) ∧
    ("div" = "form" → shape cs' = Some csrf_tag :: shape [Text "plain"]).
Proof.
  apply (strings_kept "web" site_page site_page_rewritten).
  - vm_compute. reflexivity.
  - find_tag.
Defined.

(** X7.  [update_html] rewrites a document without raising exactly when
    every link has an href, every img has a src, [re.sub] accepts the
    replacement template made from the app name if some img has a srcset
    that begins with images, every selected tag whose data-for value has
    a space has a child, and the document has an html and a body tag. *)
Theorem rewrite_succeeds_iff app d :
  (∃ d', rewrite app d = Ok d') ↔
  All passable d ∧ All (srcset_ready app) d
  ∧ is_Some (find (named "html") d) ∧ is_Some (find (named "body") d).
Proof.
  split.
  - intros [d' Hd].
    pose proof Hd as (d4 & d5 & d6 & d7 & H4 & H5 & _)%rewrite_static.
    pose proof H4 as (d1 & d2 & d3 & H1 & H2 & _)%static_passes_Ok.
    split; [| split; [| split]].
    + apply Forall_forall. intros t Ht.
      destruct (elem_of_tags _ _ Ht) as (nm & a & cs & ->). simpl.
      split; [| split].
      * intros ->. by eapply links_pass_needs_href.
      * intros ->. destruct (links_pass_img _ _ _ _ _ H1 Ht) as [cs1 Ht1].
        by eapply imgs_pass_needs_src.
      * intros v Hsel Hv Hsp Hsh.
        destruct (static_elem _ _ _ _ _ _ H4 Ht) as (a4 & c4 & Ht4 & S4 & Ha4).
        pose proof (static_attrs_only_values _ _ _ _ Ha4) as K4.
        pose proof (only_values_data_for _ _ nm K4) as Hdf.
        destruct K4 as [_ V].
        destruct (data_for_pass_elem _ _ _ _ _ H5 Ht4) as (c5 & _ & S5).
        rewrite Hdf, Hsel in S5. destruct S5 as (cs0 & Hcs0 & Hok).
        rewrite S4, Hsh in Hcs0. destruct cs0; [| done].
        rewrite (convert_data_for_loop_empty nm a4 v) in Hok; [done | | done].
        rewrite V; [done |]. unfold written. set_solver.
    + apply Forall_forall. intros t Ht.
      destruct (elem_of_tags _ _ Ht) as (nm & a & cs & ->). simpl.
      intros ->. destruct (links_pass_img _ _ _ _ _ H1 Ht) as [cs1 Ht1].
      by apply (imgs_pass_needs_template _ _ _ _ _ H2 Ht1 eq_refl).
    + destruct (find (named "html") d) eqn:Hfind; [eauto |].
      destruct (rewrite_raises app d) as [e He]; [eauto |]. congruence.
    + destruct (find (named "body") d) eqn:Hfind; [eauto |].
      destruct (rewrite_raises app d) as [e He]; [eauto 10 |]. congruence.
  - intros (Hp & Hr & [th Hh] & [tb Hb]).
    destruct (find_named _ _ _ Hh) as (ah & ch & ->).
    destruct (find_named _ _ _ Hb) as (ab & cb & ->).
    destruct (rewrite_again app 0 d) as (d' & Hd & _); [done | done | | | | eauto].
    + by exists ah, ch.
    + apply forms_csrf_0.
    + exists ab, cb. by rewrite app_nil_r.
Qed.

(** ** The static loops run again *)

Lemma mapM_fixed {A} (f : A → result A) l :
  Forall (λ x, f x = Ok x) l → mapM f l = Ok l.
Proof.
  intros H. apply mapM_Ok. induction H; constructor; done.
Qed.

Lemma for_each_fixed sel f n :
  (∀ nm a cs, Tag nm a cs ∈ tags_node n → sel nm a = true → f a = Ok a) →
  for_each sel (on_attrs f) n = Ok n.
Proof.
  induction n as [s | nm a cs IHcs] using node_induction; intros Hf; [done |].
  simpl. rewrite (mapM_fixed _ cs).
  - simpl. destruct (sel nm a) eqn:Hsel; [| done].
    unfold on_attrs. rewrite (Hf nm a cs); [done | by left | done].
  - rewrite Forall_forall in IHcs. apply Forall_forall. intros c Hc.
    apply IHcs; [done |]. intros nm' a' cs' Hin. apply (Hf nm' a' cs'). right.
    apply list_elem_of_In, in_flat_map. exists c.
    split; by apply list_elem_of_In.
Qed.

Lemma for_each_in_fixed sel f d :
  (∀ nm a cs, Tag nm a cs ∈ tags d → sel nm a = true → f a = Ok a) →
  for_each_in sel (on_attrs f) d = Ok d.
Proof.
  intros Hf. apply mapM_fixed, Forall_forall. intros c Hc.
  apply for_each_fixed. intros nm a cs Hin. apply (Hf nm a cs).
  apply list_elem_of_In, in_flat_map. exists c. split; by apply list_elem_of_In.
Qed.

Lemma update_link_again app a a' :
  update_link app a = Ok a' → update_link app a' = Ok a'.
Proof.
  destruct (get "href" a) as [v |] eqn:Hv;
    [| unfold update_link; by rewrite Hv].
  rewrite (update_link_value _ _ _ Hv). intros [= <-].
  destruct (String.prefix "css" v) eqn:Hcss; simpl.
  - rewrite (update_link_value _ _ (static_ref app (Some v)))
      by apply get_set_eq.
    by rewrite !static_ref_prefix.
  - destruct (String.prefix "images" v) eqn:Himg.
    + rewrite (update_link_value _ _ (static_ref app (Some v)))
        by apply get_set_eq.
      by rewrite !static_ref_prefix.
    + rewrite (update_link_value _ _ _ Hv). by rewrite Hcss, Himg.
Qed.

Lemma update_script_again app a a' :
  update_script app a = Ok a' → update_script app a' = Ok a'.
Proof.
  rewrite !update_script_value. intros [= <-].
  destruct (get "src" a) as [v |] eqn:Hv; [| by rewrite Hv].
  destruct (String.prefix "js" v) eqn:Hjs.
  - by rewrite get_set_eq, static_ref_prefix.
  - by rewrite Hv, Hjs.
Qed.

Lemma update_lottie_again app a a' :
  update_lottie app a = Ok a' → update_lottie app a' = Ok a'.
Proof.
  rewrite !update_lottie_value. intros [= <-].
  destruct (get "data-src" a) as [v |] eqn:Hv; [| by rewrite Hv].
  destruct (String.prefix "documents" v) eqn:Hdoc.
  - by rewrite get_set_eq, static_ref_prefix.
  - by rewrite Hv, Hdoc.
Qed.

Lemma sub_images_head app s :
  Re.no_backslash app = true → is_Some (Re.match_here s) →
  ∃ s', Re.sub_images app s = Ok s' ∧ String.prefix "images" s' = false.
Proof.
  intros Happ [g (rest & -> & Hne & Hg & Hrest)%match_here_Some].
  rewrite (sub_images_literal _ _ Happ). eexists. split; [done |].
  rewrite scan_image by done.
  unfold Re.expand. by rewrite !append_cons.
Qed.

Lemma update_img_again app a a' :
  Re.no_backslash app = true →
  srcset_begins_with_path "img" a [] →
  update_img app a = Ok a' → update_img app a' = Ok a'.
Proof.
  intros Happ Hset (v & a1 & Hv & Ha1 & Hs1 & Hcase)%update_img_inv.
  assert (∃ w, get "src" a1 = Some w ∧ String.prefix "images" w = false)
    as (w & Hw & Hpw).
  { subst a1. destruct (String.prefix "images" v) eqn:Hp.
    - exists (static_ref app (Some v)). split; [apply get_set_eq |].
      by apply static_ref_prefix.
    - by exists v. }
  destruct Hcase as [(Hps & s' & Hsub & ->) | (Hps & ->)].
  - destruct (get "srcset" a) as [s |] eqn:Hs; [| done]. simpl in Hps, Hsub.
    destruct (sub_images_head app s Happ (Hset eq_refl s Hs Hps))
      as (s2 & Hs2 & Hp2).
    rewrite Hsub in Hs2. injection Hs2 as <-.
    unfold update_img. rewrite get_set_ne, Hw by done. simpl.
    rewrite Hpw, get_set_eq. simpl. by rewrite Hp2.
  - unfold update_img. rewrite Hw. simpl. rewrite Hpw, Hs1. by rewrite Hps.
Qed.

(** The loop that acts on a tag, by its name and its lottie mark. *)
Lemma static_attrs_cases app nm a a4 :
  static_attrs app nm a = Ok a4 →
  (nm = "link" ∧ update_link app a = Ok a4)
  ∨ (nm = "img" ∧ update_img app a = Ok a4)
  ∨ (nm = "script" ∧ update_script app a = Ok a4)
  ∨ (is_lottie nm a = true ∧ update_lottie app a = Ok a4)
  ∨ (nm ≠ "link" ∧ nm ≠ "img" ∧ nm ≠ "script" ∧ is_lottie nm a = false
     ∧ a4 = a).
Proof.
  intros Ha4.
  destruct (String.eqb_spec nm "link") as [-> | N1].
  { left. split; [done |]. unfold static_attrs in Ha4.
    change (named "link" "link" a) with true in Ha4.
    by destruct (update_link app a). }
  destruct (String.eqb_spec nm "img") as [-> | N2].
  { right. left. split; [done |]. by rewrite static_attrs_img in Ha4. }
  destruct (String.eqb_spec nm "script") as [-> | N3].
  { right. right. left. split; [done |]. unfold static_attrs in Ha4.
    change (named "link" "script" a) with false in Ha4. simpl in Ha4.
    change (named "img" "script" a) with false in Ha4. simpl in Ha4.
    change (named "script" "script" a) with true in Ha4.
    by destruct (update_script app a). }
  unfold static_attrs, named in Ha4.
  rewrite (proj2 (String.eqb_neq _ _) N1) in Ha4. simpl in Ha4.
  rewrite (proj2 (String.eqb_neq _ _) N2) in Ha4. simpl in Ha4.
  rewrite (proj2 (String.eqb_neq _ _) N3) in Ha4. simpl in Ha4.
  destruct (is_lottie nm a) eqn:Hlot.
  - right. right. right. left. done.
  - right. right. right. right. by injection Ha4 as <-.
Qed.

Lemma is_lottie_div nm a : is_lottie nm a = true → nm = "div".
Proof. unfold is_lottie. by intros [?%String.eqb_eq _]%andb_true_iff. Qed.

(** X8.  The four loops that write static references change nothing
    when they run again on what they produced, for an app name that the
    pattern template takes literally and a document in which every
    srcset that begins with images begins with a path that the pattern
    matches. *)
Theorem static_passes_idempotent app d d4 :
  Re.no_backslash app = true →
  All srcset_begins_with_path d →
  static_passes app d = Ok d4 →
  static_passes app d4 = Ok d4.
Proof.
  intros Happ Hset Hd.
  assert (∀ nm a4 c4, Tag nm a4 c4 ∈ tags d4 →
            ∃ a cs, Tag nm a cs ∈ tags d ∧ static_attrs app nm a = Ok a4)
    as Hfrom.
  { intros nm a4 c4 Ht4.
    destruct (static_elem_rev _ _ _ _ _ _ Hd Ht4) as (a & cs & Ht & _ & Ha).
    eauto. }
  assert (links_pass app d4 = Ok d4) as H1.
  { apply for_each_in_fixed. intros nm a4 c4 Ht4 ->%named_true.
    destruct (Hfrom _ _ _ Ht4) as (a & cs & Ht & Ha).
    destruct (static_attrs_cases _ _ _ _ Ha)
      as [[_ H] | [[? _] | [[? _] | [[?%is_lottie_div _] | (? & _)]]]]; try done.
    by eapply update_link_again. }
  assert (imgs_pass app d4 = Ok d4) as H2.
  { apply for_each_in_fixed. intros nm a4 c4 Ht4 ->%named_true.
    destruct (Hfrom _ _ _ Ht4) as (a & cs & Ht & Ha).
    destruct (static_attrs_cases _ _ _ _ Ha)
      as [[? _] | [[_ H] | [[? _] | [[?%is_lottie_div _] | (_ & ? & _)]]]]; try done.
    eapply update_img_again; [exact Happ | | exact H].
    intros _ s Hs Hp. by apply (All_elem _ _ _ _ _ Hset Ht eq_refl s). }
  assert (scripts_pass app d4 = Ok d4) as H3.
  { apply for_each_in_fixed. intros nm a4 c4 Ht4 ->%named_true.
    destruct (Hfrom _ _ _ Ht4) as (a & cs & Ht & Ha).
    destruct (static_attrs_cases _ _ _ _ Ha)
      as [[? _] | [[? _] | [[_ H] | [[?%is_lottie_div _] | (_ & _ & ? & _)]]]]; try done.
    by eapply update_script_again. }
  assert (lottie_pass app d4 = Ok d4) as H4.
  { apply for_each_in_fixed. intros nm a4 c4 Ht4 Hlot.
    destruct (Hfrom _ _ _ Ht4) as (a & cs & Ht & Ha).
    pose proof (only_values_lottie _ _ nm (static_attrs_only_values _ _ _ _ Ha)) as Hl.
    rewrite Hlot in Hl. apply is_lottie_div in Hlot as ->.
    destruct (static_attrs_cases _ _ _ _ Ha)
      as [[? _] | [[? _] | [[? _] | [[_ H] | (_ & _ & _ & ? & _)]]]];
      try done; [| congruence].
    by eapply update_lottie_again. }
  apply static_passes_Ok. by exists d4, d4, d4.
Qed.

Lemma static_passes_idempotent_witness :
  static_passes "web" site_page_static = Ok site_page_static.
Proof.
  apply (static_passes_idempotent "web" site_page).
  - reflexivity.
  - apply Forall_forall. intros t Ht. vm_compute in Ht.
    repeat (apply elem_of_cons in Ht as [-> | Ht];
            [intros ? s [= <-] ?; by eexists |]).
    by apply elem_of_nil in Ht.
  - vm_compute. reflexivity.
Defined.

(** X9.  A tag that the data-for loop selects ends [update_html] with
    these strings: for a value with a space, the for-loop-open marker
    first and the endfor marker immediately before its last child, not
    after it; for a value without a space, the interpolation first, or
    for an img the strings it had.  No later pass adds to them. *)
Theorem data_for_children_rewritten app d d' nm a cs v :
  rewrite app d = Ok d' → Tag nm a cs ∈ tags d →
  has_data_for nm a = true → get "data-for" a = Some v →
  ∃ a' cs', Tag nm a' cs' ∈ tags d' ∧
    if contains_chr " " v
    then ∃ sh z, shape cs = sh ++ [z] ∧
                 shape cs' = Some (for_open v) :: sh ++ [Some endfor; z]
    else if String.eqb nm "img" then shape cs' = shape cs
         else shape cs' = Some (variable v) :: shape cs.
Proof.
  intros Hd Ht Hsel Hv.
  destruct (rewrite_elem _ _ _ _ _ _ Hd Ht)
    as (a' & cs' & Ht' & _ & _ & _ & Hfor).
  destruct (Hfor Hsel) as (a4 & cs0 & c5 & Ha4 & Hcs0 & Hbody & Hcs').
  exists a', cs'. split; [done |].
  assert (get "data-for" a4 = Some v) as Hv4.
  { destruct (static_attrs_only_values _ _ _ _ Ha4) as [_ V].
    rewrite V; [done |]. unfold written. set_solver. }
  destruct (contains_chr " " v) eqn:Hsp.
  - destruct (decide (cs0 = [])) as [-> | Hne].
    { by rewrite (convert_data_for_loop_empty _ _ _ Hv4 Hsp) in Hbody. }
    destruct (list_last_split cs0 Hne) as (l & z & ->).
    rewrite (convert_data_for_loop_Ok _ _ _ _ l z Hv4 Hsp eq_refl) in Hbody.
    injection Hbody as _ <-.
    exists (shape l), (text_of z). rewrite <- Hcs0, Hcs'.
    split; [by rewrite shape_app |].
    change (Text (for_open v) :: l ++ [Text endfor; z])
      with ([Text (for_open v)] ++ l ++ [Text endfor; z]).
    by rewrite !shape_app.
  - rewrite (convert_data_for_variable _ _ _ _ Hv4 Hsp) in Hbody.
    destruct (String.eqb nm "img"); injection Hbody as _ <-.
    + congruence.
    + rewrite Hcs'. simpl. by rewrite Hcs0.
Qed.

Lemma data_for_children_rewritten_witness :
  ∃ a' cs', Tag "ul" a' cs' ∈ tags site_page_rewritten ∧
    if contains_chr " " "item in items"
    then ∃ sh z, shape [Tag "li" [("data-for", "item.name")] []] = sh ++ [z] ∧
                 shape cs' = Some (for_open "item in items")
                             :: sh ++ [Some endfor; z]
    else if String.eqb "ul" "img"
         then shape cs' = shape [Tag "li" [("data-for", "item.name")] []]
         else shape cs' = Some (variable "item in items")
                          :: shape [Tag "li" [("data-for", "item.name")] []].
Proof.
  apply (data_for_children_rewritten "web" site_page site_page_rewritten
           "ul" [("data-for", "item in items")]).
  - vm_compute. reflexivity.
  - find_tag.
  - reflexivity.
  - reflexivity.
Defined.

(** X10.  [update_html] adds one tag to the document, the form script,
    and removes none: the tags of every name other than script are as
    many as before. *)
Theorem one_tag_added app d d' :
  rewrite app d = Ok d' →
  length (tags d') = S (length (tags d)) ∧
  length (find_all (named "script") d') = S (length (find_all (named "script") d)) ∧
  ∀ nm, nm ≠ "script" →
    length (find_all (named nm) d') = length (find_all (named nm) d).
Proof.
  intros (d1 & d2 & d3 & d4 & d5 & d6 & d7 & H1 & H2 & H3 & H4 & H5 & H6 & H7 & H8)%rewrite_Ok.
  assert (∀ nm, length (find_all (named nm) d6) = length (find_all (named nm) d))
    as Hloops.
  { intros nm.
    pose proof (for_each_in_find_all _ _ nm _ _ (on_attrs_adds_strings_only _) H1)
      as L1%Forall2_length.
    pose proof (for_each_in_find_all _ _ nm _ _ (on_attrs_adds_strings_only _) H2)
      as L2%Forall2_length.
    pose proof (for_each_in_find_all _ _ nm _ _ (on_attrs_adds_strings_only _) H3)
      as L3%Forall2_length.
    pose proof (for_each_in_find_all _ _ nm _ _ (on_attrs_adds_strings_only _) H4)
      as L4%Forall2_length.
    pose proof (for_each_in_find_all _ _ nm _ _ convert_data_for_adds_strings_only H5)
      as L5%Forall2_length.
    assert (length (find_all (named nm) d6) = length (find_all (named nm) d5)) as L6.
    { rewrite !find_all_tags. symmetry. eapply Forall2_length.
      apply (with_first_tags (named "html") (insert 0 (Text static_template_tag))
               (named nm) d5 d6); [| exact H6].
      intros cs cs'. rewrite insert_0. by intros [= <-]. }
    lia. }
  assert (∀ nm, length (find_all (named nm) d7) = length (find_all (named nm) d))
    as Hforms.
  { intros nm. rewrite <- Hloops.
    pose proof (for_each_in_find_all _ _ nm _ _ add_csrf_adds_strings_only H7)
      as L7%Forall2_length. lia. }
  split; [| split].
  - pose proof (for_each_in_length _ _ _ _ (on_attrs_adds_strings_only _) H1).
    pose proof (for_each_in_length _ _ _ _ (on_attrs_adds_strings_only _) H2).
    pose proof (for_each_in_length _ _ _ _ (on_attrs_adds_strings_only _) H3).
    pose proof (for_each_in_length _ _ _ _ (on_attrs_adds_strings_only _) H4).
    pose proof (for_each_in_length _ _ _ _ convert_data_for_adds_strings_only H5).
    pose proof (load_static_pass_length _ _ H6).
    pose proof (for_each_in_length _ _ _ _ add_csrf_adds_strings_only H7).
    pose proof (async_pass_length _ _ H8). lia.
  - rewrite <- (Hforms "script").
    apply with_first_Ok in H8 as (l1 & c & c' & l2 & -> & -> & _ & Hc).
    rewrite !find_all_tags, !tags_app, !filter_app, !length_app.
    unfold tags at 2 4. simpl. rewrite !filter_app, !length_app.
    enough (length (filter (matches (named "script")) (tags_node c'))
            = S (length (filter (matches (named "script")) (tags_node c)))) by lia.
    clear -Hc. induction Hc as [nm a cs cs' Hsel [= <-] | nm a l1 c c' l2 Hsel Hl1 Hc IH].
    + apply named_true in Hsel as ->. simpl. fold (tags cs) (tags (append script_tag cs)).
      rewrite tags_append_script, !filter_cons. simpl.
      rewrite filter_app, length_app. simpl. lia.
    + simpl. fold (tags (l1 ++ c :: l2)) (tags (l1 ++ c' :: l2)).
      rewrite !tags_app. unfold tags at 2 4. simpl. fold (tags l2).
      rewrite !(filter_cons _ (Tag nm a _)). simpl.
      destruct (decide (named "script" nm a)); simpl;
        rewrite !filter_app, !length_app; lia.
  - intros nm Hnm. rewrite <- (Hforms nm).
    rewrite !find_all_tags. symmetry. eapply Forall2_length.
    apply (with_first_tags (named "body")
             (λ contents, Ok (append script_tag contents)) (named nm) d7 d');
      [| exact H8].
    exact (call_keeps_named _ async_call nm Hnm).
Qed.

Lemma one_tag_added_witness :
  length (tags site_page_rewritten) = S (length (tags site_page)) ∧
  length (find_all (named "script") site_page_rewritten)
  = S (length (find_all (named "script") site_page)) ∧
  ∀ nm, nm ≠ "script" →
    length (find_all (named nm) site_page_rewritten)
    = length (find_all (named nm) site_page).
Proof.
  apply (one_tag_added "web" site_page site_page_rewritten).
  vm_compute. reflexivity.
Defined.

(* ===================================================================== *)
(** * More properties of the statements on files *)
(* ===================================================================== *)

Lemma read_Ok p e d : read p e = Ok d ↔ lookup p e = Some (File d).
Proof.
  unfold read. rewrite <- stat_Ok. split.
  - intros (x & Hx & Hd)%result_bind_Ok. destruct x; [| done]. congruence.
  - intros ->. done.
Qed.

(** Two files at different paths lie apart. *)
Lemma files_diverge p q e x y :
  p ≠ q → lookup p e = Some (File x) → lookup q e = Some (File y) →
  diverge p q = true.
Proof.
  revert q e. induction p as [| a p IH]; intros [| b q] e Hne Hp Hq; simpl in *.
  - done.
  - injection Hp as ->. done.
  - injection Hq as ->. done.
  - destruct e as [doc | m]; [done |].
    destruct (String.eqb_spec a b) as [-> | Hab]; [| done].
    destruct (m !! b) as [c |]; [| done]. simpl in *.
    apply (IH q c); [congruence | done | done].
Qed.

(** The directory of a path that leads somewhere. *)
Lemma lookup_parent p n e x :
  lookup (p ++ [n]) e = Some x → ∃ m, lookup p e = Some (Dir m).
Proof.
  rewrite lookup_app. destruct (lookup p e) as [[doc | m] |]; simpl; [done | eauto | done].
Qed.

Lemma write_after_read p d d' e :
  p ≠ [] → read p e = Ok d → write p d' e = Ok (put p (File d') e).
Proof.
  intros Hp Hread%read_Ok. destruct (path_last_split p Hp) as [n Hn].
  unfold write. rewrite Hread.
  rewrite Hn in Hread. destruct (lookup_parent _ _ _ _ Hread) as [m Hm].
  apply stat_Ok in Hm. by rewrite Hm.
Qed.

Lemma for_cons_Ok {A} (x : A) l (body : A → M unit) w w' :
  for_ (x :: l) body w = (w', Ok ()) ↔
  ∃ w1, body x w = (w1, Ok ()) ∧ for_ l body w1 = (w', Ok ()).
Proof.
  rewrite for_cons. unfold mbind, M_bind.
  destruct (body x w) as [w1 [[] | e]]; split.
  - eauto.
  - by intros (? & [= <-] & ?).
  - done.
  - by intros (? & [=] & _).
Qed.

(** The loop of [update_htmls] over paths that are all different. *)
Lemma update_loop reread app ps :
  NoDup ps → ∀ w w',
  for_ ps (λ q, update_html reread q app) w = (w', Ok ()) →
  self w' = self w ∧
  (∀ p, p ∈ ps → ∃ d d', lookup p (fs w) = Some (File d) ∧
                         rewrite app d = Ok d' ∧
                         lookup p (fs w') = Some (File (reread d'))) ∧
  (∀ r x, r ∉ ps → lookup r (fs w) = Some (File x) →
          lookup r (fs w') = Some (File x)).
Proof.
  induction 1 as [| p ps Hp Hnodup IH]; intros w w'.
  - intros [= <-]. split; [done |]. split; [| done]. by intros p ?%elem_of_nil.
  - intros (w1 & H1 & Hrest)%for_cons_Ok.
    apply update_html_Ok in H1 as (d & d' & e' & Hread & Hrw & Hwrite & ->).
    pose proof (write_read _ _ _ _ Hwrite) as Hp1%read_Ok.
    apply write_Ok in Hwrite as (n & m & _ & _ & ->).
    apply read_Ok in Hread.
    destruct (IH _ _ Hrest) as (Hself & Hin & Hout). cbn [fs self] in *.
    split; [done |]. split.
    + intros q [-> | Hq]%elem_of_cons.
      * exists d, d'. split; [done |]. split; [done |]. by apply Hout.
      * destruct (Hin q Hq) as (dq & dq' & Hq1 & Hrwq & Hq').
        exists dq, dq'. split; [| done].
        rewrite <- Hq1. symmetry. apply lookup_palter_diverge.
        eapply files_diverge; [| exact Hp1 | exact Hq1]. by intros ->.
    + intros r x [Hne Hr]%not_elem_of_cons Hx. apply Hout; [done |].
      rewrite <- Hx. apply lookup_palter_diverge.
      eapply files_diverge; [| exact Hread | exact Hx]. done.
Qed.

(** X11.  [update_html] on a path either returns, and then the file at
    the path holds the text written for the rewritten document (what is
    read from it is that document as it comes back from the text), every
    path that lies apart from it leads where it led and the importer is
    as it was; or it raises, and then nothing has changed and the
    exception is that of reading the file or that of the rewrite: writing
    a file that was read does not fail. *)
Theorem update_html_outcome reread p app w w' r :
  p ≠ [] → update_html reread p app w = (w', r) →
  match r with
  | Ok _ =>
      ∃ d d', read p (fs w) = Ok d ∧ rewrite app d = Ok d' ∧
        read p (fs w') = Ok (reread d') ∧
        (∀ q, diverge p q = true → lookup q (fs w') = lookup q (fs w)) ∧
        self w' = self w
  | Raise e =>
      w' = w ∧
      (read p (fs w) = Raise e
       ∨ ∃ d, read p (fs w) = Ok d ∧ rewrite app d = Raise e)
  end.
Proof.
  intros Hp. destruct r as [[] | e].
  - intros (d & d' & e' & Hread & Hrw & Hwrite & ->)%update_html_Ok.
    exists d, d'. split; [done |]. split; [done |].
    split; [by eapply write_read |]. split; [| done].
    intros q Hq. apply write_Ok in Hwrite as (n & m & _ & _ & ->).
    cbn [fs]. by apply lookup_palter_diverge.
  - unfold update_html, mbind, M_bind, of_fs, on_fs.
    destruct (read p (fs w)) as [d | e1] eqn:Hread.
    + destruct (rewrite app d) as [d' | e2] eqn:Hrw.
      * rewrite (write_after_read _ _ (reread d') _ Hp Hread). done.
      * intros [= <- <-]. eauto.
    + intros [= <- <-]. eauto.
Qed.

Lemma update_html_outcome_witness :
  ∃ d d', read ["web"; "templates"; "index.html"] (fs templates_site) = Ok d ∧
    rewrite "web" d = Ok d' ∧
    read ["web"; "templates"; "index.html"]
         (fs (update_html reparsed ["web"; "templates"; "index.html"] "web" templates_site).1)
    = Ok (reparsed d') ∧
    (∀ q, diverge ["web"; "templates"; "index.html"] q = true →
          lookup q (fs (update_html reparsed ["web"; "templates"; "index.html"] "web"
                          templates_site).1)
          = lookup q (fs templates_site)) ∧
    self (update_html reparsed ["web"; "templates"; "index.html"] "web" templates_site).1
    = self templates_site.
Proof.
  apply (update_html_outcome reparsed ["web"; "templates"; "index.html"] "web"
           templates_site _ (Ok ())).
  - done.
  - vm_compute. reflexivity.
Defined.

(** X12.  When the recorded paths are all different and [update_htmls]
    returns, every recorded path held a document and holds the text
    written for its rewrite, made once from what the file held at the
    start; every other file is as it was, and so is the importer. *)
Theorem update_htmls_rewrites_each reread app w w' :
  NoDup (html_paths (self w)) →
  update_htmls reread app w = (w', Ok ()) →
  (∀ p, p ∈ html_paths (self w) →
     ∃ d d', read p (fs w) = Ok d ∧ rewrite app d = Ok d' ∧
             read p (fs w') = Ok (reread d')) ∧
  (∀ q x, q ∉ html_paths (self w) → read q (fs w) = Ok x →
          read q (fs w') = Ok x) ∧
  self w' = self w.
Proof.
  intros Hnodup Hrun. unfold update_htmls in Hrun.
  destruct (update_loop reread app _ Hnodup _ _ Hrun) as (Hself & Hin & Hout).
  split; [| split; [| done]].
  - intros p Hp. destruct (Hin p Hp) as (d & d' & H1 & H2 & H3).
    exists d, d'. by rewrite !read_Ok.
  - intros q x Hq. rewrite !read_Ok. by apply Hout.
Qed.

Lemma update_htmls_rewrites_each_witness :
  (∀ p, p ∈ html_paths (self templates_site) →
     ∃ d d', read p (fs templates_site) = Ok d ∧ rewrite "web" d = Ok d' ∧
             read p (fs (update_htmls reparsed "web" templates_site).1)
             = Ok (reparsed d')) ∧
  (∀ q x, q ∉ html_paths (self templates_site) →
          read q (fs templates_site) = Ok x →
          read q (fs (update_htmls reparsed "web" templates_site).1) = Ok x) ∧
  self (update_htmls reparsed "web" templates_site).1 = self templates_site.
Proof.
  apply (update_htmls_rewrites_each reparsed "web" templates_site).
  - vm_compute. repeat constructor; set_solver.
  - vm_compute. reflexivity.
Defined.

(** ** The mover of the html files *)

Lemma move_html_files_loop wd app :
  move_html_files wd app =
    (on_fs (makedirs (parse (dest_html_dir app))) ≫= λ _,
     files ← of_fs (listdir wd);
     for_ files (move_html wd (dest_html_dir app))).
Proof. reflexivity. Qed.

Lemma html_names_cons n files :
  html_names (n :: files)
  = if endswith_html n then n :: html_names files else html_names files.
Proof.
  unfold html_names. rewrite filter_cons.
  destruct (endswith_html n); by case_decide.
Qed.

Lemma move_html_skip wd dest n w :
  endswith_html n = false → move_html wd dest n w = (w, Ok ()).
Proof. intros Hn. unfold move_html. by rewrite Hn. Qed.

Lemma move_html_Ok wd dest n w e' :
  endswith_html n = true →
  rename (wd ++ [n]) (parse dest ++ [n]) (fs w) = Ok e' →
  move_html wd dest n w =
    ({| fs := e';
        self := {| html_paths := html_paths (self w) ++ [parse dest ++ [n]];
                   static_files := static_files (self w) |};
        stdout := stdout w ++ [moved_notice "html" n (dest +:+ n)] |}, Ok ()).
Proof.
  intros Hn Hmv. unfold move_html. rewrite Hn.
  unfold mbind, M_bind, on_fs, join. by rewrite Hmv.
Qed.

Lemma move_html_Raise wd dest n w err :
  endswith_html n = true →
  rename (wd ++ [n]) (parse dest ++ [n]) (fs w) = Raise err →
  move_html wd dest n w = (w, Raise err).
Proof.
  intros Hn Hmv. unfold move_html. rewrite Hn.
  unfold mbind, M_bind, on_fs, join. by rewrite Hmv.
Qed.

(** The loop of [move_html_files] on names of the working directory: it
    raises something other than [FileNotFoundError], or it moves every
    name that ends in .html, records its new path and leaves the other
    names. *)
Lemma html_loop wd dest files :
  NoDup files → diverge wd (parse dest) = true →
  ∀ w ms md w' r,
    lookup wd (fs w) = Some (Dir ms) →
    lookup (parse dest) (fs w) = Some (Dir md) →
    (∀ n, n ∈ files → is_Some (ms !! n)) →
    for_ files (move_html wd dest) w = (w', r) →
    match r with
    | Raise e => e ≠ FileNotFoundError
    | Ok _ =>
        ∃ ms' md',
          lookup wd (fs w') = Some (Dir ms') ∧
          lookup (parse dest) (fs w') = Some (Dir md') ∧
          (∀ n, n ∈ html_names files → ms' !! n = None ∧ md' !! n = ms !! n) ∧
          (∀ n, n ∉ html_names files → ms' !! n = ms !! n ∧ md' !! n = md !! n) ∧
          html_paths (self w') = html_paths (self w) ++ html_dests dest files ∧
          static_files (self w') = static_files (self w) ∧
          stdout w' = stdout w ++ html_notices dest files
    end.
Proof.
  intros Hnodup Hd. induction files as [| n files IH];
    intros w ms md w' r Hsrc Hdst Hin.
  - intros [= <- <-]. exists ms, md. unfold html_dests, html_notices.
    rewrite !app_nil_r. split; [done |]. split; [done |]. split; [| done].
    by intros n ?%elem_of_nil.
  - apply NoDup_cons in Hnodup as [Hn Hnodup].
    rewrite for_cons. unfold html_dests, html_notices in *.
    rewrite html_names_cons.
    destruct (endswith_html n) eqn:Hhtml.
    + destruct (Hin n) as [x Hx]; [by left |].
      assert (lookup (wd ++ [n]) (fs w) = Some x) as Hfile.
      { rewrite lookup_app, Hsrc. simpl. by rewrite Hx. }
      destruct (rename_into wd (parse dest) n (fs w) x md Hd Hfile Hdst)
        as [Hmv | (err & Hmv & Herr)].
      * pose proof (moved_lookup wd (parse dest) n (fs w) x md ms Hd Hsrc Hdst)
          as (_ & _ & Hsrc1 & Hdst1).
        rewrite (bind_Ok _ _ _ _ _ (move_html_Ok _ _ _ _ _ Hhtml Hmv)).
        intros Hrest.
        eapply (IH Hnodup _ (delete n ms) (<[n := x]> md)) in Hrest;
          [| done | done |].
        -- destruct r as [[] | e]; [| done].
           destruct Hrest as (ms' & md' & H1 & H2 & H3 & H4 & H5 & H6 & H7).
           cbn [self fs stdout html_paths static_files] in *.
           assert (n ∉ html_names files) as Hn'.
           { unfold html_names. rewrite list_elem_of_filter. by intros [_ ?]. }
           exists ms', md'. split; [done |]. split; [done |].
           split; [| split; [| split; [| split]]].
           ++ intros n' [-> | H]%elem_of_cons.
              ** destruct (H4 n Hn') as [-> ->].
                 by rewrite lookup_delete_eq, lookup_insert_eq.
              ** destruct (H3 _ H) as [-> ->].
                 rewrite lookup_delete_ne; [done |]. by intros ->.
           ++ intros n' [Hne H]%not_elem_of_cons.
              destruct (H4 _ H) as [-> ->].
              by rewrite lookup_delete_ne, lookup_insert_ne.
           ++ rewrite H5, fmap_cons, <- app_assoc. done.
           ++ done.
           ++ rewrite H7, fmap_cons, <- app_assoc. done.
        -- intros n' Hn'. rewrite lookup_delete_ne; [apply Hin; by right |].
           by intros ->.
      * rewrite (bind_Raise _ _ _ _ _ (move_html_Raise _ _ _ _ _ Hhtml Hmv)).
        by intros [= <- <-].
    + rewrite (bind_Ok _ _ _ _ _ (move_html_skip _ _ _ _ Hhtml)).
      intros Hrest.
      eapply (IH Hnodup _ ms md) in Hrest; [done | done | done |].
      intros n' Hn'. apply Hin. by right.
Qed.

(** [move_html_files] when the working directory is there and the call
    returns. *)
Lemma move_html_files_present wd app w w' m :
  diverge wd (parse (dest_html_dir app)) = true →
  lookup wd (fs w) = Some (Dir m) →
  move_html_files wd app w = (w', Ok ()) →
  ∃ ms' md',
    lookup wd (fs w') = Some (Dir ms') ∧
    lookup (parse (dest_html_dir app)) (fs w') = Some (Dir md') ∧
    (∀ n, n ∈ html_names (names m) → ms' !! n = None ∧ md' !! n = m !! n) ∧
    (∀ n, n ∉ html_names (names m) → ms' !! n = m !! n) ∧
    html_paths (self w')
    = html_paths (self w) ++ html_dests (dest_html_dir app) (names m) ∧
    static_files (self w') = static_files (self w) ∧
    stdout w' = stdout w ++ html_notices (dest_html_dir app) (names m).
Proof.
  intros Hd Hsrc. rewrite move_html_files_loop. intros Hrun.
  destruct (makedirs (parse (dest_html_dir app)) (fs w)) as [fs1 | e] eqn:Hmk.
  2: { unfold mbind, M_bind, on_fs in Hrun. by rewrite Hmk in Hrun. }
  set (w1 := {| fs := fs1; self := self w; stdout := stdout w |}).
  assert (on_fs (makedirs (parse (dest_html_dir app))) w = (w1, Ok ())) as Hmk'.
  { unfold on_fs. by rewrite Hmk. }
  rewrite (bind_Ok _ _ _ _ _ Hmk') in Hrun.
  destruct (makedirs_dir _ _ _ Hmk) as [md Hdst1].
  assert (lookup wd fs1 = Some (Dir m)) as Hsrc1.
  { by rewrite (makedirs_diverge_lookup _ _ _ _ ltac:(by rewrite diverge_sym) Hmk). }
  assert (of_fs (listdir wd) w1 = (w1, Ok (names m))) as Hls.
  { unfold of_fs, listdir. cbn [fs w1]. apply stat_Ok in Hsrc1 as ->. done. }
  rewrite (bind_Ok _ _ _ _ _ Hls) in Hrun.
  eapply (html_loop _ _ _ (names_NoDup m) Hd w1 m md) in Hrun;
    [| done | done | by intros n ?%names_elem].
  destruct Hrun as (ms' & md' & H1 & H2 & H3 & H4 & H5 & H6 & H7).
  exists ms', md'. repeat (split; [done |]). split; [| done].
  intros n Hn. by destruct (H4 n Hn).
Qed.

Lemma html_names_elem name files :
  name ∈ html_names files ↔ name ∈ files ∧ endswith_html name = true.
Proof. unfold html_names. rewrite list_elem_of_filter. tauto. Qed.





(** ** What the mover of static files leaves alone *)

Lemma static_frame_refl ty w : static_frame ty w w.
Proof. by repeat split. Qed.

Lemma static_frame_trans ty w1 w2 w3 :
  static_frame ty w1 w2 → static_frame ty w2 w3 → static_frame ty w1 w3.
Proof.
  intros (A1 & B1 & C1 & D1) (A2 & B2 & C2 & D2).
  split; [congruence |]. split; [| split; [congruence |]].
  - intros ty' Hne. by rewrite B2, B1.
  - by etrans.
Qed.

Lemma move_one_frame ty src dest n w w' r :
  move_one ty src dest n w = (w', r) → static_frame ty w w'.
Proof.
  unfold move_one, mbind, M_bind, on_fs, print, record_static.
  destruct (rename _ _ (fs w)) as [e1 | err]; cbn [fs self stdout].
  - destruct (static_files (self w) !! ty) as [l |] eqn:Hl;
      intros [= <- <-]; unfold static_frame;
      cbn [fs self stdout html_paths static_files].
    + split; [done |]. split; [| split].
      * intros ty' Hne. by rewrite lookup_insert_ne.
      * rewrite dom_insert_L. apply elem_of_dom_2 in Hl. set_solver.
      * by apply prefix_app_r.
    + split; [done |]. split; [done |]. split; [done |]. by apply prefix_app_r.
  - intros [= <- <-]. apply static_frame_refl.
Qed.

Lemma move_loop_frame ty src dest files w w' r :
  for_ files (move_one ty src dest) w = (w', r) → static_frame ty w w'.
Proof.
  revert w. induction files as [| n files IH]; intros w.
  - intros [= <- <-]. apply static_frame_refl.
  - rewrite for_cons. unfold mbind, M_bind.
    destruct (move_one ty src dest n w) as [w1 [[] | e]] eqn:H1.
    + intros Hrest. eapply static_frame_trans; [by eapply move_one_frame |].
      by apply IH.
    + intros [= <- <-]. by eapply move_one_frame.
Qed.

Lemma move_static_file_keeps wd app ty w w' r :
  move_static_file wd app ty w = (w', r) → static_frame ty w w'.
Proof.
  intros Hrun.
  destruct (makedirs (parse (dest_static_dir app ty)) (fs w)) as [fs1 | e] eqn:Hmk.
  2: { rewrite (move_static_file_makedirs_Raise _ _ _ _ _ Hmk) in Hrun.
       injection Hrun as <- <-. apply static_frame_refl. }
  rewrite (move_static_file_makedirs_Ok _ _ _ _ _ Hmk) in Hrun.
  set (w1 := {| fs := fs1; self := self w; stdout := stdout w |}) in *.
  assert (static_frame ty w w1) as F1 by (by repeat split).
  eapply static_frame_trans; [exact F1 |].
  unfold try_except_FileNotFoundError in Hrun.
  set (src := source_static_dir wd ty) in *.
  destruct ((files ← of_fs (listdir src);
             for_ files (move_one ty src (dest_static_dir app ty))) w1)
    as [w2 r2] eqn:Hbody.
  assert (static_frame ty w1 w2) as F2.
  { unfold mbind, M_bind, of_fs in Hbody.
    destruct (listdir src (fs w1)) as [files | e].
    - by eapply move_loop_frame.
    - injection Hbody as <- <-. apply static_frame_refl. }
  assert (∀ w3, static_frame ty w2 w3 → static_frame ty w1 w3) as Hthen.
  { intros w3. by apply static_frame_trans. }
  destruct r2 as [[] | []]; try (injection Hrun as <- <-; exact F2).
  apply Hthen. unfold print in Hrun. injection Hrun as <- <-.
  split; [done |]. split; [done |]. split; [done |]. by apply prefix_app_r.
Qed.

(** X15.  Whatever [move_static_file] does for a category, returning or
    raising, it leaves the recorded html paths and the lists of the
    other categories as they are, adds no key to the dictionary and
    removes none, and only adds to the lines already printed. *)
Theorem move_static_file_frame wd app ty w w' r :
  move_static_file wd app ty w = (w', r) →
  html_paths (self w') = html_paths (self w) ∧
  (∀ ty', ty' ≠ ty →
     static_files (self w') !! ty' = static_files (self w) !! ty') ∧
  dom (static_files (self w')) = dom (static_files (self w)) ∧
  stdout w `prefix_of` stdout w'.
Proof.
  intros Hrun.
  destruct (move_static_file_keeps wd app ty w w' r Hrun) as (Hh & Ho & Hk & Hp).
  split; [exact Hh |]. split; [exact Ho |]. split; [exact Hk | exact Hp].
Qed.

Lemma move_static_file_frame_witness :
  html_paths (self (move_static_file ["webflow_export"] "web" "images" unpacked).1)
  = html_paths (self unpacked) ∧
  (∀ ty', ty' ≠ "images" →
     static_files (self (move_static_file ["webflow_export"] "web" "images"
                           unpacked).1) !! ty'
     = static_files (self unpacked) !! ty') ∧
  dom (static_files (self (move_static_file ["webflow_export"] "web" "images"
                             unpacked).1))
  = dom (static_files (self unpacked)) ∧
  stdout unpacked
    `prefix_of` stdout (move_static_file ["webflow_export"] "web" "images"
                          unpacked).1.
Proof.
  apply (move_static_file_frame ["webflow_export"] "web" "images" unpacked _
           (Ok ())).
  vm_compute. reflexivity.
Defined.

(** ** The paths that the movers leave alone *)

Lemma rename_apart src dst e e' q :
  diverge src q = true → diverge dst q = true →
  rename src dst e = Ok e' → lookup q e' = lookup q e.
Proof.
  intros Hs Hd. unfold rename.
  intros (x & _ & Hmv)%result_bind_Ok.
  assert (lookup q (put dst x (remove src e)) = lookup q e) as Hput.
  { unfold put, remove. by rewrite !lookup_palter_diverge. }
  destruct (decide (src = dst)); [by injection Hmv as <- |].
  destruct (decide (src `prefix_of` dst)); [done |].
  apply result_bind_Ok in Hmv as (y & _ & Hmv).
  destruct y as [doc | my]; [done |].
  destruct (lookup dst e) as [[doc | m] |], x as [docx | mx];
    try done; try (by injection Hmv as <-).
  destruct (decide (m = ∅)); [by injection Hmv as <- | done].
Qed.

Lemma move_one_apart ty src dest n w w' r q :
  diverge src q = true → diverge (parse dest) q = true →
  move_one ty src dest n w = (w', r) → lookup q (fs w') = lookup q (fs w).
Proof.
  intros Hs Hd. unfold move_one, mbind, M_bind, on_fs, print, record_static, join.
  destruct (rename _ _ (fs w)) as [e1 | err] eqn:Hmv; cbn [fs self stdout].
  - assert (lookup q e1 = lookup q (fs w)) as He1.
    { eapply rename_apart; [| | exact Hmv].
      - by apply (diverge_app src q [n] []) in Hs; rewrite app_nil_r in Hs.
      - by apply (diverge_app (parse dest) q [n] []) in Hd; rewrite app_nil_r in Hd. }
    destruct (static_files (self w) !! ty); by intros [= <- <-].
  - by intros [= <- <-].
Qed.

Lemma move_loop_apart ty src dest files w w' r q :
  diverge src q = true → diverge (parse dest) q = true →
  for_ files (move_one ty src dest) w = (w', r) →
  lookup q (fs w') = lookup q (fs w).
Proof.
  intros Hs Hd. revert w. induction files as [| n files IH]; intros w.
  - by intros [= <- <-].
  - rewrite for_cons. unfold mbind, M_bind.
    destruct (move_one ty src dest n w) as [w1 [[] | e]] eqn:H1.
    + intros Hrest. rewrite (IH _ Hrest).
      exact (move_one_apart _ _ _ _ _ _ _ _ Hs Hd H1).
    + intros [= <- <-]. exact (move_one_apart _ _ _ _ _ _ _ _ Hs Hd H1).
Qed.

Lemma move_static_file_apart wd app ty w w' r q :
  diverge (source_static_dir wd ty) q = true →
  diverge (parse (dest_static_dir app ty)) q = true →
  move_static_file wd app ty w = (w', r) →
  lookup q (fs w') = lookup q (fs w).
Proof.
  intros Hs Hd Hrun.
  destruct (makedirs (parse (dest_static_dir app ty)) (fs w)) as [fs1 | e] eqn:Hmk.
  2: { rewrite (move_static_file_makedirs_Raise _ _ _ _ _ Hmk) in Hrun.
       by injection Hrun as <- <-. }
  rewrite (move_static_file_makedirs_Ok _ _ _ _ _ Hmk) in Hrun.
  rewrite <- (makedirs_diverge_lookup _ _ _ _ Hd Hmk).
  set (w1 := {| fs := fs1; self := self w; stdout := stdout w |}) in *.
  change fs1 with (fs w1).
  unfold try_except_FileNotFoundError in Hrun.
  set (src := source_static_dir wd ty) in *.
  destruct ((files ← of_fs (listdir src);
             for_ files (move_one ty src (dest_static_dir app ty))) w1)
    as [w2 r2] eqn:Hbody.
  assert (lookup q (fs w2) = lookup q (fs w1)) as F2.
  { unfold mbind, M_bind, of_fs in Hbody.
    destruct (listdir src (fs w1)) as [files | e].
    - exact (move_loop_apart _ _ _ _ _ _ _ _ Hs Hd Hbody).
    - by injection Hbody as <- <-. }
  rewrite <- F2.
  destruct r2 as [[] | []]; by injection Hrun as <- <-.
Qed.

(** X16.  For an app path and a category written without [..], the app
    path from the current directory: whatever [move_static_file] does
    for the category, returning or raising, every path that lies apart
    from the source directory of the category and from its destination
    directory leads where it led before. *)
Theorem move_static_file_touches_two_directories wd app ty w w' r q :
  plain app = true → plain ty = true →
  diverge (source_static_dir wd ty) q = true →
  diverge (parse (dest_static_dir app ty)) q = true →
  move_static_file wd app ty w = (w', r) →
  lookup q (fs w') = lookup q (fs w).
Proof.
  intros _ _ Hs Hd Hrun.
  rewrite (move_static_file_apart _ _ _ _ _ _ _ Hs Hd Hrun). done.
Qed.

Lemma move_static_file_touches_two_directories_witness :
  lookup ["webflow_export"; "index.html"]
         (fs (move_static_file ["webflow_export"] "web" "images" unpacked).1)
  = lookup ["webflow_export"; "index.html"] (fs unpacked).
Proof.
  apply (move_static_file_touches_two_directories ["webflow_export"] "web"
           "images" unpacked _ (Ok ())).
  - reflexivity.
  - reflexivity.
  - reflexivity.
  - reflexivity.
  - vm_compute. reflexivity.
Defined.

(** ** The phases of the script, one after the other *)

Lemma bind_Ok_inv {A B} (m : M A) (k : A → M B) w w' b :
  (m ≫= k) w = (w', Ok b) → ∃ w1 a, m w = (w1, Ok a) ∧ k a w1 = (w', Ok b).
Proof.
  unfold mbind, M_bind. destruct (m w) as [w1 [a | e]]; [eauto | done].
Qed.

Lemma run_Ok reread wd app w w' :
  run reread wd app w = (w', Ok ()) →
  ∃ w1 w2 w3 w4 w5,
    move_static_file wd app "js" w = (w1, Ok ()) ∧
    move_static_file wd app "css" w1 = (w2, Ok ()) ∧
    move_static_file wd app "images" w2 = (w3, Ok ()) ∧
    move_static_file wd app "documents" w3 = (w4, Ok ()) ∧
    move_html_files wd app w4 = (w5, Ok ()) ∧
    update_htmls reread app w5 = (w', Ok ()).
Proof.
  unfold run.
  intros (w1 & [] & H1 & (w2 & [] & H2 & (w3 & [] & H3 & (w4 & [] & H4
            & (w5 & [] & H5 & H6)%bind_Ok_inv)%bind_Ok_inv)%bind_Ok_inv)%bind_Ok_inv)%bind_Ok_inv.
  by exists w1, w2, w3, w4, w5.
Qed.

(** A mover of static files leaves the pages of the working directory
    where they are. *)
Lemma static_phase_keeps_page wd app ty w w' r name :
  ty ∈ categories →
  diverge wd (parse (dest_static_dir app ty)) = true →
  endswith_html name = true →
  move_static_file wd app ty w = (w', r) →
  lookup (wd ++ [name]) (fs w') = lookup (wd ++ [name]) (fs w) ∧
  html_paths (self w') = html_paths (self w).
Proof.
  intros Hty Hd Hname Hrun. split.
  - eapply move_static_file_apart; [| | exact Hrun].
    + assert (source_static_dir wd ty = wd ++ [ty]) as ->.
      { unfold categories in Hty. unfold source_static_dir.
        repeat (apply elem_of_cons in Hty as [-> | Hty]; [done |]).
        by apply elem_of_nil in Hty. }
      apply diverge_last. intros ->. unfold categories in Hty.
      repeat (apply elem_of_cons in Hty as [-> | Hty]; [done |]).
      by apply elem_of_nil in Hty.
    + rewrite diverge_sym in Hd.
      apply (diverge_app _ _ [] [name]) in Hd. by rewrite app_nil_r in Hd.
  - by destruct (move_static_file_keeps _ _ _ _ _ _ Hrun) as [? _].
Qed.

Lemma update_loop_apart reread app ps q :
  (∀ p, p ∈ ps → diverge p q = true) → ∀ w w',
  for_ ps (λ p, update_html reread p app) w = (w', Ok ()) →
  lookup q (fs w') = lookup q (fs w).
Proof.
  induction ps as [| p ps IH]; intros Hq w w'.
  - by intros [= <-].
  - intros (w1 & H1 & Hrest)%for_cons_Ok.
    rewrite (IH (λ p' Hp', Hq p' (list_elem_of_further _ _ _ Hp')) _ _ Hrest).
    apply update_html_Ok in H1 as (d & d' & e' & _ & _ & Hwrite & ->).
    apply write_Ok in Hwrite as (n & m & _ & _ & ->). cbn [fs].
    apply lookup_palter_diverge, Hq. by left.
Qed.

Lemma html_dests_NoDup dest files : NoDup files → NoDup (html_dests dest files).
Proof.
  intros Hnodup. unfold html_dests, html_names, join.
  apply NoDup_fmap_2; [| by apply NoDup_filter].
  intros n n' H. apply app_inv_head in H. by injection H.
Qed.

(** X17.  When the script runs through its phases on a working directory
    that lies apart from the directories of the app, for an app path
    written from the current directory without [..], with no html path
    recorded before, every entry at the top of the working directory
    whose name ends in .html is a document, and after the run the
    templates directory holds the text written for its rewrite under
    that name, the working directory no longer has it, and its new path
    is recorded. *)
Theorem run_imports_pages reread wd app w w' m name x :
  plain app = true →
  (∀ ty, ty ∈ categories →
         diverge wd (parse (dest_static_dir app ty)) = true) →
  diverge wd (parse (dest_html_dir app)) = true →
  lookup wd (fs w) = Some (Dir m) →
  html_paths (self w) = [] →
  run reread wd app w = (w', Ok ()) →
  m !! name = Some x → endswith_html name = true →
  ∃ d d', x = File d ∧ rewrite app d = Ok d' ∧
    read (parse (dest_html_dir app) ++ [name]) (fs w') = Ok (reread d') ∧
    lookup (wd ++ [name]) (fs w') = None ∧
    parse (dest_html_dir app) ++ [name] ∈ html_paths (self w').
Proof.
  intros _ Hstatic Hd Hwd Hnone
    (w1 & w2 & w3 & w4 & w5 & H1 & H2 & H3 & H4 & H5 & H6)%run_Ok Hx Hname.
  assert (lookup (wd ++ [name]) (fs w) = Some x) as Hpage.
  { rewrite lookup_app, Hwd. simpl. by rewrite Hx. }
  destruct (static_phase_keeps_page _ _ "js" _ _ _ name
              ltac:(unfold categories; set_solver)
              (Hstatic "js" ltac:(unfold categories; set_solver)) Hname H1) as [P1 Q1].
  destruct (static_phase_keeps_page _ _ "css" _ _ _ name
              ltac:(unfold categories; set_solver)
              (Hstatic "css" ltac:(unfold categories; set_solver)) Hname H2) as [P2 Q2].
  destruct (static_phase_keeps_page _ _ "images" _ _ _ name
              ltac:(unfold categories; set_solver)
              (Hstatic "images" ltac:(unfold categories; set_solver)) Hname H3) as [P3 Q3].
  destruct (static_phase_keeps_page _ _ "documents" _ _ _ name
              ltac:(unfold categories; set_solver)
              (Hstatic "documents" ltac:(unfold categories; set_solver)) Hname H4) as [P4 Q4].
  assert (lookup (wd ++ [name]) (fs w4) = Some x) as Hpage4 by congruence.
  assert (html_paths (self w4) = []) as Hnone4 by congruence.
  destruct (lookup_parent _ _ _ _ Hpage4) as [m4 Hwd4].
  assert (m4 !! name = Some x) as Hx4.
  { rewrite lookup_app, Hwd4 in Hpage4. simpl in Hpage4.
    by destruct (m4 !! name). }
  destruct (move_html_files_present _ _ _ _ _ Hd Hwd4 H5)
    as (ms' & md' & S1 & S2 & S3 & _ & S5 & _).
  rewrite Hnone4 in S5. simpl in S5.
  assert (name ∈ html_names (names m4)) as Hin.
  { apply html_names_elem. split; [| done]. apply names_elem. eauto. }
  destruct (S3 _ Hin) as [Hgone Hthere].
  set (dst := parse (dest_html_dir app)) in *.
  assert (dst ++ [name] ∈ html_paths (self w5)) as Hrec.
  { rewrite S5. unfold html_dests, join. apply list_elem_of_fmap.
    by exists name. }
  unfold update_htmls in H6.
  assert (NoDup (html_paths (self w5))) as Hnodup.
  { rewrite S5. apply html_dests_NoDup, names_NoDup. }
  destruct (update_loop reread app _ Hnodup _ _ H6) as (Hself & Hin5 & _).
  destruct (Hin5 _ Hrec) as (d & d' & Hd5 & Hrw & Hd').
  assert (lookup (dst ++ [name]) (fs w5) = Some x) as Hx5.
  { rewrite lookup_app, S2. simpl. by rewrite Hthere, Hx4. }
  exists d, d'. split; [congruence |]. split; [done |].
  split; [by apply read_Ok |]. split; [| by rewrite Hself].
  assert (∀ p, p ∈ html_paths (self w5) → diverge p (wd ++ [name]) = true)
    as Hapart.
  { intros p Hp. rewrite S5 in Hp. unfold html_dests, join in Hp.
    apply list_elem_of_fmap in Hp as (n & -> & _).
    rewrite diverge_sym in Hd. by apply diverge_app. }
  rewrite (update_loop_apart reread app _ (wd ++ [name]) Hapart _ _ H6).
  rewrite lookup_app, S1. simpl. by rewrite Hgone.
Qed.

Lemma run_imports_pages_witness :
  ∃ d d', File page = File d ∧ rewrite "web" d = Ok d' ∧
    read (parse (dest_html_dir "web") ++ ["index.html"])
         (fs (run reparsed ["webflow_export"] "web" unpacked).1)
    = Ok (reparsed d') ∧
    lookup (["webflow_export"] ++ ["index.html"])
           (fs (run reparsed ["webflow_export"] "web" unpacked).1) = None ∧
    parse (dest_html_dir "web") ++ ["index.html"]
      ∈ html_paths (self (run reparsed ["webflow_export"] "web" unpacked).1).
Proof.
  apply (run_imports_pages reparsed ["webflow_export"] "web" unpacked _
           {[ "css" := Dir {[ "a.css" := File [] ]};
              "images" := Dir {[ "b.png" := File [];
                                 "icons" := Dir {[ "i.svg" := File [] ]} ]};
              "index.html" := File page ]}).
  - reflexivity.
  - intros ty Hty. unfold categories in Hty.
    repeat (apply elem_of_cons in Hty as [-> | Hty]; [reflexivity |]).
    by apply elem_of_nil in Hty.
  - reflexivity.
  - vm_compute. reflexivity.
  - reflexivity.
  - vm_compute. reflexivity.
  - vm_compute. reflexivity.
  - reflexivity.
Defined.

(** ** A category that the importer does not know, and a category moved
    twice *)







(** The image loop alone is not idempotent: a srcset that begins with
    images but not with a path is rewritten again inside the static
    reference that the first run wrote. *)
Example srcset_rewritten_again :
  ∃ d1 d2,
    imgs_pass "web" [Tag "img" [("src", "x.png");
                                ("srcset", "images.jpg 1x, images/b.jpg 2x")] []]
    = Ok d1 ∧
    imgs_pass "web" d1 = Ok d2 ∧ d2 ≠ d1.
Proof.
  eexists _, _. split; [reflexivity |]. split; [vm_compute; reflexivity |].
  vm_compute. discriminate.
Qed.

(** ** The categories do not interfere *)








